(** * CodebaseAnalyzer: stack-trace parsing and source cross-referencing

    A shallow embedding of [src/services/CodebaseAnalyzer.ts].

    - JavaScript strings are sequences of UTF-16 code units: [str := list N].
    - JavaScript regular expressions are embedded as an abstract syntax
      ([re]) together with a backtracking matcher ([rmatch]) that follows
      the priority rules of the ECMAScript matcher (leftmost start, greedy
      and lazy quantifiers, first alternative first).  [source_of] prints
      an abstract pattern back to the text between the slashes of the
      regular-expression literal, which is what [pattern.source] returns.
    - Numbers are IEEE doubles; the only numbers the analyzer handles are
      integers, [Infinity] and [NaN], so a number is an integer with the
      rounding to 53 significant bits written out ([round53]).
    - Exceptions are explicit: a computation that can throw returns an
      [outcome].
    - The file system, [path.join], [path.extname], [glob], the [ignore]
      package and number-to-string conversion belong to the platform; they
      are section variables. *)

From Stdlib Require Import List NArith ZArith Bool Ascii String Lia Arith.
From Stdlib Require Import DecimalString.
Import ListNotations.

Set Implicit Arguments.

(** ** Strings *)

Definition str := list N.

(** ASCII literal to code units. *)
Definition lit (x : string) : str :=
  List.map (fun a => N.of_nat (nat_of_ascii a)) (list_ascii_of_string x).

Definition str_eqb (a b : str) : bool :=
  if list_eq_dec N.eq_dec a b then true else false.

Lemma str_eqb_eq a b : str_eqb a b = true <-> a = b.
Proof.
  unfold str_eqb. destruct (list_eq_dec N.eq_dec a b); split; congruence.
Qed.

Fixpoint starts_with (p s : str) : bool :=
  match p, s with
  | [], _ => true
  | x :: p', y :: s' => N.eqb x y && starts_with p' s'
  | _ :: _, [] => false
  end.

(** [String.prototype.includes] *)
Fixpoint includes (s p : str) : bool :=
  starts_with p s ||
  match s with
  | [] => false
  | _ :: s' => includes s' p
  end.

(** [s.split('\n')]: always at least one segment. *)
Definition NL : N := 10.

Fixpoint split_nl (s : str) : list str :=
  match s with
  | [] => [[]]
  | c :: s' =>
      if N.eqb c NL then [] :: split_nl s'
      else match split_nl s' with
           | l :: ls => (c :: l) :: ls
           | [] => [[c]]
           end
  end.

Definition count_nl (s : str) : nat :=
  List.length (List.filter (N.eqb NL) s).

(** WhiteSpace and LineTerminator code points: the set stripped by
    [trim] and matched by [\s]. *)
Definition is_space (c : N) : bool :=
  (N.leb 9 c && N.leb c 13) || N.eqb c 32 || N.eqb c 160 || N.eqb c 5760
  || (N.leb 8192 c && N.leb c 8202) || N.eqb c 8232 || N.eqb c 8233
  || N.eqb c 8239 || N.eqb c 8287 || N.eqb c 12288 || N.eqb c 65279.

(** LineTerminator: what [.] refuses. *)
Definition is_line_terminator (c : N) : bool :=
  N.eqb c 10 || N.eqb c 13 || N.eqb c 8232 || N.eqb c 8233.

Definition is_digit (c : N) : bool := N.leb 48 c && N.leb c 57.

Definition is_word (c : N) : bool :=
  (N.leb 97 c && N.leb c 122) || (N.leb 65 c && N.leb c 90)
  || is_digit c || N.eqb c 95.

Fixpoint drop_while (f : N -> bool) (s : str) : str :=
  match s with
  | [] => []
  | c :: s' => if f c then drop_while f s' else s
  end.

Fixpoint take_while (f : N -> bool) (s : str) : str :=
  match s with
  | [] => []
  | c :: s' => if f c then c :: take_while f s' else []
  end.

Definition trimStart (s : str) : str := drop_while is_space s.
Definition trimEnd (s : str) : str := rev (drop_while is_space (rev s)).
Definition trim (s : str) : str := trimEnd (trimStart s).

(** ** Numbers *)

Inductive number :=
| Fin (z : Z)
| PosInf
| NegInf
| NaN.

(** Round a non-negative integer to the nearest double (ties to even). *)
Definition round53 (z : Z) : number :=
  if (z <? 2 ^ 53)%Z then Fin z
  else
    let e := (Z.log2 z - 52)%Z in
    let q := Z.shiftr z e in
    let r := (z - Z.shiftl q e)%Z in
    let half := Z.shiftl 1 (e - 1) in
    let q' := if (r <? half)%Z then q
              else if (half <? r)%Z then (q + 1)%Z
              else if Z.even q then q else (q + 1)%Z in
    let v := Z.shiftl q' e in
    if (v <? 2 ^ 1024)%Z then Fin v else PosInf.

Definition round_num (z : Z) : number :=
  if (z <? 0)%Z then
    match round53 (- z) with
    | Fin v => Fin (- v)
    | PosInf => NegInf
    | n => n
    end
  else round53 z.

(** [x - 1] *)
Definition num_pred (x : number) : number :=
  match x with
  | Fin z => round_num (z - 1)
  | n => n
  end.

(** [x >= 0] and [x < n] for an integer [n]; any comparison with [NaN]
    is false. *)
Definition num_ge0 (x : number) : bool :=
  match x with
  | Fin z => (0 <=? z)%Z
  | PosInf => true
  | _ => false
  end.

Definition num_lt (x : number) (n : Z) : bool :=
  match x with
  | Fin z => (z <? n)%Z
  | NegInf => true
  | _ => false
  end.

Definition digit_val (c : N) : Z :=
  if is_digit c then Z.of_N c - 48
  else if N.leb 97 c && N.leb c 122 then Z.of_N c - 87
  else if N.leb 65 c && N.leb c 90 then Z.of_N c - 55
  else 99.

Definition is_radix_digit (radix : Z) (c : N) : bool :=
  (digit_val c <? radix)%Z.

Definition digits_value (radix : Z) (ds : str) : Z :=
  fold_left (fun acc c => (acc * radix + digit_val c)%Z) ds 0%Z.

(** [parseInt(x)] with no radix argument; [None] is [undefined], which
    converts to the string "undefined" and yields [NaN]. *)
Definition parseInt (x : option str) : number :=
  match x with
  | None => NaN
  | Some s =>
      let s1 := trimStart s in
      let '(neg, s2) :=
        match s1 with
        | c :: t =>
            if N.eqb c 45 then (true, t)
            else if N.eqb c 43 then (false, t)
            else (false, s1)
        | [] => (false, s1)
        end in
      let '(radix, s3) :=
        match s2 with
        | c0 :: c1 :: t =>
            if N.eqb c0 48 && (N.eqb c1 120 || N.eqb c1 88)
            then (16%Z, t) else (10%Z, s2)
        | _ => (10%Z, s2)
        end in
      let ds := take_while (is_radix_digit radix) s3 in
      match ds with
      | [] => NaN
      | _ => let v := digits_value radix ds in
             round_num (if neg then - v else v)
      end
  end.

(** An array has fewer than [2^32] elements. *)
Definition MAX_ARRAY_LENGTH : Z := 2 ^ 32 - 1.

(** ** Regular expressions *)

Inductive citem :=
| CChar (c : N)
| CRange (lo hi : N)
| CSpace.

Inductive atomset :=
| Any
| Space
| Word
| Digit
| Bracket (negated : bool) (items : list citem).

Inductive re :=
| Eps
| Bol
| Chr (c : N)
| Cls (a : atomset)
| Seq (r1 r2 : re)
| Alt (r1 r2 : re)
| Star (greedy : bool) (r : re)
| Plus (greedy : bool) (r : re)
| Opt (r : re)
| Group (i : nat) (r : re)
| NGroup (r : re).

Fixpoint chars (s : str) : re :=
  match s with
  | [] => Eps
  | [c] => Chr c
  | c :: s' => Seq (Chr c) (chars s')
  end.

Fixpoint seqs (rs : list re) : re :=
  match rs with
  | [] => Eps
  | [r] => r
  | r :: rs' => Seq r (seqs rs')
  end.

Definition word (x : string) : re := chars (lit x).

(** *** The text of a pattern: [RegExp.prototype.source] *)

Definition BACKSLASH : N := 92.

Definition needs_escape (c : N) : bool :=
  existsb (N.eqb c) (lit ".()\/*+?[]^$|").

Definition needs_escape_in_class (c : N) : bool :=
  existsb (N.eqb c) (lit "\/]").

Definition source_of_citem (i : citem) : str :=
  match i with
  | CChar c => if needs_escape_in_class c then [BACKSLASH; c] else [c]
  | CRange lo hi => [lo] ++ lit "-" ++ [hi]
  | CSpace => lit "\s"
  end.

Definition source_of_atomset (a : atomset) : str :=
  match a with
  | Any => lit "."
  | Space => lit "\s"
  | Word => lit "\w"
  | Digit => lit "\d"
  | Bracket neg items =>
      lit "[" ++ (if neg then lit "^" else []) ++
      flat_map source_of_citem items ++ lit "]"
  end.

Fixpoint source_of (r : re) : str :=
  match r with
  | Eps => []
  | Bol => lit "^"
  | Chr c => if needs_escape c then [BACKSLASH; c] else [c]
  | Cls a => source_of_atomset a
  | Seq r1 r2 => source_of r1 ++ source_of r2
  | Alt r1 r2 => source_of r1 ++ lit "|" ++ source_of r2
  | Star g r1 => source_of r1 ++ lit "*" ++ (if g then [] else lit "?")
  | Plus g r1 => source_of r1 ++ lit "+" ++ (if g then [] else lit "?")
  | Opt r1 => source_of r1 ++ lit "?"
  | Group _ r1 => lit "(" ++ source_of r1 ++ lit ")"
  | NGroup r1 => lit "(?:" ++ source_of r1 ++ lit ")"
  end.

(** Capturing groups in the order of their opening parentheses. *)
Fixpoint groups_of (r : re) : list nat :=
  match r with
  | Seq r1 r2 | Alt r1 r2 => groups_of r1 ++ groups_of r2
  | Star _ r1 | Plus _ r1 | Opt r1 | NGroup r1 => groups_of r1
  | Group i r1 => i :: groups_of r1
  | _ => []
  end.

(** *** Matching *)

Definition citem_mem (i : citem) (c : N) : bool :=
  match i with
  | CChar x => N.eqb c x
  | CRange lo hi => N.leb lo c && N.leb c hi
  | CSpace => is_space c
  end.

Definition atom_mem (a : atomset) (c : N) : bool :=
  match a with
  | Any => negb (is_line_terminator c)
  | Space => is_space c
  | Word => is_word c
  | Digit => is_digit c
  | Bracket neg items =>
      xorb neg (existsb (fun i => citem_mem i c) items)
  end.

(** The matcher state: [pos] code units consumed, [rest] still ahead. *)
Record mstate := MState { pos : nat; rest : str }.

Definition captures := list (nat * str).

Fixpoint cap_get (c : captures) (i : nat) : option str :=
  match c with
  | [] => None
  | (j, w) :: c' => if Nat.eqb i j then Some w else cap_get c' i
  end.

Definition mresult := (mstate * captures)%type.
Definition cont := mstate -> captures -> option mresult.

Definition orelse {A} (x y : option A) : option A :=
  match x with
  | Some _ => x
  | None => y
  end.

Definition step (st : mstate) (f : N -> bool) (c : captures) (k : cont)
  : option mresult :=
  match rest st with
  | x :: xs => if f x then k (MState (S (pos st)) xs) c else None
  | [] => None
  end.

(** The text consumed between two states of one run. *)
Definition consumed (st st' : mstate) : str :=
  firstn (pos st' - pos st) (rest st).

(** An iteration of a quantifier that consumes nothing is rejected
    (RepeatMatcher, step 2.b of the ECMAScript specification). *)
Definition progress (st : mstate) (k : cont) : cont :=
  fun st1 c1 => if Nat.ltb (pos st) (pos st1) then k st1 c1 else None.

Fixpoint repeat_loop (body : mstate -> captures -> cont -> option mresult)
    (greedy : bool) (fuel : nat) (st : mstate) (c : captures) (k : cont)
  : option mresult :=
  match fuel with
  | O => k st c
  | S f =>
      let again :=
        body st c (progress st (fun st1 c1 => repeat_loop body greedy f st1 c1 k)) in
      if greedy then orelse again (k st c) else orelse (k st c) again
  end.

Fixpoint rmatch (r : re) (st : mstate) (c : captures) (k : cont)
  : option mresult :=
  match r with
  | Eps => k st c
  | Bol => if Nat.eqb (pos st) 0 then k st c else None
  | Chr a => step st (N.eqb a) c k
  | Cls a => step st (atom_mem a) c k
  | Seq r1 r2 => rmatch r1 st c (fun st1 c1 => rmatch r2 st1 c1 k)
  | Alt r1 r2 => orelse (rmatch r1 st c k) (rmatch r2 st c k)
  | Star g r1 => repeat_loop (rmatch r1) g (List.length (rest st)) st c k
  | Plus g r1 =>
      rmatch r1 st c (fun st1 c1 =>
        repeat_loop (rmatch r1) g (List.length (rest st1)) st1 c1 k)
  | Opt r1 => orelse (rmatch r1 st c (progress st k)) (k st c)
  | Group i r1 =>
      rmatch r1 st c (fun st1 c1 => k st1 ((i, consumed st st1) :: c1))
  | NGroup r1 => rmatch r1 st c k
  end.

Definition accept : cont := fun st c => Some (st, c).

(** Leftmost match: start positions are tried from left to right. *)
Fixpoint search (r : re) (p : nat) (s : str) : option (mstate * mresult) :=
  match rmatch r (MState p s) [] accept with
  | Some res => Some (MState p s, res)
  | None =>
      match s with
      | [] => None
      | _ :: s' => search r (S p) s'
      end
  end.

(** [s.match(r)] for a pattern without the [g] flag: the whole match
    followed by the groups, [None] for a group that did not take part
    ([undefined]); [None] overall is [null]. *)
Definition match_array (r : re) (start : mstate) (res : mresult)
  : list (option str) :=
  Some (consumed start (fst res)) ::
  List.map (cap_get (snd res)) (groups_of r).

Definition str_match (s : str) (r : re) : option (list (option str)) :=
  match search r 0 s with
  | Some (start, res) => Some (match_array r start res)
  | None => None
  end.

(** [s.replace(r, replacement)] for a pattern without the [g] flag and a
    replacement text without [$]: the leftmost match is replaced. *)
Definition str_replace (s : str) (r : re) (replacement : str) : str :=
  match search r 0 s with
  | Some (start, res) =>
      firstn (pos start) s ++ replacement ++ rest (fst res)
  | None => s
  end.

(** ** Exceptions *)

Inductive error := TypeError | IOError.

(** [Diverge] is a loop that never ends; [try]/[catch] handles [Throw]
    only. *)
Inductive outcome (A : Type) :=
| Ok (a : A)
| Throw (e : error)
| Diverge.

Arguments Ok {A} a.
Arguments Throw {A} e.
Arguments Diverge {A}.

Definition bind {A B} (x : outcome A) (f : A -> outcome B) : outcome B :=
  match x with
  | Ok a => f a
  | Throw e => Throw e
  | Diverge => Diverge
  end.

Notation "x <- c1 ;; c2" := (bind c1 (fun x => c2))
  (at level 61, c1 at next level, right associativity).

(** ** Data model *)

Inductive Role := before | target | after.

Record ContextLine := {
  lineNumber : Z;
  content : option str;        (* [lines[i]]; [None] is [undefined] *)
  context : Role
}.

Record FileAnalysis := {
  path : str;
  fileContent : str;
  lineCount : nat;
  functions : list (option str);   (* each [match[1]] *)
  imports : list (option str)
}.

(** A field that is [None] holds [undefined] at run time. *)
Record StackTraceFrame := {
  filename : str;
  function : option str;
  line : option number;
  column : option number
}.

(** ** parseStackTrace *)

Definition DQUOTE : N := 34.

Module TracePatterns.

(** [/from\s+(.+?):(\d+):in\s+`(.+?)'/] *)
Definition ruby_from : re :=
  seqs [word "from"; Plus true (Cls Space);
        Group 1 (Plus false (Cls Any)); word ":";
        Group 2 (Plus true (Cls Digit)); word ":in"; Plus true (Cls Space);
        word "`"; Group 3 (Plus false (Cls Any)); word "'"].

(** [/(.+?):(\d+):in\s+`(.+?)'/] *)
Definition ruby_in : re :=
  seqs [Group 1 (Plus false (Cls Any)); word ":";
        Group 2 (Plus true (Cls Digit)); word ":in"; Plus true (Cls Space);
        word "`"; Group 3 (Plus false (Cls Any)); word "'"].

(** [/(.+\.rb):(\d+)/] *)
Definition ruby_bare : re :=
  seqs [Group 1 (seqs [Plus true (Cls Any); word ".rb"]); word ":";
        Group 2 (Plus true (Cls Digit))].

(** [/at\s+(.+?)\s+\((.+?):(\d+):(\d+)\)/] *)
Definition js_at : re :=
  seqs [word "at"; Plus true (Cls Space);
        Group 1 (Plus false (Cls Any)); Plus true (Cls Space); word "(";
        Group 2 (Plus false (Cls Any)); word ":";
        Group 3 (Plus true (Cls Digit)); word ":";
        Group 4 (Plus true (Cls Digit)); word ")"].

(** [/File\s+"(.+?)",\s+line\s+(\d+),\s+in\s+(.+)/] *)
Definition python_file : re :=
  seqs [word "File"; Plus true (Cls Space); Chr DQUOTE;
        Group 1 (Plus false (Cls Any)); Chr DQUOTE; word ",";
        Plus true (Cls Space); word "line"; Plus true (Cls Space);
        Group 2 (Plus true (Cls Digit)); word ","; Plus true (Cls Space);
        word "in"; Plus true (Cls Space); Group 3 (Plus true (Cls Any))].

(** [/at\s+(.+?)\((.+?):(\d+)\)/] *)
Definition java_at : re :=
  seqs [word "at"; Plus true (Cls Space);
        Group 1 (Plus false (Cls Any)); word "(";
        Group 2 (Plus false (Cls Any)); word ":";
        Group 3 (Plus true (Cls Digit)); word ")"].

(** [/(\w+)\s+(.+?):(\d+)/] *)
Definition generic : re :=
  seqs [Group 1 (Plus true (Cls Word)); Plus true (Cls Space);
        Group 2 (Plus false (Cls Any)); word ":";
        Group 3 (Plus true (Cls Digit))].

Definition patterns : list re :=
  [ruby_from; ruby_in; ruby_bare; js_at; python_file; java_at; generic].

End TracePatterns.

(** [/^.*[\\\/]/] *)
Definition basename_re : re :=
  seqs [Bol; Star true (Cls Any); Cls (Bracket false [CChar 92; CChar 47])].

Definition str_at (m : list (option str)) (i : nat) : option str :=
  nth i m None.

Definition num_at (m : list (option str)) (i : nat) : option number :=
  option_map parseInt (nth_error m i).

(** The body of [if (match) { ... }]: the destructuring chosen from the
    text of the pattern, then the frame.  [filename.replace] throws when
    [filename] is [undefined]. *)
Definition frame_of_match (pattern : re) (m : list (option str))
  : outcome StackTraceFrame :=
  let src := source_of pattern in
  let '(filename, functionName, lineNum, columnNum) :=
    if includes src (lit "from\s+") then
      (str_at m 1, str_at m 3, num_at m 2, None)
    else if includes src (lit "in\s+`") then
      (str_at m 1, str_at m 3, num_at m 2, None)
    else if includes src (lit "\.rb") then
      (str_at m 1, Some (lit "<unknown>"), num_at m 2, None)
    else if includes src (lit "File\s+") then
      (str_at m 1, str_at m 3, num_at m 2, None)
    else if Nat.leb 4 (List.length m) then
      (str_at m 2, str_at m 1, num_at m 3, num_at m 4)
    else
      (str_at m 2, str_at m 1, num_at m 3, None) in
  match filename with
  | None => Throw TypeError
  | Some f =>
      Ok {| filename := str_replace f basename_re [];
            function := functionName;
            line := lineNum;
            column := columnNum |}
  end.

(** The inner [for (const pattern of patterns)] with its [break]. *)
Fixpoint first_match (l : str) (ps : list re)
  : option (re * list (option str)) :=
  match ps with
  | [] => None
  | p :: ps' =>
      match str_match l p with
      | Some m => Some (p, m)
      | None => first_match l ps'
      end
  end.

Definition parse_line (l : str) : outcome (list StackTraceFrame) :=
  match first_match l TracePatterns.patterns with
  | Some (p, m) => f <- frame_of_match p m ;; Ok [f]
  | None => Ok []
  end.

(** The outer [for (const line of lines)], pushing onto [frames]. *)
Fixpoint parse_lines (frames : list StackTraceFrame) (ls : list str)
  : outcome (list StackTraceFrame) :=
  match ls with
  | [] => Ok frames
  | l :: ls' => fs <- parse_line l ;; parse_lines (frames ++ fs) ls'
  end.

Definition parseStackTrace (stackTrace : str)
  : outcome (list StackTraceFrame) :=
  parse_lines [] (split_nl stackTrace).

(** ** getContextLines *)

(** [lines[i]] *)
Definition js_nth (lines : list str) (i : Z) : option str :=
  if (i <? 0)%Z then None else nth_error lines (Z.to_nat i).

(** The values [start, start+1, ..., end-1] of the loop variable. *)
Definition loop_range (start stop : Z) : list Z :=
  List.map (fun k => (start + Z.of_nat k)%Z) (seq 0 (Z.to_nat (stop - start))).

Definition getContextLines (lines : list str) (targetLine contextSize : Z)
  : list ContextLine :=
  let start := Z.max 0 (targetLine - contextSize) in
  let stop := Z.min (Z.of_nat (List.length lines)) (targetLine + contextSize + 1) in
  List.map
    (fun i =>
       {| lineNumber := (i + 1)%Z;
          content := js_nth lines i;
          context := if (i <? targetLine)%Z then before
                     else if (i =? targetLine)%Z then target else after |})
    (loop_range start stop).

(** ** findContainingFunction *)

Module DeclPatterns.

(** [/def\s+(?:self\.)?(\w+[!?]?)/] *)
Definition ruby_def : re :=
  seqs [word "def"; Plus true (Cls Space); Opt (NGroup (word "self."));
        Group 1 (seqs [Plus true (Cls Word);
                       Opt (Cls (Bracket false [CChar 33; CChar 63]))])].

(** [/def\s+self\.(\w+[!?]?)/] *)
Definition ruby_def_self : re :=
  seqs [word "def"; Plus true (Cls Space); word "self.";
        Group 1 (seqs [Plus true (Cls Word);
                       Opt (Cls (Bracket false [CChar 33; CChar 63]))])].

(** [/(\w+)\s*=\s*(?:lambda|proc)\s*{/] *)
Definition ruby_lambda : re :=
  seqs [Group 1 (Plus true (Cls Word)); Star true (Cls Space); word "=";
        Star true (Cls Space); NGroup (Alt (word "lambda") (word "proc"));
        Star true (Cls Space); word "{"].

(** [/(\w+)\s*=\s*->\s*\(/] *)
Definition ruby_stabby : re :=
  seqs [Group 1 (Plus true (Cls Word)); Star true (Cls Space); word "=";
        Star true (Cls Space); word "->"; Star true (Cls Space); word "("].

(** [/function\s+(\w+)/] *)
Definition js_function : re :=
  seqs [word "function"; Plus true (Cls Space); Group 1 (Plus true (Cls Word))].

(** [/(\w+)\s*:\s*function/] *)
Definition js_property : re :=
  seqs [Group 1 (Plus true (Cls Word)); Star true (Cls Space); word ":";
        Star true (Cls Space); word "function"].

(** [/(\w+)\s*\([^)]*\)\s*{/] *)
Definition js_method : re :=
  seqs [Group 1 (Plus true (Cls Word)); Star true (Cls Space); word "(";
        Star true (Cls (Bracket true [CChar 41])); word ")";
        Star true (Cls Space); word "{"].

(** [/const\s+(\w+)\s*=\s*\([^)]*\)\s*=>/] *)
Definition js_const_arrow : re :=
  seqs [word "const"; Plus true (Cls Space); Group 1 (Plus true (Cls Word));
        Star true (Cls Space); word "="; Star true (Cls Space); word "(";
        Star true (Cls (Bracket true [CChar 41])); word ")";
        Star true (Cls Space); word "=>"].

(** [/(\w+)\s*=\s*\([^)]*\)\s*=>/] *)
Definition js_arrow : re :=
  seqs [Group 1 (Plus true (Cls Word));
        Star true (Cls Space); word "="; Star true (Cls Space); word "(";
        Star true (Cls (Bracket true [CChar 41])); word ")";
        Star true (Cls Space); word "=>"].

(** [/def\s+(\w+)/] *)
Definition python_def : re :=
  seqs [word "def"; Plus true (Cls Space); Group 1 (Plus true (Cls Word))].

(** [/(?:public|private|protected)?\s*(?:static)?\s*\w+\s+(\w+)\s*\(/] *)
Definition java_method : re :=
  seqs [Opt (NGroup (Alt (word "public") (Alt (word "private") (word "protected"))));
        Star true (Cls Space); Opt (NGroup (word "static"));
        Star true (Cls Space); Plus true (Cls Word); Plus true (Cls Space);
        Group 1 (Plus true (Cls Word)); Star true (Cls Space); word "("].

(** The table of [findContainingFunction]. *)
Definition patterns : list re :=
  [ruby_def; ruby_def_self; ruby_lambda; ruby_stabby; js_function;
   js_property; js_method; js_const_arrow; js_arrow; python_def; java_method].

(** The table of [extractFunctions] (the same patterns with the [g] flag). *)
Definition extract_patterns : list re :=
  [ruby_def; ruby_lambda; ruby_stabby; js_function; js_property;
   js_const_arrow; python_def; java_method].

End DeclPatterns.

(** The name declared on a line, if a recognizer matches it:
    the inner loop of [findContainingFunction]; [match[1]]. *)
Definition declared_name (l : str) : option (option str) :=
  match first_match l DeclPatterns.patterns with
  | Some (_, m) => Some (str_at m 1)
  | None => None
  end.

(** [for (let i = targetLine; i >= 0; i--)], from [i] downwards.
    [lines[i].trim()] throws when [lines[i]] is [undefined].  The
    result [Ok None] is [null] (or an [undefined] group, which the
    caller treats alike). *)
Fixpoint scan_back (lines : list str) (i : nat) : outcome (option str) :=
  match nth_error lines i with
  | None => Throw TypeError
  | Some l =>
      match declared_name (trim l) with
      | Some name => Ok name
      | None =>
          match i with
          | O => Ok None
          | S i' => scan_back lines i'
          end
      end
  end.

Definition findContainingFunction (lines : list str) (targetLine : Z)
  : outcome (option str) :=
  if (targetLine <? 0)%Z then Ok None
  else scan_back lines (Z.to_nat targetLine).

(** ** extractFunctions and extractImports *)

Module ImportPatterns.

(** In the comments of this module [Q] stands for the double-quote
    character. *)

Definition quote_class : atomset := Bracket false [CChar 39; CChar DQUOTE].
Definition not_quote : atomset := Bracket true [CChar 39; CChar DQUOTE].
(** A constant path: an upper-case letter, word characters, and any
    number of [::]-separated repetitions of the same. *)
Definition const_name : re :=
  seqs [Cls (Bracket false [CRange 65 90]); Star true (Cls Word);
        Star true (NGroup (seqs [word "::"; Cls (Bracket false [CRange 65 90]);
                                 Star true (Cls Word)]))].

(** [/require\s+['Q]([^'Q]+)['Q]/g] *)
Definition ruby_require : re :=
  seqs [word "require"; Plus true (Cls Space); Cls quote_class;
        Group 1 (Plus true (Cls not_quote)); Cls quote_class].

(** [/require_relative\s+['Q]([^'Q]+)['Q]/g] *)
Definition ruby_require_relative : re :=
  seqs [word "require_relative"; Plus true (Cls Space); Cls quote_class;
        Group 1 (Plus true (Cls not_quote)); Cls quote_class].

(** [/load\s+['Q]([^'Q]+)['Q]/g] *)
Definition ruby_load : re :=
  seqs [word "load"; Plus true (Cls Space); Cls quote_class;
        Group 1 (Plus true (Cls not_quote)); Cls quote_class].

(** [/include\s+(CONST)/g] with [CONST] the text of [const_name] *)
Definition ruby_include : re :=
  seqs [word "include"; Plus true (Cls Space); Group 1 const_name].

(** [/extend\s+(CONST)/g] with [CONST] the text of [const_name] *)
Definition ruby_extend : re :=
  seqs [word "extend"; Plus true (Cls Space); Group 1 const_name].

(** [/gem\s+['Q]([^'Q]+)['Q]/g] *)
Definition ruby_gem : re :=
  seqs [word "gem"; Plus true (Cls Space); Cls quote_class;
        Group 1 (Plus true (Cls not_quote)); Cls quote_class].

(** [/import\s+.*?\s+from\s+['Q]([^'Q]+)['Q]/g] *)
Definition js_import_from : re :=
  seqs [word "import"; Plus true (Cls Space); Star false (Cls Any);
        Plus true (Cls Space); word "from"; Plus true (Cls Space);
        Cls quote_class; Group 1 (Plus true (Cls not_quote)); Cls quote_class].

(** [/import\s+['Q]([^'Q]+)['Q]/g] *)
Definition js_import : re :=
  seqs [word "import"; Plus true (Cls Space); Cls quote_class;
        Group 1 (Plus true (Cls not_quote)); Cls quote_class].

(** [/require\s*\(\s*['Q]([^'Q]+)['Q]\s*\)/g] *)
Definition js_require : re :=
  seqs [word "require"; Star true (Cls Space); word "("; Star true (Cls Space);
        Cls quote_class; Group 1 (Plus true (Cls not_quote)); Cls quote_class;
        Star true (Cls Space); word ")"].

(** [/from\s+([^\s]+)\s+import/g] *)
Definition python_from : re :=
  seqs [word "from"; Plus true (Cls Space);
        Group 1 (Plus true (Cls (Bracket true [CSpace])));
        Plus true (Cls Space); word "import"].

(** [/import\s+([^\s;]+)/g] *)
Definition java_import : re :=
  seqs [word "import"; Plus true (Cls Space);
        Group 1 (Plus true (Cls (Bracket true [CSpace; CChar 59])))].

Definition patterns : list re :=
  [ruby_require; ruby_require_relative; ruby_load; ruby_include; ruby_extend;
   ruby_gem; js_import_from; js_import; js_require; python_from; java_import].

End ImportPatterns.

(** [while ((match = pattern.exec(s)) !== null) out.push(match[1])] for a
    pattern with the [g] flag: each search starts at [lastIndex], the end
    of the previous match.  [s] is the text from [lastIndex] on and [p] is
    [lastIndex].  After an empty match [lastIndex] does not move and the
    loop never ends.  [fuel] bounds the number of non-empty matches. *)
Fixpoint exec_all (fuel : nat) (r : re) (p : nat) (s : str)
  : outcome (list (option str)) :=
  match search r p s with
  | None => Ok []
  | Some (start, res) =>
      if Nat.eqb (pos (fst res)) (pos start) then Diverge
      else
        match fuel with
        | O => Diverge
        | S f =>
            more <- exec_all f r (pos (fst res)) (rest (fst res)) ;;
            Ok (str_at (match_array r start res) 1 :: more)
        end
  end.

(** The [for (const pattern of patterns)] loop on one trimmed line. *)
Fixpoint extract_line (ps : list re) (l : str) : outcome (list (option str)) :=
  match ps with
  | [] => Ok []
  | p :: ps' =>
      found <- exec_all (List.length l) p 0 l ;;
      more <- extract_line ps' l ;;
      Ok (found ++ more)
  end.

Fixpoint extract_lines (ps : list re) (ls : list str)
  : outcome (list (option str)) :=
  match ls with
  | [] => Ok []
  | l :: ls' =>
      found <- extract_line ps (trim l) ;;
      more <- extract_lines ps ls' ;;
      Ok (found ++ more)
  end.

Definition opt_str_eqb (a b : option str) : bool :=
  match a, b with
  | Some x, Some y => str_eqb x y
  | None, None => true
  | _, _ => false
  end.

(** [[...new Set(xs)]]: first occurrences, in order. *)
Fixpoint dedup (seen xs : list (option str)) : list (option str) :=
  match xs with
  | [] => []
  | x :: xs' =>
      if existsb (opt_str_eqb x) seen then dedup seen xs'
      else x :: dedup (x :: seen) xs'
  end.

Definition extractFunctions (content : str) : outcome (list (option str)) :=
  found <- extract_lines DeclPatterns.extract_patterns (split_nl content) ;;
  Ok (dedup [] found).

Definition extractImports (content : str) : outcome (list (option str)) :=
  found <- extract_lines ImportPatterns.patterns (split_nl content) ;;
  Ok (dedup [] found).

(** ** The analyzer over its platform *)

(** The instance state: [gitignorePatterns] holds the text of the
    ignore file the rule set was built from, or [None] for [null]. *)
Record Analyzer := { gitignorePatterns : option str }.

Definition MAX_FILES : nat := 50.
Definition MAX_FRAMES : nat := 5.

Definition CROSS_MARK : str := [10060%N].
Definition MAGNIFIER : str := [55357%N; 56589%N].
Definition FOLDER : str := [55357%N; 56513%N].
Definition PAGE : str := [55357%N; 56516%N].
Definition WRENCH : str := [55357%N; 56615%N].
Definition QUESTION_MARK : str := [10067%N].
Definition ARROW : str := [8594%N].

Definition extMap : list (str * str) :=
  [(lit ".rb", lit "ruby"); (lit ".erb", lit "erb"); (lit ".rake", lit "ruby");
   (lit ".ts", lit "typescript"); (lit ".tsx", lit "typescript");
   (lit ".js", lit "javascript"); (lit ".jsx", lit "javascript");
   (lit ".py", lit "python"); (lit ".java", lit "java"); (lit ".go", lit "go");
   (lit ".php", lit "php"); (lit ".cs", lit "csharp"); (lit ".cpp", lit "cpp");
   (lit ".c", lit "c"); (lit ".h", lit "c")].

Fixpoint assoc (k : str) (m : list (str * str)) : option str :=
  match m with
  | [] => None
  | (k', v) :: m' => if str_eqb k k' then Some v else assoc k m'
  end.

Definition globPatterns : list str :=
  [lit "**/*.{rb,erb,rake}";
   lit "**/*.{ts,tsx,js,jsx,py,java,go,php,cs,cpp,c,h}";
   lit "!node_modules/**"; lit "!dist/**"; lit "!build/**"; lit "!.git/**";
   lit "!vendor/**"; lit "!tmp/**"].

(** [x || fallback] on a possibly undefined string. *)
Definition or_else (x : option str) (fallback : str) : str :=
  match x with
  | Some (c :: s) => c :: s
  | _ => fallback
  end.

Section Platform.

(** [fs.readFile(path, 'utf-8')]: the text, or [None] when it rejects. *)
Variable readFile : str -> option str.
(** [path.join] and [path.extname] of Node. *)
Variable path_join : list str -> str.
Variable path_extname : str -> str.
(** [String.prototype.toLowerCase]. *)
Variable toLowerCase : str -> str.
(** Number to string, as in a template literal. *)
Variable numberToString : number -> str.
(** [glob(patterns, { cwd })]. *)
Variable glob : list str -> str -> outcome (list str).
(** [ignore().add(rules).ignores(path)]; [filter] keeps the paths that
    [ignores] refuses. *)
Variable ignores : str -> str -> bool.

Definition show_number (x : option number) : str :=
  match x with
  | Some n => numberToString n
  | None => lit "undefined"
  end.

Definition show_string (x : option str) : str :=
  match x with
  | Some s => s
  | None => lit "undefined"
  end.

Definition getFileExtension (name : str) : str :=
  let ext := toLowerCase (path_extname name) in
  match assoc ext extMap with
  | Some (c :: s) => c :: s
  | _ => []
  end.

Definition loadGitignore (self : Analyzer) (codebasePath : str) : Analyzer :=
  match readFile (path_join [codebasePath; lit ".gitignore"]) with
  | Some rules => {| gitignorePatterns := Some rules |}
  | None => {| gitignorePatterns := None |}
  end.

Definition filterIgnoredFiles (self : Analyzer) (files : list str) : list str :=
  match gitignorePatterns self with
  | None => files
  | Some rules => List.filter (fun f => negb (ignores rules f)) files
  end.

(** [Ok None] is [null]: the [catch] of [analyzeFile] turns a failed
    read, or any exception, into [null]. *)
Definition analyzeFile (filePath : str) : outcome (option FileAnalysis) :=
  match readFile filePath with
  | None => Ok None
  | Some text =>
      let lines := split_nl text in
      match (fns <- extractFunctions text ;;
             imps <- extractImports text ;;
             Ok {| path := filePath;
                   fileContent := text;
                   lineCount := List.length lines;
                   functions := fns;
                   imports := imps |}) with
      | Ok a => Ok (Some a)
      | Throw _ => Ok None
      | Diverge => Diverge
      end
  end.

(** The loop over [filteredFiles.slice(0, 50)]: an analysis is pushed
    when it is not [null]; an exception is logged and the loop goes on. *)
Fixpoint analyze_files (codebasePath : str) (analyses : list FileAnalysis)
    (files : list str) : outcome (list FileAnalysis) :=
  match files with
  | [] => Ok analyses
  | file :: files' =>
      match analyzeFile (path_join [codebasePath; file]) with
      | Ok (Some a) => analyze_files codebasePath (analyses ++ [a]) files'
      | Ok None => analyze_files codebasePath analyses files'
      | Throw _ => analyze_files codebasePath analyses files'
      | Diverge => Diverge
      end
  end.

(** The result and the instance after the call.  An exception of
    [glob] is not caught. *)
Definition analyzeCodebase (self : Analyzer) (codebasePath : str)
  : outcome (list FileAnalysis) * Analyzer :=
  let self1 := loadGitignore self codebasePath in
  (files <- glob globPatterns codebasePath ;;
   let filteredFiles := filterIgnoredFiles self1 files in
   analyze_files codebasePath [] (firstn MAX_FILES filteredFiles),
   self1).

Definition render_context_line (cl : ContextLine) : str :=
  let marker := match context cl with
                | target => ARROW ++ lit " "
                | _ => lit "  "
                end in
  marker ++ numberToString (Fin (lineNumber cl)) ++ lit ": " ++
  show_string (content cl) ++ [NL].

(** The text built inside [if (targetLine >= 0 && targetLine < lines.length)]. *)
Definition frame_report (frame : StackTraceFrame) (lines : list str) (t : Z)
  : outcome str :=
  let contextLines := getContextLines lines t 3 in
  let analysis :=
    lit "### " ++ PAGE ++ lit " `" ++ filename frame ++ lit "` (Line " ++
    show_number (line frame) ++ lit ")" ++ [NL; NL] in
  let analysis := analysis ++ lit "```" ++ getFileExtension (filename frame) ++ [NL] in
  let analysis := analysis ++ flat_map render_context_line contextLines in
  let analysis := analysis ++ lit "```" ++ [NL] in
  functionName <- findContainingFunction lines t ;;
  match functionName with
  | Some (c :: s) =>
      Ok (analysis ++ WRENCH ++ lit " **Function:** `" ++ (c :: s) ++ lit "`" ++ [NL])
  | _ => Ok analysis
  end.

(** [frame.line - 1] *)
Definition target_index (frame : StackTraceFrame) : number :=
  match line frame with
  | Some n => num_pred n
  | None => NaN
  end.

(** The body of the [try] for one candidate path: [Ok (Some a)] returns
    [a], [Ok None] falls out of the [if], [Throw] reaches [catch]. *)
Definition try_candidate (frame : StackTraceFrame) (filePath : str)
  : outcome (option str) :=
  match readFile filePath with
  | None => Throw IOError
  | Some text =>
      let lines := split_nl text in
      let targetLine := target_index frame in
      if num_ge0 targetLine && num_lt targetLine (Z.of_nat (List.length lines))
      then
        match targetLine with
        | Fin t => a <- frame_report frame lines t ;; Ok (Some a)
        | _ => Ok None
        end
      else Ok None
  end.

Definition file_not_found (frame : StackTraceFrame) : str :=
  QUESTION_MARK ++ lit " **File not found:** `" ++ filename frame ++
  lit "` - May be from external library or different path structure." ++ [NL].

(** [for (const filePath of possiblePaths)]: the first candidate whose
    [try] body returns decides; after the [if] is skipped, or after
    [catch], the next candidate is tried.  The text after the loop is
    the "File not found" one. *)
Fixpoint try_paths (frame : StackTraceFrame) (paths : list str) : str :=
  match paths with
  | [] => file_not_found frame
  | filePath :: paths' =>
      match try_candidate frame filePath with
      | Ok (Some analysis) => analysis
      | _ => try_paths frame paths'
      end
  end.

Definition possiblePaths (frame : StackTraceFrame) (codebasePath : str)
  : list str :=
  [path_join [codebasePath; filename frame];
   path_join [codebasePath; lit "src"; filename frame];
   path_join [codebasePath; lit "app"; filename frame]].

Definition analyzeFileForStackFrame (frame : StackTraceFrame)
    (codebasePath : str) : str :=
  try_paths frame (possiblePaths frame codebasePath).

(** [frames.forEach((frame, index) => ...)] *)
Fixpoint list_frames (index : Z) (frames : list StackTraceFrame) : str :=
  match frames with
  | [] => []
  | frame :: frames' =>
      numberToString (Fin (index + 1)) ++ lit ". `" ++
      or_else (function frame) (lit "<anonymous>") ++ lit "`" ++ [NL] ++
      lit "   " ++ FOLDER ++ lit " " ++ filename frame ++ lit ":" ++
      show_number (line frame) ++ [NL] ++
      list_frames (index + 1) frames'
  end.

(** [for (const frame of frames.slice(0, 5))] *)
Fixpoint code_context (codebasePath : str) (frames : list StackTraceFrame)
  : str :=
  match frames with
  | [] => []
  | frame :: frames' =>
      let fileAnalysis := analyzeFileForStackFrame frame codebasePath in
      match fileAnalysis with
      | [] => code_context codebasePath frames'
      | _ => fileAnalysis ++ [NL] ++ code_context codebasePath frames'
      end
  end.

Definition could_not_parse : str :=
  CROSS_MARK ++
  lit " Could not parse stack trace. Please ensure it's in a valid format.".

Definition analyzeStackTrace (stackTrace codebasePath : str) : outcome str :=
  frames <- parseStackTrace stackTrace ;;
  match frames with
  | [] => Ok could_not_parse
  | _ =>
      Ok (lit "## " ++ MAGNIFIER ++ lit " Stack Trace Analysis" ++ [NL; NL] ++
          lit "**Parsed Stack Trace:**" ++ [NL] ++
          list_frames 0 frames ++
          [NL] ++ lit "**Code Context:**" ++ [NL; NL] ++
          code_context codebasePath (firstn MAX_FRAMES frames))
  end.

End Platform.

(** ** A sample platform, for concrete runs *)

Module Sample.

Fixpoint join_with_slash (parts : list str) : str :=
  match parts with
  | [] => []
  | [p] => p
  | p :: ps => p ++ lit "/" ++ join_with_slash ps
  end.

(** The text from the last dot on, empty when there is none. *)
Fixpoint extname (name : str) : str :=
  match name with
  | [] => []
  | c :: s =>
      match extname s with
      | [] => if N.eqb c 46 then c :: s else []
      | e => e
      end
  end.

Definition ascii_lower (s : str) : str :=
  List.map (fun c => if N.leb 65 c && N.leb c 90 then (c + 32)%N else c) s.

Definition decimal (n : number) : str :=
  match n with
  | Fin z =>
      (if (z <? 0)%Z then lit "-" else []) ++
      lit (DecimalString.NilZero.string_of_uint (N.to_uint (Z.to_N (Z.abs z))))
  | PosInf => lit "Infinity"
  | NegInf => lit "-Infinity"
  | NaN => lit "NaN"
  end.

(** A file system given by its readable files. *)
Definition read_from (files : list (str * str)) (p : str) : option str :=
  assoc p files.

Definition glob_listing (files : list str) : list str -> str -> outcome (list str) :=
  fun _ _ => Ok files.

(** A rule set made of one directory prefix. *)
Definition ignores_prefix (rules file : str) : bool := starts_with rules file.

Definition analyze_frame (files : list (str * str)) :=
  analyzeFileForStackFrame (read_from files) join_with_slash extname
    ascii_lower decimal.

Definition analyze_trace (files : list (str * str)) :=
  analyzeStackTrace (read_from files) join_with_slash extname
    ascii_lower decimal.

Definition analyze_file (files : list (str * str)) :=
  analyzeFile (read_from files).

Definition analyze_codebase (files : list (str * str)) (listing : list str) :=
  analyzeCodebase (read_from files) join_with_slash (glob_listing listing)
    ignores_prefix.

(** Lines [line 1] ... [line n], joined by newlines. *)
Fixpoint numbered_lines (n : nat) : str :=
  match n with
  | O => []
  | 1 => lit "line 1"
  | S m => numbered_lines m ++ [NL] ++ lit "line " ++ decimal (Fin (Z.of_nat n))
  end.

End Sample.

(** * Properties of the matcher *)

(** [matches r p w c c']: the pattern [r], started at position [p],
    can consume exactly [w], turning the captures [c] into [c']. *)
Inductive matches : re -> nat -> str -> captures -> captures -> Prop :=
| M_eps p c : matches Eps p [] c c
| M_bol c : matches Bol 0 [] c c
| M_chr a p c : matches (Chr a) p [a] c c
| M_cls a x p c : atom_mem a x = true -> matches (Cls a) p [x] c c
| M_seq r1 r2 p w1 w2 c0 c1 c2 :
    matches r1 p w1 c0 c1 ->
    matches r2 (p + List.length w1) w2 c1 c2 ->
    matches (Seq r1 r2) p (w1 ++ w2) c0 c2
| M_alt_l r1 r2 p w c0 c1 :
    matches r1 p w c0 c1 -> matches (Alt r1 r2) p w c0 c1
| M_alt_r r1 r2 p w c0 c1 :
    matches r2 p w c0 c1 -> matches (Alt r1 r2) p w c0 c1
| M_star_nil g r p c : matches (Star g r) p [] c c
| M_star_more g r p w1 w2 c0 c1 c2 :
    w1 <> [] ->
    matches r p w1 c0 c1 ->
    matches (Star g r) (p + List.length w1) w2 c1 c2 ->
    matches (Star g r) p (w1 ++ w2) c0 c2
| M_plus g r p w1 w2 c0 c1 c2 :
    matches r p w1 c0 c1 ->
    matches (Star g r) (p + List.length w1) w2 c1 c2 ->
    matches (Plus g r) p (w1 ++ w2) c0 c2
| M_opt_none r p c : matches (Opt r) p [] c c
| M_opt_some r p w c0 c1 :
    w <> [] -> matches r p w c0 c1 -> matches (Opt r) p w c0 c1
| M_group i r p w c0 c1 :
    matches r p w c0 c1 -> matches (Group i r) p w c0 ((i, w) :: c1)
| M_ngroup r p w c0 c1 :
    matches r p w c0 c1 -> matches (NGroup r) p w c0 c1.

#[local] Hint Constructors matches : core.

(** What it means for a run of the matcher to have gone through [r]:
    [r] consumed some [w] and the continuation went on from there. *)
Definition went_through (r : re) (st : mstate) (c : captures) (k : cont)
    (res : mresult) : Prop :=
  exists w s' c',
    rest st = w ++ s' /\
    matches r (pos st) w c c' /\
    k (MState (pos st + List.length w) s') c' = Some res.

Lemma orelse_some {A} (x y : option A) (v : A) :
  orelse x y = Some v -> x = Some v \/ (x = None /\ y = Some v).
Proof. destruct x; simpl; intros H; [left | right]; auto. Qed.

Lemma step_some st f c k res :
  step st f c k = Some res ->
  exists x xs, rest st = x :: xs /\ f x = true /\
               k (MState (S (pos st)) xs) c = Some res.
Proof.
  unfold step. destruct (rest st) as [|x xs]; [discriminate|].
  destruct (f x) eqn:E; [|discriminate]. intros H. eauto.
Qed.

Lemma consumed_app p w s' :
  consumed (MState p (w ++ s')) (MState (p + List.length w) s') = w.
Proof.
  unfold consumed; simpl.
  replace (p + List.length w - p) with (List.length w) by lia.
  rewrite firstn_app, firstn_all, Nat.sub_diag. simpl. apply app_nil_r.
Qed.

Lemma progress_some st k st1 c1 res :
  progress st k st1 c1 = Some res ->
  pos st < pos st1 /\ k st1 c1 = Some res.
Proof.
  unfold progress. destruct (Nat.ltb (pos st) (pos st1)) eqn:E; [|discriminate].
  apply Nat.ltb_lt in E. auto.
Qed.

Section Soundness.

Variable r : re.
Hypothesis body_sound :
  forall st c k res, rmatch r st c k = Some res -> went_through r st c k res.

Lemma repeat_loop_sound g fuel :
  forall st c k res,
    repeat_loop (rmatch r) g fuel st c k = Some res ->
    went_through (Star g r) st c k res.
Proof.
  induction fuel as [|f IH]; intros st c k res H; simpl in H.
  - exists [], (rest st), c. destruct st; simpl in *.
    rewrite Nat.add_0_r. auto.
  - assert (Hcases :
      k st c = Some res \/
      rmatch r st c
        (progress st (fun st1 c1 => repeat_loop (rmatch r) g f st1 c1 k))
      = Some res).
    { destruct g; apply orelse_some in H; tauto. }
    destruct Hcases as [Hk | Hit].
    + exists [], (rest st), c. destruct st; simpl in *.
      rewrite Nat.add_0_r. auto.
    + apply body_sound in Hit. destruct Hit as (w1 & s1 & c1 & E1 & M1 & K1).
      apply progress_some in K1. destruct K1 as [Hlt K1]. simpl in Hlt.
      apply IH in K1. destruct K1 as (w2 & s2 & c2 & E2 & M2 & K2).
      simpl in E2, M2, K2.
      exists (w1 ++ w2), s2, c2. repeat split.
      * rewrite E1, E2. apply app_assoc.
      * apply M_star_more with (c1 := c1); auto.
        intros ->. simpl in Hlt. lia.
      * rewrite length_app, Nat.add_assoc. exact K2.
Qed.

End Soundness.

Theorem rmatch_sound r :
  forall st c k res, rmatch r st c k = Some res -> went_through r st c k res.
Proof.
  induction r as [| |a|a|r1 IH1 r2 IH2|r1 IH1 r2 IH2|g r1 IH|g r1 IH|r1 IH|i r1 IH|r1 IH];
    intros st c k res H; simpl in H.
  - exists [], (rest st), c. destruct st; simpl in *. rewrite Nat.add_0_r. auto.
  - destruct (Nat.eqb (pos st) 0) eqn:E; [|discriminate].
    apply Nat.eqb_eq in E. exists [], (rest st), c.
    destruct st; simpl in *. subst. auto.
  - apply step_some in H. destruct H as (x & xs & E & Hx & K).
    apply N.eqb_eq in Hx. subst x.
    exists [a], xs, c. simpl. rewrite Nat.add_1_r. auto.
  - apply step_some in H. destruct H as (x & xs & E & Hx & K).
    exists [x], xs, c. simpl. rewrite Nat.add_1_r. auto.
  - apply IH1 in H. destruct H as (w1 & s1 & c1 & E1 & M1 & K1).
    apply IH2 in K1. destruct K1 as (w2 & s2 & c2 & E2 & M2 & K2).
    simpl in *. exists (w1 ++ w2), s2, c2. repeat split.
    + rewrite E1, E2. apply app_assoc.
    + eauto.
    + rewrite length_app, Nat.add_assoc. exact K2.
  - apply orelse_some in H. destruct H as [H | [_ H]].
    + apply IH1 in H. destruct H as (w & s' & c' & ? & ? & ?).
      exists w, s', c'; auto.
    + apply IH2 in H. destruct H as (w & s' & c' & ? & ? & ?).
      exists w, s', c'; auto.
  - apply (repeat_loop_sound IH) in H. exact H.
  - apply IH in H. destruct H as (w1 & s1 & c1 & E1 & M1 & K1).
    apply (repeat_loop_sound IH) in K1.
    destruct K1 as (w2 & s2 & c2 & E2 & M2 & K2). simpl in *.
    exists (w1 ++ w2), s2, c2. repeat split.
    + rewrite E1, E2. apply app_assoc.
    + eauto.
    + rewrite length_app, Nat.add_assoc. exact K2.
  - apply orelse_some in H. destruct H as [H | [_ H]].
    + apply IH in H. destruct H as (w & s' & c' & E & M & K).
      apply progress_some in K. destruct K as [Hlt K]. simpl in Hlt.
      exists w, s', c'. repeat split; auto.
      apply M_opt_some; auto. intros ->. simpl in Hlt. lia.
    + exists [], (rest st), c. destruct st; simpl in *.
      rewrite Nat.add_0_r. auto.
  - apply IH in H. destruct H as (w & s' & c' & E & M & K).
    exists w, s', ((i, w) :: c'). repeat split; auto.
    destruct st as [p s]. simpl in *. subst s.
    rewrite consumed_app in K. exact K.
  - apply IH in H. destruct H as (w & s' & c' & ? & ? & ?).
    exists w, s', c'; auto.
Qed.

Lemma search_sound r s :
  forall p start res,
    search r p s = Some (start, res) ->
    exists pre s0,
      s = pre ++ s0 /\ start = MState (p + List.length pre) s0 /\
      rmatch r start [] accept = Some res.
Proof.
  induction s as [|x s IH]; intros p start res H; simpl in H.
  - destruct (rmatch r (MState p []) [] accept) eqn:E; [|discriminate].
    inversion H; subst. exists [], []. simpl. rewrite Nat.add_0_r. auto.
  - destruct (rmatch r (MState p (x :: s)) [] accept) eqn:E.
    + inversion H; subst. exists [], (x :: s). simpl.
      rewrite Nat.add_0_r. auto.
    + apply IH in H. destruct H as (pre & s0 & -> & -> & R).
      exists (x :: pre), s0. simpl. rewrite <- Nat.add_succ_comm. auto.
Qed.

(** A successful [match]: where it lies in the text, what each group
    holds, and the run of the matcher that found it. *)
Lemma str_match_inv s r m :
  str_match s r = Some m ->
  exists pre w post c',
    s = pre ++ w ++ post /\
    matches r (List.length pre) w [] c' /\
    m = Some w :: List.map (cap_get c') (groups_of r) /\
    rmatch r (MState (List.length pre) (w ++ post)) [] accept
    = Some (MState (List.length pre + List.length w) post, c').
Proof.
  unfold str_match. destruct (search r 0 s) as [[start res]|] eqn:E; [|discriminate].
  intros H. inversion H; subst; clear H.
  apply search_sound in E. destruct E as (pre & s0 & -> & -> & R).
  pose proof (rmatch_sound _ _ _ _ R) as (w & s' & c' & E1 & M & K).
  simpl in *. unfold accept in K. inversion K; subst; clear K.
  exists pre, w, s', c'. repeat split; auto.
  unfold match_array. simpl. rewrite consumed_app. reflexivity.
Qed.

Lemma first_match_inv l ps p m :
  first_match l ps = Some (p, m) -> In p ps /\ str_match l p = Some m.
Proof.
  induction ps as [|q ps IH]; simpl; [discriminate|].
  destruct (str_match l q) eqn:E.
  - intros H. inversion H; subst. auto.
  - intros H. apply IH in H. tauto.
Qed.

Lemma first_match_none l ps :
  first_match l ps = None <-> Forall (fun p => str_match l p = None) ps.
Proof.
  induction ps as [|q ps IH]; simpl.
  - split; auto.
  - destruct (str_match l q) eqn:E.
    + split; [discriminate|]. intros H. inversion H; congruence.
    + rewrite IH. split; intros H; [constructor; auto | inversion H; auto].
Qed.

(** *** Reading a derivation of a concrete pattern *)

Lemma matches_star_cls g a p w c c' :
  matches (Star g (Cls a)) p w c c' ->
  Forall (fun x => atom_mem a x = true) w /\ c' = c.
Proof.
  intros H. remember (Star g (Cls a)) as r eqn:Er.
  induction H; try discriminate.
  - auto.
  - inversion Er; subst.
    match goal with M : matches (Cls _) _ _ _ _ |- _ => inversion M; subst end.
    destruct (IHmatches2 eq_refl) as [F ->]. split; auto.
    simpl. constructor; auto.
Qed.

Lemma matches_plus_cls g a p w c c' :
  matches (Plus g (Cls a)) p w c c' ->
  w <> [] /\ Forall (fun x => atom_mem a x = true) w /\ c' = c.
Proof.
  intros H.
  inversion H as [| | | | | | | | |g' r' p' w1 w2 c0 c1 c2 M1 M2| | | |]; subst.
  inversion M1; subst.
  apply matches_star_cls in M2. destruct M2 as [F ->].
  split; [discriminate|]. split; [|reflexivity].
  simpl. constructor; auto.
Qed.

Ltac inv_matches :=
  repeat match goal with
  | H : matches (Seq _ _) _ _ _ _ |- _ => inversion H; subst; clear H
  | H : matches (Group _ _) _ _ _ _ |- _ => inversion H; subst; clear H
  | H : matches (NGroup _) _ _ _ _ |- _ => inversion H; subst; clear H
  | H : matches (Chr _) _ _ _ _ |- _ => inversion H; subst; clear H
  | H : matches (Cls _) _ _ _ _ |- _ => inversion H; subst; clear H
  | H : matches Eps _ _ _ _ |- _ => inversion H; subst; clear H
  | H : matches (Plus _ (Cls _)) _ _ _ _ |- _ =>
      apply matches_plus_cls in H;
      let N := fresh "Hne" in let F := fresh "Hall" in
      destruct H as (N & F & ?); subst
  | H : matches (Star _ (Cls _)) _ _ _ _ |- _ =>
      apply matches_star_cls in H;
      let F := fresh "Hall" in
      destruct H as (F & ?); subst
  end.

(** *** The patterns, as written in the source *)

Example trace_pattern_sources :
  List.map source_of TracePatterns.patterns
  = [lit "from\s+(.+?):(\d+):in\s+`(.+?)'";
     lit "(.+?):(\d+):in\s+`(.+?)'";
     lit "(.+\.rb):(\d+)";
     lit "at\s+(.+?)\s+\((.+?):(\d+):(\d+)\)";
     lit "File\s+" ++ [DQUOTE] ++ lit "(.+?)" ++ [DQUOTE] ++
       lit ",\s+line\s+(\d+),\s+in\s+(.+)";
     lit "at\s+(.+?)\((.+?):(\d+)\)";
     lit "(\w+)\s+(.+?):(\d+)"].
Proof. vm_compute. reflexivity. Qed.

Example basename_source : source_of basename_re = lit "^.*[\\\/]".
Proof. vm_compute. reflexivity. Qed.

Example declaration_pattern_sources :
  List.map source_of DeclPatterns.patterns
  = [lit "def\s+(?:self\.)?(\w+[!?]?)";
     lit "def\s+self\.(\w+[!?]?)";
     lit "(\w+)\s*=\s*(?:lambda|proc)\s*{";
     lit "(\w+)\s*=\s*->\s*\(";
     lit "function\s+(\w+)";
     lit "(\w+)\s*:\s*function";
     lit "(\w+)\s*\([^)]*\)\s*{";
     lit "const\s+(\w+)\s*=\s*\([^)]*\)\s*=>";
     lit "(\w+)\s*=\s*\([^)]*\)\s*=>";
     lit "def\s+(\w+)";
     lit "(?:public|private|protected)?\s*(?:static)?\s*\w+\s+(\w+)\s*\("].
Proof. vm_compute. reflexivity. Qed.

Example extract_pattern_sources :
  List.map source_of DeclPatterns.extract_patterns
  = [lit "def\s+(?:self\.)?(\w+[!?]?)";
     lit "(\w+)\s*=\s*(?:lambda|proc)\s*{";
     lit "(\w+)\s*=\s*->\s*\(";
     lit "function\s+(\w+)";
     lit "(\w+)\s*:\s*function";
     lit "const\s+(\w+)\s*=\s*\([^)]*\)\s*=>";
     lit "def\s+(\w+)";
     lit "(?:public|private|protected)?\s*(?:static)?\s*\w+\s+(\w+)\s*\("].
Proof. vm_compute. reflexivity. Qed.

Example import_pattern_sources :
  let q := [DQUOTE] in
  List.map source_of ImportPatterns.patterns
  = [lit "require\s+['" ++ q ++ lit "]([^'" ++ q ++ lit "]+)['" ++ q ++ lit "]";
     lit "require_relative\s+['" ++ q ++ lit "]([^'" ++ q ++ lit "]+)['" ++ q ++ lit "]";
     lit "load\s+['" ++ q ++ lit "]([^'" ++ q ++ lit "]+)['" ++ q ++ lit "]";
     lit "include\s+([A-Z]\w*(?:::[A-Z]\w*)*)";
     lit "extend\s+([A-Z]\w*(?:::[A-Z]\w*)*)";
     lit "gem\s+['" ++ q ++ lit "]([^'" ++ q ++ lit "]+)['" ++ q ++ lit "]";
     lit "import\s+.*?\s+from\s+['" ++ q ++ lit "]([^'" ++ q ++ lit "]+)['" ++ q ++ lit "]";
     lit "import\s+['" ++ q ++ lit "]([^'" ++ q ++ lit "]+)['" ++ q ++ lit "]";
     lit "require\s*\(\s*['" ++ q ++ lit "]([^'" ++ q ++ lit "]+)['" ++ q ++ lit "]\s*\)";
     lit "from\s+([^\s]+)\s+import";
     lit "import\s+([^\s;]+)"].
Proof. vm_compute. reflexivity. Qed.

(** Groups are numbered by their opening parentheses. *)
Example group_numbers :
  List.map groups_of TracePatterns.patterns
  = [[1; 2; 3]; [1; 2; 3]; [1; 2]; [1; 2; 3; 4]; [1; 2; 3]; [1; 2; 3];
     [1; 2; 3]] /\
  Forall (fun r => groups_of r = [1])
         (DeclPatterns.patterns ++ ImportPatterns.patterns).
Proof. split; [reflexivity|]. repeat constructor. Qed.

(** Scenario A of the specification. *)
Example scenario_ruby_from :
  parseStackTrace (lit "from app/services/user_service.rb:25:in `get_user_data'")
  = Ok [{| filename := lit "user_service.rb";
           function := Some (lit "get_user_data");
           line := Some (Fin 25); column := None |}].
Proof. vm_compute. reflexivity. Qed.

Example scenario_python :
  parseStackTrace
    (lit "  File " ++ [DQUOTE] ++ lit "/srv/app/models.py" ++ [DQUOTE] ++
     lit ", line 12, in load")
  = Ok [{| filename := lit "models.py"; function := Some (lit "load");
           line := Some (Fin 12); column := None |}].
Proof. vm_compute. reflexivity. Qed.

Example scenario_java :
  parseStackTrace (lit "	at com.example.Class.method(File.java:123)")
  = Ok [{| filename := lit "File.java";
           function := Some (lit "com.example.Class.method");
           line := Some (Fin 123); column := None |}].
Proof. vm_compute. reflexivity. Qed.

(** *** Greedy repetition of a character class *)

(** The splits a greedy [a*] offers to its continuation: longest first. *)
Fixpoint greedy_run (f : N -> bool) (k : cont) (p : nat) (s : str)
    (c : captures) : option mresult :=
  match s with
  | x :: xs =>
      if f x then orelse (greedy_run f k (S p) xs c) (k (MState p s) c)
      else k (MState p s) c
  | [] => k (MState p s) c
  end.

Lemma repeat_cls_greedy a k c :
  forall s p fuel,
    List.length s <= fuel ->
    repeat_loop (rmatch (Cls a)) true fuel (MState p s) c k
    = greedy_run (atom_mem a) k p s c.
Proof.
  induction s as [|x xs IH]; intros p fuel Hf.
  - destruct fuel; simpl; reflexivity.
  - destruct fuel as [|f]; simpl in Hf; [lia|].
    simpl. unfold step. simpl.
    destruct (atom_mem a x); [|reflexivity].
    unfold progress. simpl.
    replace (Nat.ltb p (S p)) with true
      by (symmetry; apply Nat.ltb_lt; lia).
    rewrite IH by lia. reflexivity.
Qed.

Lemma plus_cls_greedy a k c x xs p :
  atom_mem a x = true ->
  rmatch (Plus true (Cls a)) (MState p (x :: xs)) c k
  = greedy_run (atom_mem a) k (S p) xs c.
Proof.
  intros Hx. simpl. unfold step. simpl. rewrite Hx.
  apply repeat_cls_greedy. simpl. lia.
Qed.

Definition keeps_state (k : cont) : Prop :=
  forall st c, exists c', k st c = Some (st, c').

Lemma greedy_run_total f k c :
  (forall st c0, k st c0 <> None) ->
  forall s p,
    greedy_run f k p s c
    = k (MState (p + List.length (take_while f s)) (drop_while f s)) c.
Proof.
  intros Hk. induction s as [|x xs IH]; intros p; simpl.
  - rewrite Nat.add_0_r. reflexivity.
  - destruct (f x) eqn:E.
    + rewrite IH. simpl. rewrite <- Nat.add_succ_comm.
      destruct (k _ c) eqn:Ek; [reflexivity|]. apply Hk in Ek. contradiction.
    + rewrite Nat.add_0_r. reflexivity.
Qed.

Lemma keeps_state_total k : keeps_state k -> forall st c, k st c <> None.
Proof. intros Hk st c. destruct (Hk st c) as [c' ->]. discriminate. Qed.

Lemma greedy_run_app_some f k c r :
  forall u v p,
    Forall (fun x => f x = true) u ->
    greedy_run f k (p + List.length u) v c = Some r ->
    greedy_run f k p (u ++ v) c = Some r.
Proof.
  induction u as [|x u IH]; intros v p F H; simpl in *.
  - rewrite Nat.add_0_r in H. exact H.
  - inversion F; subst. rewrite H2.
    rewrite (IH v (S p)); auto.
    rewrite <- Nat.add_succ_comm in H. exact H.
Qed.

(** Nothing is found deeper when the continuation needs a first
    character that does not occur further on. *)
Lemma greedy_run_none f k c (first : N) :
  (forall p s, (forall t, s <> first :: t) -> k (MState p s) c = None) ->
  forall s p, ~ In first s -> greedy_run f k p s c = None.
Proof.
  intros Hk. induction s as [|x xs IH]; intros p Hn; simpl.
  - apply Hk. discriminate.
  - assert (Hx : k (MState p (x :: xs)) c = None).
    { apply Hk. intros t E. inversion E; subst. apply Hn. left. reflexivity. }
    destruct (f x); [|exact Hx].
    rewrite IH, Hx; [reflexivity|]. intros Hin. apply Hn. right. exact Hin.
Qed.

Definition not_starting_with (f : N -> bool) (s : str) : Prop :=
  match s with
  | x :: _ => f x = false
  | [] => True
  end.

Lemma drop_while_stops f s : not_starting_with f (drop_while f s).
Proof.
  induction s as [|x xs IH]; simpl; auto.
  destruct (f x) eqn:E; simpl; auto.
Qed.

(** The class a pattern ends with, when it ends with a greedy [a+]. *)
Fixpoint tail_class (r : re) : option atomset :=
  match r with
  | Seq _ r2 => tail_class r2
  | Group _ r1 => tail_class r1
  | Plus true (Cls a) => Some a
  | _ => None
  end.

(** A pattern that ends with a greedy [a+] leaves no [a] behind. *)
Lemma tail_greedy r :
  forall a st c k st' c',
    tail_class r = Some a ->
    keeps_state k ->
    rmatch r st c k = Some (st', c') ->
    not_starting_with (atom_mem a) (rest st').
Proof.
  induction r as [| |x|x|r1 IH1 r2 IH2|r1 IH1 r2 IH2|g r1 IH|g r1 IH|r1 IH|i r1 IH|r1 IH];
    intros a st c k st' c' Ht Hk H; simpl in Ht; try discriminate.
  - simpl in H. apply rmatch_sound in H.
    destruct H as (w & s1 & c1 & _ & _ & K).
    eapply IH2; eauto.
  - destruct g; try discriminate. destruct r1; try discriminate.
    inversion Ht; subst. destruct st as [p [|x xs]].
    + simpl in H. discriminate.
    + destruct (atom_mem a x) eqn:Hx.
      * rewrite plus_cls_greedy in H by assumption.
        rewrite (@greedy_run_total (atom_mem a) k c (keeps_state_total Hk)) in H.
        destruct (Hk (MState (S p + List.length (take_while (atom_mem a) xs))
                             (drop_while (atom_mem a) xs)) c) as [c2 E2].
        rewrite E2 in H. inversion H; subst. simpl. apply drop_while_stops.
      * simpl in H. unfold step in H. simpl in H. rewrite Hx in H.
        discriminate.
  - simpl in H. eapply IH; [exact Ht| |exact H].
    intros st1 c1. destruct (Hk st1 ((i, consumed st st1) :: c1)) as [c2 E2].
    exists c2. exact E2.
Qed.

Lemma accept_keeps_state : keeps_state accept.
Proof. intros st c. exists c. reflexivity. Qed.

(** *** The final path segment *)

Definition is_sep (c : N) : bool := N.eqb c 92 || N.eqb c 47.

(** The text after the last separator, if there is one. *)
Fixpoint after_last_sep (s : str) : option str :=
  match s with
  | [] => None
  | x :: xs =>
      match after_last_sep xs with
      | Some t => Some t
      | None => if is_sep x then Some xs else None
      end
  end.

Definition last_segment (s : str) : str :=
  match after_last_sep s with
  | Some t => t
  | None => s
  end.

Definition no_line_terminator (s : str) : Prop :=
  Forall (fun x => is_line_terminator x = false) s.

Definition all_digits (s : str) : Prop :=
  Forall (fun x => is_digit x = true) s.

Definition all_spaces (s : str) : Prop :=
  Forall (fun x => is_space x = true) s.

Definition no_separator (s : str) : Prop :=
  Forall (fun x => is_sep x = false) s.

Lemma any_no_line_terminator s :
  Forall (fun x => atom_mem Any x = true) s <-> no_line_terminator s.
Proof.
  unfold no_line_terminator. rewrite !Forall_forall.
  split; intros H x Hx; specialize (H x Hx); simpl in *;
    destruct (is_line_terminator x); simpl in *; congruence.
Qed.

Lemma after_last_sep_spec s :
  match after_last_sep s with
  | Some t => exists pre x, s = pre ++ x :: t /\ is_sep x = true /\ no_separator t
  | None => no_separator s
  end.
Proof.
  induction s as [|x xs IH]; simpl.
  - constructor.
  - destruct (after_last_sep xs) as [t|].
    + destruct IH as (pre & y & -> & Hy & Ht).
      exists (x :: pre), y. auto.
    + destruct (is_sep x) eqn:E.
      * exists [], x. auto.
      * constructor; auto.
Qed.

Lemma last_segment_no_separator s : no_separator (last_segment s).
Proof.
  unfold last_segment. pose proof (after_last_sep_spec s) as H.
  destruct (after_last_sep s).
  - destruct H as (_ & _ & _ & _ & H). exact H.
  - exact H.
Qed.

Lemma last_segment_suffix s : exists pre, s = pre ++ last_segment s.
Proof.
  unfold last_segment. pose proof (after_last_sep_spec s) as H.
  destruct (after_last_sep s).
  - destruct H as (pre & x & -> & _ & _). exists (pre ++ [x]).
    rewrite <- app_assoc. reflexivity.
  - exists []. reflexivity.
Qed.

Definition sep_then_accept : cont :=
  fun st c => rmatch (Cls (Bracket false [CChar 92; CChar 47])) st c accept.

Lemma greedy_run_sep c :
  forall s p,
    no_line_terminator s ->
    greedy_run (atom_mem Any) sep_then_accept p s c
    = match after_last_sep s with
      | Some t => Some (MState (p + List.length s - List.length t) t, c)
      | None => None
      end.
Proof.
  induction s as [|x xs IH]; intros p F.
  - reflexivity.
  - inversion F as [|? ? Hx F']; subst.
    cbn [greedy_run after_last_sep]. cbn [atom_mem]. rewrite Hx. cbn [negb].
    rewrite IH by assumption.
    destruct (after_last_sep xs) as [t|].
    + cbn [orelse]. cbn [List.length]. do 3 f_equal. lia.
    + cbn [orelse]. unfold sep_then_accept. cbn [rmatch]. unfold step.
      cbn [rest pos atom_mem existsb citem_mem xorb].
      unfold is_sep. rewrite orb_false_r.
      destruct (N.eqb x 92 || N.eqb x 47)%bool; [|reflexivity].
      unfold accept. cbn [List.length]. do 3 f_equal. lia.
Qed.

Lemma search_bol_none r s :
  forall p, 0 < p -> search (Seq Bol r) p s = None.
Proof.
  induction s as [|x xs IH]; intros p Hp; simpl;
    destruct p; try lia; simpl; auto.
Qed.

(** [filename.replace(/^.*[\\/]/, '')] keeps the final path segment. *)
Lemma basename_last_segment s :
  no_line_terminator s ->
  str_replace s basename_re [] = last_segment s.
Proof.
  intros F. unfold str_replace, last_segment.
  assert (R : rmatch basename_re (MState 0 s) [] accept
              = greedy_run (atom_mem Any) sep_then_accept 0 s []).
  { simpl. apply repeat_cls_greedy. auto. }
  rewrite greedy_run_sep in R by assumption.
  destruct s as [|x xs].
  - simpl. reflexivity.
  - cbn [search]. rewrite R.
    destruct (after_last_sep (x :: xs)) as [t|].
    + reflexivity.
    + change basename_re with
        (Seq Bol (Seq (Star true (Cls Any))
                      (Cls (Bracket false [CChar 92; CChar 47])))).
      rewrite search_bol_none by lia. reflexivity.
Qed.

(** *** Numbers *)

Lemma round53_exact z : (0 <= z <= 2 ^ 53)%Z -> round53 z = Fin z.
Proof.
  intros [H0 H1]. destruct (Z.eq_dec z (2 ^ 53)) as [->|Hne].
  - vm_compute. reflexivity.
  - unfold round53. replace (z <? 2 ^ 53)%Z with true; [reflexivity|].
    symmetry. apply Z.ltb_lt. lia.
Qed.

Lemma round53_big z :
  (2 ^ 53 <= z)%Z ->
  match round53 z with
  | Fin v => (2 ^ 53 <= v)%Z
  | PosInf => True
  | _ => False
  end.
Proof.
  intros Hz. unfold round53.
  replace (z <? 2 ^ 53)%Z with false by (symmetry; apply Z.ltb_ge; lia).
  set (e := (Z.log2 z - 52)%Z).
  assert (Hlog : (53 <= Z.log2 z)%Z).
  { change 53%Z with (Z.log2 (2 ^ 53)). apply Z.log2_le_mono. exact Hz. }
  assert (He : (1 <= e)%Z) by (unfold e; lia).
  set (q := Z.shiftr z e).
  assert (Hq : (2 ^ 52 <= q)%Z).
  { unfold q. rewrite Z.shiftr_div_pow2 by lia.
    apply Z.div_le_lower_bound; [apply Z.pow_pos_nonneg; lia|].
    rewrite <- Z.pow_add_r by lia.
    replace (e + 52)%Z with (Z.log2 z) by (unfold e; lia).
    apply Z.log2_spec. lia. }
  set (q' := if (z - Z.shiftl q e <? Z.shiftl 1 (e - 1))%Z then q
             else if (Z.shiftl 1 (e - 1) <? z - Z.shiftl q e)%Z then (q + 1)%Z
             else if Z.even q then q else (q + 1)%Z).
  assert (Hq' : (2 ^ 52 <= q')%Z).
  { unfold q'. repeat match goal with |- context [if ?b then _ else _] => destruct b end; lia. }
  assert (Hv : (2 ^ 53 <= Z.shiftl q' e)%Z).
  { rewrite Z.shiftl_mul_pow2 by lia.
    change (2 ^ 53)%Z with (2 ^ 52 * 2 ^ 1)%Z.
    apply Z.mul_le_mono_nonneg; try lia.
    apply Z.pow_le_mono_r; lia. }
  destruct (Z.shiftl q' e <? 2 ^ 1024)%Z; auto.
Qed.

Lemma digit_not_space x : is_digit x = true -> is_space x = false.
Proof.
  unfold is_digit. rewrite andb_true_iff, !N.leb_le. intros [H1 H2].
  unfold is_space.
  repeat match goal with
  | |- context [N.eqb x ?k] =>
      replace (N.eqb x k) with false by (symmetry; apply N.eqb_neq; lia)
  end.
  replace (N.leb x 13) with false by (symmetry; apply N.leb_gt; lia).
  replace (N.leb 8192 x) with false by (symmetry; apply N.leb_gt; lia).
  rewrite andb_false_r. reflexivity.
Qed.

Lemma digit_is_radix10 x : is_digit x = true -> is_radix_digit 10 x = true.
Proof.
  intros H. unfold is_radix_digit, digit_val. rewrite H.
  unfold is_digit in H. rewrite andb_true_iff, !N.leb_le in H.
  apply Z.ltb_lt. lia.
Qed.

Lemma digit_val_range x : is_digit x = true -> (0 <= digit_val x < 10)%Z.
Proof.
  intros H. unfold digit_val. rewrite H.
  unfold is_digit in H. rewrite andb_true_iff, !N.leb_le in H. lia.
Qed.

Lemma take_while_all f s :
  Forall (fun x => f x = true) s -> take_while f s = s.
Proof.
  induction 1 as [|x xs Hx F IH]; simpl; [reflexivity|].
  rewrite Hx, IH. reflexivity.
Qed.

Lemma digits_value_nonneg ds :
  all_digits ds -> forall acc, (0 <= acc)%Z ->
  (0 <= fold_left (fun a c => (a * 10 + digit_val c)%Z) ds acc)%Z.
Proof.
  induction 1 as [|x xs Hx F IH]; intros acc Ha; simpl; [exact Ha|].
  apply IH. pose proof (digit_val_range x Hx). lia.
Qed.

(** [parseInt] of a run of decimal digits is its value, rounded. *)
Lemma parseInt_digits ds :
  ds <> [] -> all_digits ds ->
  parseInt (Some ds) = round53 (digits_value 10 ds).
Proof.
  intros Hne F. destruct ds as [|x xs]; [congruence|].
  inversion F as [|? ? Hx F']; subst.
  assert (Hd : (48 <= x <= 57)%N).
  { unfold is_digit in Hx. rewrite andb_true_iff, !N.leb_le in Hx. exact Hx. }
  unfold parseInt, trimStart. cbn [drop_while].
  rewrite (digit_not_space x Hx).
  replace (N.eqb x 45) with false by (symmetry; apply N.eqb_neq; lia).
  replace (N.eqb x 43) with false by (symmetry; apply N.eqb_neq; lia).
  cbv iota beta.
  assert (Hfin : forall ds0, ds0 = x :: xs ->
            match take_while (is_radix_digit 10) ds0 with
            | [] => NaN
            | _ => round_num (digits_value 10 (take_while (is_radix_digit 10) ds0))
            end = round53 (digits_value 10 ds0)).
  { intros ds0 ->.
    rewrite take_while_all
      by (eapply Forall_impl; [|exact F]; intros; apply digit_is_radix10; assumption).
    unfold round_num.
    replace (digits_value 10 (x :: xs) <? 0)%Z with false; [reflexivity|].
    symmetry. apply Z.ltb_ge. apply digits_value_nonneg; [exact F|lia]. }
  destruct xs as [|y ys].
  - apply (Hfin [x]). reflexivity.
  - inversion F' as [|? ? Hy _]; subst.
    unfold is_digit in Hy. rewrite andb_true_iff, !N.leb_le in Hy.
    replace (N.eqb y 120) with false by (symmetry; apply N.eqb_neq; lia).
    replace (N.eqb y 88) with false by (symmetry; apply N.eqb_neq; lia).
    rewrite andb_false_r. cbv iota beta.
    apply (Hfin (x :: y :: ys)). reflexivity.
Qed.

(** [frame.line - 1] is a valid index of an array of [len] lines exactly
    when the line number lies in [1 .. len]. *)
Lemma index_in_range n len :
  (0 <= len <= MAX_ARRAY_LENGTH)%Z ->
  (1 <= n <= len)%Z ->
  num_pred (Fin n) = Fin (n - 1) /\
  num_ge0 (num_pred (Fin n)) && num_lt (num_pred (Fin n)) len = true.
Proof.
  unfold MAX_ARRAY_LENGTH. intros Hlen Hn.
  assert (E : num_pred (Fin n) = Fin (n - 1)).
  { unfold num_pred, round_num.
    replace (n - 1 <? 0)%Z with false by (symmetry; apply Z.ltb_ge; lia).
    apply round53_exact. assert (2 ^ 32 < 2 ^ 53)%Z by reflexivity. lia. }
  split; [exact E|]. rewrite E. simpl.
  apply andb_true_iff. split; [apply Z.leb_le | apply Z.ltb_lt]; lia.
Qed.

Lemma index_out_of_range n len :
  (0 <= len <= MAX_ARRAY_LENGTH)%Z ->
  (n < 1 \/ len < n)%Z ->
  num_ge0 (num_pred (Fin n)) && num_lt (num_pred (Fin n)) len = false.
Proof.
  unfold MAX_ARRAY_LENGTH. intros Hlen Hn.
  assert (H32 : (2 ^ 32 < 2 ^ 53)%Z) by reflexivity.
  unfold num_pred, round_num.
  destruct (Z.ltb_spec (n - 1)%Z 0%Z) as [Hneg|Hpos].
  - destruct (Z.le_gt_cases (- (n - 1))%Z (2 ^ 53)%Z) as [Hs|Hb].
    + rewrite round53_exact by lia. simpl.
      replace (0 <=? - - (n - 1))%Z with false; [reflexivity|].
      symmetry. apply Z.leb_gt. lia.
    + pose proof (@round53_big (- (n - 1))%Z) as B.
      destruct (round53 (- (n - 1))%Z) as [v| | |]; simpl; try reflexivity.
      replace (0 <=? - v)%Z with false; [reflexivity|].
      symmetry. apply Z.leb_gt.
      assert (2 ^ 53 <= v)%Z by (apply B; lia).
      assert (0 < 2 ^ 53)%Z by reflexivity. lia.
  - destruct (Z.le_gt_cases (n - 1)%Z (2 ^ 53)%Z) as [Hs|Hb].
    + rewrite round53_exact by lia. simpl.
      replace (n - 1 <? len)%Z with false; [apply andb_false_r|].
      symmetry. apply Z.ltb_ge. lia.
    + pose proof (@round53_big (n - 1)%Z) as B.
      destruct (round53 (n - 1)%Z) as [v| | |]; simpl; try reflexivity.
      replace (v <? len)%Z with false; [apply andb_false_r|].
      symmetry. apply Z.ltb_ge.
      assert (2 ^ 53 <= v)%Z by (apply B; lia). lia.
Qed.

(** *** What each trace recognizer reads off a line *)

Import TracePatterns.

Ltac eval_includes :=
  repeat match goal with
  | |- context [includes ?a ?b] =>
      let v := eval vm_compute in (includes a b) in
      change (includes a b) with v; cbv iota
  end.

Ltac expose p H :=
  cbv [p seqs word chars lit list_ascii_of_string List.map nat_of_ascii
       N.of_nat] in H; simpl in H.

Ltac app_eq :=
  repeat (progress (simpl; repeat rewrite <- app_assoc));
  repeat rewrite app_nil_r; reflexivity.

Lemma not_starting_with_cons f x s : f x = false -> not_starting_with f (x :: s).
Proof. intros H. exact H. Qed.

(** The group that holds the path, as the destructuring of
    [parseStackTrace] takes it: the first group for the four patterns
    picked out by their text, the second group otherwise.  The line
    number is the group after it; the function is the third group in
    the first case and the first group in the second. *)
Definition path_group (p : re) : nat :=
  let src := source_of p in
  if includes src (lit "from\s+") || includes src (lit "in\s+`")
     || includes src (lit "\.rb") || includes src (lit "File\s+")
  then 1 else 2.

Definition function_group (p : re) : nat :=
  if Nat.eqb (path_group p) 1 then 3 else 1.

(** [reads p m l f]: the frame [f] holds what the recognizer [p] found on
    the line [l], [m] being the result of the match.  The line is cut as
    [pre ++ path ++ mid ++ digits ++ post] where [path] is the text of
    the path group of [m], [digits] the text of its line group, which is
    the complete line number as written, and [mid] what the format puts
    between the two.  The file name is the final segment of [path]; the
    line number is the value of [digits] as a double, hence exact up to
    [2^53]; the column is the value of the fourth group for the one
    format that has it; the function is the text of the function group,
    or [<unknown>] for the bare format. *)
Definition reads (p : re) (m : list (option str)) (l : str)
    (f : StackTraceFrame) : Prop :=
  exists pre path mid digits post,
    l = pre ++ path ++ mid ++ digits ++ post /\
    path <> [] /\ no_line_terminator path /\
    digits <> [] /\ all_digits digits /\ not_starting_with is_digit post /\
    (p = python_file ->
       exists ws1 ws2,
         mid = [DQUOTE] ++ lit "," ++ ws1 ++ lit "line" ++ ws2 /\
         all_spaces ws1 /\ all_spaces ws2) /\
    (p <> python_file -> mid = lit ":") /\
    filename f = last_segment path /\
    no_separator (filename f) /\
    line f = Some (parseInt (Some digits)) /\
    line f = Some (round53 (digits_value 10 digits)) /\
    ((digits_value 10 digits <= 2 ^ 53)%Z ->
     line f = Some (Fin (digits_value 10 digits))) /\
    (p = js_at ->
       exists cd post',
         post = lit ":" ++ cd ++ lit ")" ++ post' /\
         cd <> [] /\ all_digits cd /\
         column f = Some (parseInt (Some cd)) /\
         str_at m 4 = Some cd) /\
    (p <> js_at -> column f = None) /\
    (p = ruby_bare -> function f = Some (lit "<unknown>")) /\
    (exists fn, function f = Some fn /\ fn <> []) /\
    str_at m (path_group p) = Some path /\
    str_at m (S (path_group p)) = Some digits /\
    (p <> ruby_bare -> function f = str_at m (function_group p)).

(** [flatten_onto t acc]: the list [t ++ acc] as a chain
    [a1 ++ a2 ++ ... ++ an] of variables and single characters. *)
Ltac flatten_onto t acc :=
  lazymatch t with
  | ?a ++ ?b => let acc' := flatten_onto b acc in flatten_onto a acc'
  | nil => acc
  | ?x :: ?r =>
      let acc' := flatten_onto r acc in
      lazymatch acc' with
      | nil => constr:([x])
      | _ => constr:([x] ++ acc')
      end
  | _ =>
      lazymatch acc with
      | nil => t
      | _ => constr:(t ++ acc)
      end
  end.

Ltac flatten t := flatten_onto t (@nil N).

(** [split_at t v]: the parts of the flat list [t] before and after [v]. *)
Ltac split_at t v :=
  lazymatch t with
  | v ++ ?r => constr:((@nil N, r))
  | v => constr:((@nil N, @nil N))
  | ?a ++ ?r =>
      let res := split_at r v in
      lazymatch res with
      | (nil, ?q) => constr:((a, q))
      | (?p, ?q) => constr:((a ++ p, q))
      end
  end.

Ltac before t v :=
  let t' := flatten t in
  let res := split_at t' v in
  lazymatch res with (?p, _) => p end.

Ltac behind t v :=
  let t' := flatten t in
  let res := split_at t' v in
  lazymatch res with (_, ?q) => q end.

Ltac head_atom t :=
  lazymatch t with
  | ?a ++ _ => head_atom a
  | _ => t
  end.

Ltac class_facts :=
  repeat match goal with
  | H : Forall (fun x => atom_mem Any x = true) _ |- _ =>
      apply any_no_line_terminator in H
  | H : Forall (fun x => atom_mem Digit x = true) ?w |- _ =>
      change (all_digits w) in H
  | H : Forall (fun x => atom_mem Space x = true) ?w |- _ =>
      change (all_spaces w) in H
  end.

Lemma no_line_terminator_app a b :
  no_line_terminator a -> no_line_terminator b -> no_line_terminator (a ++ b).
Proof. intros. apply Forall_app. auto. Qed.

Lemma app_not_nil_l (a b : str) : a <> [] -> a ++ b <> [].
Proof. destruct a; simpl; congruence. Qed.

(** Cut the line [L] around the path [pth] and the digits [d] and
    settle the parts of [reads] that hold for every recognizer. *)
Ltac cut_line L pth d :=
  let h := head_atom pth in
  let pre' := before L h in
  let post' := behind L d in
  let between := behind L h in
  let mid0 := before between d in
  exists pre', pth;
  first
    [ exists (lit ":"), d, post'; split; [app_eq|]
    | exists mid0, d, post'; split; [app_eq|] ].

Lemma basename_no_separator s :
  no_line_terminator s -> no_separator (str_replace s basename_re []).
Proof.
  intros F. rewrite basename_last_segment by assumption.
  apply last_segment_no_separator.
Qed.

Lemma line_rounded ds :
  ds <> [] -> all_digits ds ->
  Some (parseInt (Some ds)) = Some (round53 (digits_value 10 ds)).
Proof. intros. f_equal. apply parseInt_digits; assumption. Qed.

Lemma line_exact ds :
  ds <> [] -> all_digits ds ->
  (digits_value 10 ds <= 2 ^ 53)%Z ->
  Some (parseInt (Some ds)) = Some (Fin (digits_value 10 ds)).
Proof.
  intros Hne F Hv. rewrite parseInt_digits by assumption. f_equal.
  apply round53_exact. split; [|exact Hv].
  apply digits_value_nonneg; [exact F|lia].
Qed.

Ltac absurd_pattern :=
  let E := fresh "E" in
  intros E; first [ discriminate E | exfalso; apply E; reflexivity ].

Ltac solve_no_terminator :=
  first
    [ assumption
    | apply no_line_terminator_app; [assumption | repeat constructor] ].

(** The parts of [reads] after the cut, in their order. *)
Ltac finish_reads :=
  split; [first [assumption | apply app_not_nil_l; assumption]|];
  split; [solve_no_terminator|];
  split; [assumption|];
  split; [assumption|];
  split; [first [assumption | reflexivity]|];
  split; [first [absurd_pattern
                | intros _; do 2 eexists;
                  split; [reflexivity | split; assumption]]|];
  split; [first [intros _; reflexivity | absurd_pattern]|];
  split; [apply basename_last_segment; solve_no_terminator|];
  split; [apply basename_no_separator; solve_no_terminator|];
  split; [reflexivity|];
  split; [apply line_rounded; assumption|];
  split; [apply line_exact; assumption|];
  split; [first [absurd_pattern
                | intros _; do 2 eexists;
                  split; [reflexivity
                         | split; [eassumption
                                  | split; [eassumption
                                           | split; reflexivity]]]]|];
  split; [first [intros _; reflexivity | absurd_pattern]|];
  split; [first [intros _; reflexivity | absurd_pattern]|];
  split; [eexists; split; [reflexivity | first [assumption | discriminate]]|];
  unfold path_group, function_group; eval_includes;
  cbn [orb Nat.eqb str_at nth];
  split; [reflexivity|];
  split; [reflexivity|];
  first [intros _; reflexivity | absurd_pattern].

Ltac read_off P H :=
  apply str_match_inv in H;
  let pre := fresh "pre" in
  let w := fresh "w" in
  let post := fresh "post" in
  let c' := fresh "c'" in
  let M := fresh "M" in
  let R := fresh "R" in
  destruct H as (pre & w & post & c' & -> & M & -> & R);
  first
    [ apply (tail_greedy P (a := Digit)) in R;
      [|reflexivity|apply accept_keeps_state]; simpl in R
    | clear R ];
  expose P M; inv_matches; class_facts;
  unfold frame_of_match; eval_includes; simpl;
  eexists; split; [reflexivity|];
  lazymatch goal with
  | |- reads _ _ ?L {| filename := str_replace ?p _ _; function := _;
                     line := num_at ?m ?i; column := _ |} =>
      let d0 := eval cbv [nth_error] in (nth_error m i) in
      lazymatch d0 with
      | Some (Some ?d) => unfold reads; cut_line L p d; finish_reads
      end
  end.

Lemma ruby_from_reads l m :
  str_match l ruby_from = Some m ->
  exists f, frame_of_match ruby_from m = Ok f /\ reads ruby_from m l f.
Proof. intros H. read_off ruby_from H. Qed.

Lemma ruby_in_reads l m :
  str_match l ruby_in = Some m ->
  exists f, frame_of_match ruby_in m = Ok f /\ reads ruby_in m l f.
Proof. intros H. read_off ruby_in H. Qed.

Lemma ruby_bare_reads l m :
  str_match l ruby_bare = Some m ->
  exists f, frame_of_match ruby_bare m = Ok f /\ reads ruby_bare m l f.
Proof. intros H. read_off ruby_bare H. Qed.

Lemma js_at_reads l m :
  str_match l js_at = Some m ->
  exists f, frame_of_match js_at m = Ok f /\ reads js_at m l f.
Proof. intros H. read_off js_at H. Qed.

Lemma python_file_reads l m :
  str_match l python_file = Some m ->
  exists f, frame_of_match python_file m = Ok f /\ reads python_file m l f.
Proof. intros H. read_off python_file H. Qed.

Lemma java_at_reads l m :
  str_match l java_at = Some m ->
  exists f, frame_of_match java_at m = Ok f /\ reads java_at m l f.
Proof. intros H. read_off java_at H. Qed.

Lemma generic_reads l m :
  str_match l generic = Some m ->
  exists f, frame_of_match generic m = Ok f /\ reads generic m l f.
Proof. intros H. read_off generic H. Qed.

Lemma trace_pattern_reads l p m :
  In p patterns ->
  str_match l p = Some m ->
  exists f, frame_of_match p m = Ok f /\ reads p m l f.
Proof.
  intros Hin H. simpl in Hin.
  destruct Hin as [<-|[<-|[<-|[<-|[<-|[<-|[<-|[]]]]]]]].
  - apply ruby_from_reads; assumption.
  - apply ruby_in_reads; assumption.
  - apply ruby_bare_reads; assumption.
  - apply js_at_reads; assumption.
  - apply python_file_reads; assumption.
  - apply java_at_reads; assumption.
  - apply generic_reads; assumption.
Qed.

(** The frames one line contributes. *)
Definition frames_of_line (l : str) : list StackTraceFrame :=
  match parse_line l with
  | Ok fs => fs
  | _ => []
  end.

Lemma parse_line_ok l : parse_line l = Ok (frames_of_line l).
Proof.
  unfold frames_of_line, parse_line.
  destruct (first_match l patterns) as [[p m]|] eqn:E; [|reflexivity].
  apply first_match_inv in E. destruct E as [Hin Hm].
  destruct (@trace_pattern_reads l p m Hin Hm) as (f & -> & _). reflexivity.
Qed.

Lemma parse_lines_ok ls :
  forall acc, parse_lines acc ls = Ok (acc ++ flat_map frames_of_line ls).
Proof.
  induction ls as [|l ls IH]; intros acc; simpl.
  - rewrite app_nil_r. reflexivity.
  - rewrite parse_line_ok. simpl. rewrite IH, <- app_assoc. reflexivity.
Qed.

Lemma parseStackTrace_ok text :
  parseStackTrace text = Ok (flat_map frames_of_line (split_nl text)).
Proof. unfold parseStackTrace. rewrite parse_lines_ok. reflexivity. Qed.

Lemma frames_of_line_none l :
  first_match l patterns = None -> frames_of_line l = [].
Proof. unfold frames_of_line, parse_line. intros ->. reflexivity. Qed.

Lemma frames_of_line_some l p m :
  first_match l patterns = Some (p, m) ->
  exists f, frames_of_line l = [f] /\ reads p m l f.
Proof.
  intros E. unfold frames_of_line, parse_line. rewrite E.
  apply first_match_inv in E. destruct E as [Hin Hm].
  destruct (@trace_pattern_reads l p m Hin Hm) as (f & -> & Hr).
  exists f. auto.
Qed.

Lemma drop_while_all f s :
  Forall (fun x => f x = true) s -> drop_while f s = [].
Proof.
  induction 1 as [|x xs Hx F IH]; simpl; [reflexivity|].
  rewrite Hx. exact IH.
Qed.

Lemma firstn_length_app (a b : str) : firstn (List.length a) (a ++ b) = a.
Proof.
  rewrite firstn_app, firstn_all, Nat.sub_diag. simpl. apply app_nil_r.
Qed.

Lemma greedy_run_here f k c (first : N) x xs p :
  (forall p s, (forall t, s <> first :: t) -> k (MState p s) c = None) ->
  ~ In first xs ->
  greedy_run f k p (x :: xs) c = k (MState p (x :: xs)) c.
Proof.
  intros Hk Hn. simpl. destruct (f x); [|reflexivity].
  rewrite (@greedy_run_none f k c first Hk xs (S p) Hn). reflexivity.
Qed.

Lemma ruby_bare_run stem ds :
  stem <> [] -> no_line_terminator stem ->
  ds <> [] -> all_digits ds ->
  rmatch ruby_bare (MState 0 (stem ++ lit ".rb" ++ lit ":" ++ ds)) [] accept
  = Some (MState (List.length (stem ++ lit ".rb" ++ lit ":" ++ ds)) [],
          [(2, ds); (1, stem ++ lit ".rb")]).
Proof.
  intros Hs Fs Hd Fd.
  destruct stem as [|x stem']; [congruence|].
  destruct ds as [|d ds']; [congruence|].
  inversion Fs as [|? ? Hx Fs']; subst.
  inversion Fd as [|? ? Hdd Fd']; subst.
  set (l := (x :: stem') ++ lit ".rb" ++ lit ":" ++ d :: ds').
  set (Kd := (fun st5 c5 =>
    rmatch (Plus true (Cls Digit)) st5 c5
      (fun st7 c7 => accept st7 ((2, consumed st5 st7) :: c7))) : cont).
  set (K := (fun st0 c0 =>
    rmatch (Seq (Chr 46) (Seq (Chr 114) (Chr 98))) st0 c0
      (fun st4 c4 =>
         rmatch (Chr 58) st4 ((1, consumed (MState 0 l) st4) :: c4) Kd)) : cont).
  change (rmatch (Plus true (Cls Any)) (MState 0 l) [] K
          = Some (MState (List.length l) [],
                  [(2, d :: ds'); (1, (x :: stem') ++ lit ".rb")])).
  unfold l at 1. cbn [app].
  rewrite plus_cls_greedy by (simpl; rewrite Hx; reflexivity).
  apply greedy_run_app_some.
  { apply any_no_line_terminator. exact Fs'. }
  change (lit ".rb" ++ lit ":" ++ d :: ds')
    with (46%N :: 114%N :: 98%N :: 58%N :: d :: ds').
  rewrite (@greedy_run_here (atom_mem Any) K [] 46%N).
  - unfold K. cbn [rmatch]. unfold step. cbn [rest pos N.eqb Pos.eqb].
    unfold Kd. rewrite plus_cls_greedy by exact Hdd.
    rewrite greedy_run_total by (intros; discriminate).
    rewrite take_while_all, drop_while_all by exact Fd'.
    unfold accept. f_equal. f_equal.
    + f_equal. unfold l. rewrite !length_app.
      cbn [List.length lit list_ascii_of_string List.map]. lia.
    + f_equal.
      * f_equal. unfold consumed. cbn [pos rest].
        replace (S (S (S (S (S (1 + List.length stem'))))) + List.length ds'
                 - S (S (S (S (1 + List.length stem')))))
          with (List.length (d :: ds')) by (cbn [List.length]; lia).
        rewrite <- (app_nil_r (d :: ds')) at 2. apply firstn_length_app.
      * f_equal. f_equal. unfold consumed, l. cbn [pos rest].
        replace (S (S (S (1 + List.length stem'))) - 0)
          with (List.length ((x :: stem') ++ lit ".rb"))
          by (rewrite length_app; cbn [List.length lit list_ascii_of_string List.map]; lia).
        replace ((x :: stem') ++ lit ".rb" ++ lit ":" ++ d :: ds')
          with (((x :: stem') ++ lit ".rb") ++ lit ":" ++ d :: ds')
          by (rewrite <- app_assoc; reflexivity).
        apply firstn_length_app.
  - intros p s Hne. unfold K. cbn [rmatch]. unfold step. cbn [rest].
    destruct s as [|y t]; [reflexivity|].
    destruct (N.eqb_spec 46 y) as [<-|]; [|reflexivity].
    exfalso. apply (Hne t). reflexivity.
  - intros Hin. simpl in Hin.
    destruct Hin as [E|[E|[E|[E|Hin]]]]; try discriminate E.
    + subst d. discriminate Hdd.
    + unfold all_digits in Fd. rewrite Forall_forall in Fd'.
      apply Fd' in Hin. discriminate Hin.
Qed.

Lemma search_hit r p s res :
  rmatch r (MState p s) [] accept = Some res ->
  search r p s = Some (MState p s, res).
Proof. intros H. destruct s; simpl; rewrite H; reflexivity. Qed.

Lemma ruby_bare_match stem ds :
  stem <> [] -> no_line_terminator stem ->
  ds <> [] -> all_digits ds ->
  str_match (stem ++ lit ".rb" ++ lit ":" ++ ds) ruby_bare
  = Some [Some (stem ++ lit ".rb" ++ lit ":" ++ ds);
          Some (stem ++ lit ".rb"); Some ds].
Proof.
  intros Hs Fs Hd Fd. unfold str_match.
  rewrite (search_hit _ _ _ (ruby_bare_run Hs Fs Hd Fd)).
  unfold match_array, consumed. cbn [fst snd pos rest].
  rewrite Nat.sub_0_r, firstn_all. reflexivity.
Qed.

Lemma split_nl_one s : ~ In NL s -> split_nl s = [s].
Proof.
  induction s as [|x xs IH]; intros Hn; simpl; [reflexivity|].
  destruct (N.eqb_spec x NL) as [->|_].
  - exfalso. apply Hn. left. reflexivity.
  - rewrite IH; [reflexivity|]. intros Hin. apply Hn. right. exact Hin.
Qed.

Lemma no_line_terminator_no_nl s : no_line_terminator s -> ~ In NL s.
Proof.
  intros F Hin. unfold no_line_terminator in F. rewrite Forall_forall in F.
  apply F in Hin. discriminate Hin.
Qed.

Lemma all_digits_no_line_terminator ds :
  all_digits ds -> no_line_terminator ds.
Proof.
  apply Forall_impl. intros x Hx.
  unfold is_digit in Hx. rewrite andb_true_iff, !N.leb_le in Hx.
  unfold is_line_terminator.
  repeat match goal with
  | |- context [N.eqb x ?k] =>
      replace (N.eqb x k) with false by (symmetry; apply N.eqb_neq; lia)
  end.
  reflexivity.
Qed.

(** * The claims *)

(** ** The trace parser *)

(** C4. [parseStackTrace] returns on every input, and what it returns is
    the frames of the lines in their order; a line no recognizer matches
    contributes nothing; when no line is recognized the result is the
    empty sequence and [analyzeStackTrace] returns the "Could not parse"
    text, on any platform, instead of throwing.  That text is distinct:
    it is never the analysis of a trace with a recognized line. *)
Theorem parse_never_throws (text : str) :
  parseStackTrace text = Ok (flat_map frames_of_line (split_nl text)) /\
  (forall l, first_match l patterns = None -> frames_of_line l = []) /\
  ((forall l, In l (split_nl text) -> first_match l patterns = None) ->
   parseStackTrace text = Ok [] /\
   forall readFile path_join path_extname toLowerCase numberToString root,
     analyzeStackTrace readFile path_join path_extname toLowerCase
       numberToString text root = Ok could_not_parse) /\
  ((exists l, In l (split_nl text) /\ first_match l patterns <> None) ->
   forall readFile path_join path_extname toLowerCase numberToString root,
     exists report,
       analyzeStackTrace readFile path_join path_extname toLowerCase
         numberToString text root = Ok report /\
       report <> could_not_parse).
Proof.
  split; [apply parseStackTrace_ok|].
  split; [apply frames_of_line_none|].
  split.
  - intros Hnone.
    assert (E : flat_map frames_of_line (split_nl text) = []).
    { induction (split_nl text) as [|l ls IH]; [reflexivity|].
      simpl. rewrite frames_of_line_none by (apply Hnone; left; reflexivity).
      apply IH. intros l' Hin. apply Hnone. right. exact Hin. }
    split.
    + rewrite parseStackTrace_ok, E. reflexivity.
    + intros. unfold analyzeStackTrace.
      rewrite parseStackTrace_ok, E. reflexivity.
  - intros (l & Hin & Hm) readFile path_join path_extname toLowerCase
      numberToString root.
    unfold analyzeStackTrace. rewrite parseStackTrace_ok. cbn [bind].
    destruct (flat_map frames_of_line (split_nl text)) as [|f fs] eqn:E.
    + exfalso. destruct (first_match l patterns) as [[p m]|] eqn:El;
        [|congruence].
      destruct (frames_of_line_some l El) as (f & Hf & _).
      assert (Hf' : In f (flat_map frames_of_line (split_nl text))).
      { apply in_flat_map. exists l. split; [exact Hin|].
        rewrite Hf. left. reflexivity. }
      rewrite E in Hf'. exact Hf'.
    + eexists. split; [reflexivity|].
      intros Eq. apply (f_equal (@hd N 0%N)) in Eq. discriminate Eq.
Qed.

Lemma parse_never_throws_witness :
  parseStackTrace (lit "Something went wrong") = Ok [] /\
  Sample.analyze_trace [] (lit "Something went wrong") (lit "proj")
  = Ok could_not_parse.
Proof.
  pose proof (parse_never_throws (lit "Something went wrong")) as H.
  destruct H as (_ & _ & H & _).
  assert (Hn : forall l, In l (split_nl (lit "Something went wrong")) ->
               first_match l patterns = None).
  { intros l Hin. vm_compute in Hin. destruct Hin as [<-|[]].
    vm_compute. reflexivity. }
  destruct (H Hn) as [H1 H2].
  split; [exact H1|]. exact (H2 _ _ _ _ _ _).
Defined.

(** What [reads] says of a match leaves no choice: it holds of one
    frame only. *)
Lemma reads_one_frame p m l f f' :
  In p patterns -> reads p m l f -> reads p m l f' -> f = f'.
Proof.
  intros Hin
    (pre & path & mid & digits & post & _ & _ & _ & _ & _ & _ & _ & _ &
     Hfile & _ & Hline & _ & _ & Hcol & Hnocol & Hbare & _ & Hp & Hd & Hfun)
    (pre' & path' & mid' & digits' & post' & _ & _ & _ & _ & _ & _ & _ & _ &
     Hfile' & _ & Hline' & _ & _ & Hcol' & Hnocol' & Hbare' & _ & Hp' & Hd' &
     Hfun').
  rewrite Hp in Hp'. inversion Hp'; subst path'.
  rewrite Hd in Hd'. inversion Hd'; subst digits'.
  destruct f as [file fn ln col], f' as [file' fn' ln' col'].
  cbn [filename function line column] in *.
  assert (Efn : fn = fn').
  { simpl in Hin.
    destruct Hin as [<-|[<-|[<-|[<-|[<-|[<-|[<-|[]]]]]]]];
      first [ rewrite (Hbare eq_refl), (Hbare' eq_refl); reflexivity
            | rewrite Hfun, Hfun' by discriminate; reflexivity ]. }
  assert (Ecol : col = col').
  { simpl in Hin.
    destruct Hin as [<-|[<-|[<-|[<-|[<-|[<-|[<-|[]]]]]]]];
      first [ rewrite Hnocol, Hnocol' by discriminate; reflexivity
            | destruct (Hcol eq_refl) as (cd & q & _ & _ & _ & Hc & Hg);
              destruct (Hcol' eq_refl) as (cd' & q' & _ & _ & _ & Hc' & Hg');
              rewrite Hg in Hg'; inversion Hg'; subst cd';
              rewrite Hc, Hc'; reflexivity ]. }
  congruence.
Qed.

(** C5 (amended).  When a recognizer matches a line, [parse_line]
    yields exactly one frame, and that frame reads the line as [reads]
    says, from the groups of that very match: the file name is the
    final segment of the path the match captured and holds no
    separator, the function is the captured function text ([<unknown>]
    for the bare format), the column is there exactly for the format
    that carries one and is the value of the captured column, and the
    line number is the value of the captured line number, the complete
    run of digits at that place of the input, rounded to a double: the
    exact integer when that integer is at most [2^53].  No other frame
    reads the match so. *)
Theorem recognized_line_frame (l : str) (p : re) (m : list (option str)) :
  first_match l patterns = Some (p, m) ->
  exists f,
    parse_line l = Ok [f] /\
    parseStackTrace l = Ok (flat_map frames_of_line (split_nl l)) /\
    frames_of_line l = [f] /\
    reads p m l f /\
    forall f', reads p m l f' -> f' = f.
Proof.
  intros E. destruct (frames_of_line_some l E) as (f & Hf & Hr).
  exists f. split; [|split; [|split; [|split]]]; auto.
  - rewrite parse_line_ok, Hf. reflexivity.
  - apply parseStackTrace_ok.
  - intros f' Hr'. apply first_match_inv in E. destruct E as [Hin _].
    exact (reads_one_frame Hin Hr' Hr).
Qed.

Lemma recognized_line_frame_witness :
  exists f,
    parse_line (lit "    at handler (C:\srv\api\users.js:123:45)") = Ok [f] /\
    reads js_at
      [Some (lit "at handler (C:\srv\api\users.js:123:45)");
       Some (lit "handler"); Some (lit "C:\srv\api\users.js");
       Some (lit "123"); Some (lit "45")]
      (lit "    at handler (C:\srv\api\users.js:123:45)") f /\
    f = {| filename := lit "users.js"; function := Some (lit "handler");
           line := Some (Fin 123); column := Some (Fin 45) |}.
Proof.
  destruct (@recognized_line_frame
              (lit "    at handler (C:\srv\api\users.js:123:45)") js_at
              [Some (lit "at handler (C:\srv\api\users.js:123:45)");
               Some (lit "handler"); Some (lit "C:\srv\api\users.js");
               Some (lit "123"); Some (lit "45")])
    as (f & Hp & _ & _ & Hr & _).
  - vm_compute. reflexivity.
  - exists f. split; [exact Hp|]. split; [exact Hr|].
    vm_compute in Hp. inversion Hp. reflexivity.
Defined.

(** C5, as stated, fails beyond [2^53]: the frame of
    [lib/foo.rb:9007199254740993] has line 9007199254740992. *)
Lemma large_line_number_is_rounded :
  digits_value 10 (lit "9007199254740993") = 9007199254740993%Z /\
  parseStackTrace (lit "lib/foo.rb:9007199254740993")
  = Ok [{| filename := lit "foo.rb"; function := Some (lit "<unknown>");
           line := Some (Fin 9007199254740992); column := None |}] /\
  Fin 9007199254740992 <> Fin 9007199254740993.
Proof.
  split; [vm_compute; reflexivity|].
  split; [vm_compute; reflexivity|]. discriminate.
Qed.

(** C6 (amended).  The bare form is recognized for paths ending in
    [.rb] only: a line made of such a path, a colon and a line number,
    which neither Ruby form with a method matches, yields one frame with
    the final segment of the path, the line number (as a double) and the
    function [<unknown>]. *)
Theorem bare_ruby_frame (stem ds : str) :
  stem <> [] -> no_line_terminator stem ->
  ds <> [] -> all_digits ds ->
  str_match (stem ++ lit ".rb" ++ lit ":" ++ ds) ruby_from = None ->
  str_match (stem ++ lit ".rb" ++ lit ":" ++ ds) ruby_in = None ->
  parseStackTrace (stem ++ lit ".rb" ++ lit ":" ++ ds)
  = Ok [{| filename := last_segment (stem ++ lit ".rb");
           function := Some (lit "<unknown>");
           line := Some (round53 (digits_value 10 ds));
           column := None |}].
Proof.
  intros Hs Fs Hd Fd H1 H2.
  assert (Fp : no_line_terminator (stem ++ lit ".rb")).
  { apply no_line_terminator_app; [assumption|repeat constructor]. }
  unfold parseStackTrace. rewrite split_nl_one.
  - cbn [parse_lines]. unfold parse_line. cbn [patterns first_match].
    rewrite H1, H2, (ruby_bare_match Hs Fs Hd Fd).
    unfold frame_of_match. eval_includes. cbn [str_at num_at nth nth_error option_map].
    rewrite basename_last_segment by assumption.
    rewrite parseInt_digits by assumption. reflexivity.
  - apply no_line_terminator_no_nl.
    repeat apply no_line_terminator_app; try assumption.
    + repeat constructor.
    + repeat constructor.
    + apply all_digits_no_line_terminator. assumption.
Qed.

Lemma bare_ruby_frame_witness :
  parseStackTrace (lit "/srv/app/models/user.rb:42")
  = Ok [{| filename := lit "user.rb"; function := Some (lit "<unknown>");
           line := Some (Fin 42); column := None |}].
Proof.
  change (lit "/srv/app/models/user.rb:42")
    with (lit "/srv/app/models/user" ++ lit ".rb" ++ lit ":" ++ lit "42").
  rewrite (@bare_ruby_frame (lit "/srv/app/models/user") (lit "42")).
  - vm_compute. reflexivity.
  - discriminate.
  - vm_compute. repeat constructor.
  - discriminate.
  - vm_compute. repeat constructor.
  - vm_compute. reflexivity.
  - vm_compute. reflexivity.
Defined.

(** C6, as stated, fails for every extension of the allow-list other
    than [.rb]: such a bare line yields no frame. *)
Lemma bare_frame_other_extensions_unrecognized :
  Forall
    (fun ext => parseStackTrace (lit "src/app." ++ ext ++ lit ":12") = Ok [])
    (List.map lit ["ts"; "tsx"; "js"; "jsx"; "py"; "java"; "go"; "php";
                   "cs"; "cpp"; "c"; "h"; "erb"; "rake"]%string).
Proof.
  cbn [List.map].
  repeat (apply Forall_cons; [vm_compute; reflexivity|]).
  apply Forall_nil.
Qed.

(** ** The context extractor *)

Lemma loop_range_length a b : List.length (loop_range a b) = Z.to_nat (b - a).
Proof. unfold loop_range. rewrite length_map, length_seq. reflexivity. Qed.

Lemma loop_range_nth a b k :
  k < Z.to_nat (b - a) ->
  nth_error (loop_range a b) k = Some (a + Z.of_nat k)%Z.
Proof.
  intros Hk. unfold loop_range.
  rewrite nth_error_map, nth_error_seq.
  destruct (Nat.ltb_spec k (Z.to_nat (b - a))) as [_|Hge]; [reflexivity|lia].
Qed.

Lemma js_nth_in_range lines i :
  (0 <= i < Z.of_nat (List.length lines))%Z ->
  js_nth lines i = Some (nth (Z.to_nat i) lines []).
Proof.
  intros Hi. unfold js_nth.
  replace (i <? 0)%Z with false by (symmetry; apply Z.ltb_ge; lia).
  apply nth_error_nth'. lia.
Qed.

(** C3.  For a target line [t] (counted from 1) of a file and a radius
    [r >= 0], the window holds exactly the lines with indices from
    [lo = max(0, (t-1)-r)] up to, not including,
    [hi = min(lineCount, (t-1)+r+1)]: its [k]-th entry is line number
    [lo+k+1] with that line's own text, marked before, target or after.
    Hence it is not empty, its first and last line numbers [lo+1] and
    [hi] satisfy [1 <= lo+1 <= t <= hi <= lineCount], and away from both
    ends of the file its length is [min(lineCount, 2r+1)]. *)
Theorem context_window (lines : list str) (t r : Z) :
  (1 <= t <= Z.of_nat (List.length lines))%Z ->
  (0 <= r)%Z ->
  let lineCount := Z.of_nat (List.length lines) in
  let lo := Z.max 0 (t - 1 - r) in
  let hi := Z.min lineCount (t - 1 + r + 1) in
  let window := getContextLines lines (t - 1) r in
  Z.of_nat (List.length window) = (hi - lo)%Z /\
  (forall k, k < List.length window ->
     nth_error window k
     = Some {| lineNumber := lo + Z.of_nat k + 1;
               content := Some (nth (Z.to_nat lo + k) lines []);
               context := if (lo + Z.of_nat k <? t - 1)%Z then before
                          else if (lo + Z.of_nat k =? t - 1)%Z then target
                          else after |}) /\
  (1 <= lo + 1 <= t)%Z /\ (t <= hi <= lineCount)%Z /\
  option_map lineNumber (hd_error window) = Some (lo + 1)%Z /\
  option_map lineNumber (nth_error window (List.length window - 1)) = Some hi /\
  ((r <= t - 1)%Z -> (t + r <= lineCount)%Z ->
   Z.of_nat (List.length window) = Z.min lineCount (2 * r + 1)).
Proof.
  intros Ht Hr lineCount lo hi window.
  assert (Hlen : List.length window = Z.to_nat (hi - lo)).
  { unfold window, getContextLines. rewrite length_map, loop_range_length.
    reflexivity. }
  assert (Hlohi : (0 <= lo /\ lo <= t - 1 /\ t <= hi /\ hi <= lineCount)%Z).
  { unfold lo, hi, lineCount. lia. }
  assert (Hnth : forall k, k < List.length window ->
     nth_error window k
     = Some {| lineNumber := lo + Z.of_nat k + 1;
               content := Some (nth (Z.to_nat lo + k) lines []);
               context := if (lo + Z.of_nat k <? t - 1)%Z then before
                          else if (lo + Z.of_nat k =? t - 1)%Z then target
                          else after |}).
  { intros k Hk. unfold window, getContextLines.
    fold lo. fold lineCount. fold hi.
    rewrite nth_error_map, loop_range_nth by lia. simpl.
    rewrite js_nth_in_range by (fold lineCount; lia).
    replace (Z.to_nat (lo + Z.of_nat k)) with (Z.to_nat lo + k) by lia.
    reflexivity. }
  split; [lia|]. split; [exact Hnth|].
  split; [lia|]. split; [lia|].
  split; [|split].
  - assert (H0 : 0 < List.length window) by lia.
    specialize (Hnth 0 H0). destruct window as [|cl w]; [simpl in H0; lia|].
    simpl in Hnth. inversion Hnth. simpl. f_equal. lia.
  - rewrite Hnth by lia. simpl. f_equal. lia.
  - intros H1 H2. unfold lo, hi, lineCount in *. lia.
Qed.

Lemma context_window_witness :
  List.map lineNumber
    (getContextLines (split_nl (Sample.numbered_lines 10)) (5 - 1) 3)
  = [2; 3; 4; 5; 6; 7; 8]%Z /\
  Z.of_nat (List.length
    (getContextLines (split_nl (Sample.numbered_lines 10)) (5 - 1) 3))
  = Z.min 10 (2 * 3 + 1).
Proof.
  split; [vm_compute; reflexivity|].
  pose proof (@context_window (split_nl (Sample.numbered_lines 10)) 5 3) as H.
  destruct H as (_ & _ & _ & _ & _ & _ & H).
  - vm_compute. split; discriminate.
  - lia.
  - apply H.
    + lia.
    + vm_compute. discriminate.
Defined.

Ltac inv_matches_all :=
  repeat (inv_matches;
          match goal with
          | H : matches (Opt _) _ _ _ _ |- _ => inversion H; subst; clear H
          | H : matches (Alt _ _) _ _ _ _ |- _ => inversion H; subst; clear H
          end);
  inv_matches.

Ltac name_of P H :=
  apply str_match_inv in H;
  let pre := fresh "pre" in
  let w := fresh "w" in
  let post := fresh "post" in
  let c' := fresh "c'" in
  let M := fresh "M" in
  destruct H as (pre & w & post & c' & _ & M & -> & _);
  expose P M; inv_matches_all;
  (eexists; split; [reflexivity|]);
  first [assumption | apply app_not_nil_l; assumption].

(** A declaration recognizer that matches captures a non-empty name. *)
Lemma decl_pattern_name l p m :
  In p DeclPatterns.patterns ->
  str_match l p = Some m ->
  exists name, str_at m 1 = Some name /\ name <> [].
Proof.
  intros Hin H. simpl in Hin.
  destruct Hin as [<-|[<-|[<-|[<-|[<-|[<-|[<-|[<-|[<-|[<-|[<-|[]]]]]]]]]]]].
  - name_of DeclPatterns.ruby_def H.
  - name_of DeclPatterns.ruby_def_self H.
  - name_of DeclPatterns.ruby_lambda H.
  - name_of DeclPatterns.ruby_stabby H.
  - name_of DeclPatterns.js_function H.
  - name_of DeclPatterns.js_property H.
  - name_of DeclPatterns.js_method H.
  - name_of DeclPatterns.js_const_arrow H.
  - name_of DeclPatterns.js_arrow H.
  - name_of DeclPatterns.python_def H.
  - name_of DeclPatterns.java_method H.
Qed.

Lemma declared_name_some l x :
  declared_name l = Some x -> exists name, x = Some name /\ name <> [].
Proof.
  unfold declared_name.
  destruct (first_match l DeclPatterns.patterns) as [[p m]|] eqn:E; [|discriminate].
  intros H. inversion H; subst; clear H.
  apply first_match_inv in E. destruct E as [Hin Hm].
  apply (@decl_pattern_name l p m Hin Hm).
Qed.

(** The declaration found on line [i] of a file, if any. *)
Definition declared_at (lines : list str) (i : nat) : option (option str) :=
  match nth_error lines i with
  | Some l => declared_name (trim l)
  | None => None
  end.

Lemma scan_back_spec lines :
  forall i, i < List.length lines ->
  (exists j name,
      j <= i /\ declared_at lines j = Some name /\
      (forall j', j < j' <= i -> declared_at lines j' = None) /\
      scan_back lines i = Ok name) \/
  ((forall j, j <= i -> declared_at lines j = None) /\
   scan_back lines i = Ok None).
Proof.
  assert (Hstep : forall i l,
            nth_error lines i = Some l ->
            scan_back lines i
            = match declared_name (trim l) with
              | Some name => Ok name
              | None => match i with
                        | O => Ok None
                        | S i' => scan_back lines i'
                        end
              end).
  { intros i l E. destruct i; cbn [scan_back]; rewrite E; reflexivity. }
  induction i as [|i IH]; intros Hi.
  - destruct (nth_error lines 0) as [l|] eqn:El;
      [|apply nth_error_None in El; lia].
    rewrite (Hstep 0 l El).
    destruct (declared_name (trim l)) as [name|] eqn:Ed.
    + left. exists 0, name.
      split; [lia|]. split; [unfold declared_at; rewrite El; exact Ed|].
      split; [intros j' Hj'; lia|reflexivity].
    + right. split; [|reflexivity]. intros j Hj.
      replace j with 0 by lia. unfold declared_at. rewrite El. exact Ed.
  - destruct (nth_error lines (S i)) as [l|] eqn:El;
      [|apply nth_error_None in El; lia].
    rewrite (Hstep (S i) l El).
    destruct (declared_name (trim l)) as [name|] eqn:Ed.
    + left. exists (S i), name.
      split; [lia|]. split; [unfold declared_at; rewrite El; exact Ed|].
      split; [intros j' Hj'; lia|reflexivity].
    + assert (Hs : declared_at lines (S i) = None).
      { unfold declared_at. rewrite El. exact Ed. }
      destruct IH as [(j & name & Hj & Hd & Hn & Hr)|[Hn Hr]]; [lia| |].
      * left. exists j, name.
        split; [lia|]. split; [exact Hd|]. split; [|exact Hr].
        intros j' Hj'. destruct (Nat.eq_dec j' (S i)) as [->|Hne]; auto.
        apply Hn. lia.
      * right. split; [|exact Hr]. intros j Hj.
        destruct (Nat.eq_dec j (S i)) as [->|Hne]; auto. apply Hn. lia.
Qed.

(** C7 (amended).  For a target index inside the file the scan returns
    a result and never throws.  It goes backward from the target line
    itself down to index 0 and returns the name captured on the first
    line, in that order, which a declaration recognizer matches, a
    non-empty name; if no line from the target up to the top matches it
    returns [null].  In particular, for a target at index 0 the result
    is decided by line 0 alone: its declared name when it matches a
    recognizer, [null] when it does not. *)
Theorem containing_function (lines : list str) (t : nat) :
  t < List.length lines ->
  ((exists j name,
       j <= t /\ declared_at lines j = Some (Some name) /\ name <> [] /\
       (forall j', j < j' <= t -> declared_at lines j' = None) /\
       findContainingFunction lines (Z.of_nat t) = Ok (Some name)) \/
   ((forall j, j <= t -> declared_at lines j = None) /\
    findContainingFunction lines (Z.of_nat t) = Ok None)) /\
  (t = 0 ->
   findContainingFunction lines 0
   = Ok (match declared_at lines 0 with
         | Some name => name
         | None => None
         end)).
Proof.
  intros Ht. unfold findContainingFunction.
  replace (Z.of_nat t <? 0)%Z with false by (symmetry; apply Z.ltb_ge; lia).
  rewrite Nat2Z.id. split.
  - destruct (scan_back_spec lines Ht) as [(j & x & Hj & Hd & Hn & Hr)|[Hn Hr]].
    + left. unfold declared_at in Hd.
      destruct (nth_error lines j) as [l|] eqn:El; [|discriminate].
      destruct (declared_name_some _ Hd) as (name & -> & Hne).
      exists j, name. unfold declared_at at 1. rewrite El. auto.
    + right. auto.
  - intros ->. change (Z.to_nat 0) with 0. change (0 <? 0)%Z with false.
    cbn [scan_back]. unfold declared_at.
    destruct (nth_error lines 0) as [l|] eqn:El.
    + destruct (declared_name (trim l)); reflexivity.
    + apply nth_error_None in El. lia.
Qed.

Lemma containing_function_witness :
  findContainingFunction
    (split_nl (lit "class User
  def full_name
    first + last
  end")) 2
  = Ok (Some (lit "full_name")).
Proof.
  pose proof (@containing_function
    (split_nl (lit "class User
  def full_name
    first + last
  end")) 2) as H.
  change (Z.of_nat 2) with 2%Z in H.
  destruct H as [[(j & name & _ & _ & _ & _ & H)|[_ H]] _].
  - vm_compute. lia.
  - rewrite H. vm_compute in H. inversion H. reflexivity.
  - rewrite H. vm_compute in H. discriminate H.
Defined.

(** C7, as stated, fails at index 0: the scan starts on the target line
    itself, so a declaration on the first line is found. *)
Lemma declaration_on_first_line_is_found :
  findContainingFunction (split_nl (lit "def first_method
  body")) 0
  = Ok (Some (lit "first_method")).
Proof. vm_compute. reflexivity. Qed.

(** ** Symbol and import extraction ends *)

(** Whether a pattern can match the empty text. *)
Fixpoint nullable (r : re) : bool :=
  match r with
  | Eps | Bol => true
  | Chr _ | Cls _ => false
  | Seq r1 r2 => nullable r1 && nullable r2
  | Alt r1 r2 => nullable r1 || nullable r2
  | Star _ _ | Opt _ => true
  | Plus _ r1 | Group _ r1 | NGroup r1 => nullable r1
  end.

Lemma matches_not_empty r p w c c' :
  matches r p w c c' -> nullable r = false -> w <> [].
Proof.
  induction 1; simpl; intros Hn; try discriminate.
  - apply andb_false_iff in Hn. destruct Hn as [Hn|Hn].
    + apply app_not_nil_l. auto.
    + specialize (IHmatches2 Hn). destruct w1; simpl; [assumption|discriminate].
  - apply orb_false_iff in Hn. tauto.
  - apply orb_false_iff in Hn. tauto.
  - apply app_not_nil_l. auto.
  - auto.
  - auto.
Qed.

Lemma exec_all_ok r :
  nullable r = false ->
  forall fuel p s,
    List.length s <= fuel -> exists found, exec_all fuel r p s = Ok found.
Proof.
  intros Hn. induction fuel as [|f IH]; intros p s Hf;
    cbn [exec_all];
    (destruct (search r p s) as [[start res]|] eqn:E; [|eexists; reflexivity]);
    pose proof (search_sound _ _ _ E) as (pre & s0 & Es & -> & R);
    pose proof (rmatch_sound _ _ _ _ R) as (w & s' & c' & E1 & M & K);
    unfold accept in K; inversion K; subst res; clear K;
    pose proof (matches_not_empty M Hn) as Hw;
    cbn [fst pos rest] in *;
    (replace (Nat.eqb (p + List.length pre + List.length w)
                      (p + List.length pre)) with false
       by (symmetry; apply Nat.eqb_neq; destruct w; simpl; [congruence|lia])).
  - exfalso. subst s. simpl in E1. subst s0.
    rewrite !length_app in Hf. destruct w; simpl in Hf; [congruence|lia].
  - destruct (IH (p + List.length pre + List.length w) s') as [found ->].
    + subst s. simpl in E1. subst s0. rewrite !length_app in Hf.
      destruct w; simpl in Hf; [congruence|lia].
    + eexists. reflexivity.
Qed.

Lemma extract_line_ok ps l :
  Forall (fun r => nullable r = false) ps ->
  exists found, extract_line ps l = Ok found.
Proof.
  induction 1 as [|r ps Hr F IH]; simpl; [eexists; reflexivity|].
  destruct (@exec_all_ok r Hr (List.length l) 0 l (le_n _)) as [f1 ->].
  destruct IH as [f2 ->]. simpl. eexists. reflexivity.
Qed.

Lemma extract_lines_ok ps ls :
  Forall (fun r => nullable r = false) ps ->
  exists found, extract_lines ps ls = Ok found.
Proof.
  intros F. induction ls as [|l ls IH]; simpl; [eexists; reflexivity|].
  destruct (@extract_line_ok ps (trim l) F) as [f1 ->].
  destruct IH as [f2 ->]. simpl. eexists. reflexivity.
Qed.

Lemma extractFunctions_ok text : exists fns, extractFunctions text = Ok fns.
Proof.
  unfold extractFunctions.
  destruct (@extract_lines_ok DeclPatterns.extract_patterns (split_nl text))
    as [found ->].
  - repeat constructor.
  - simpl. eexists. reflexivity.
Qed.

Lemma extractImports_ok text : exists imps, extractImports text = Ok imps.
Proof.
  unfold extractImports.
  destruct (@extract_lines_ok ImportPatterns.patterns (split_nl text))
    as [found ->].
  - repeat constructor.
  - simpl. eexists. reflexivity.
Qed.

(** ** Lines of a text *)

Lemma split_nl_not_nil s : split_nl s <> [].
Proof.
  destruct s as [|x xs]; simpl; [discriminate|].
  destruct (N.eqb x NL); [discriminate|].
  destruct (split_nl xs); discriminate.
Qed.

Lemma split_nl_length s : List.length (split_nl s) = count_nl s + 1.
Proof.
  induction s as [|x xs IH]; [reflexivity|].
  unfold count_nl in *. cbn [split_nl filter]. rewrite (N.eqb_sym NL x).
  destruct (N.eqb x NL); cbn [List.length].
  - rewrite IH. reflexivity.
  - pose proof (split_nl_not_nil xs).
    destruct (split_nl xs); [congruence|]. cbn [List.length] in *. exact IH.
Qed.

Lemma split_nl_app_nl s : split_nl (s ++ [NL]) = split_nl s ++ [[]].
Proof.
  induction s as [|x xs IH]; [reflexivity|].
  cbn [app split_nl]. destruct (N.eqb x NL).
  - rewrite IH. reflexivity.
  - rewrite IH. pose proof (split_nl_not_nil xs).
    destruct (split_nl xs); [congruence|]. reflexivity.
Qed.

(** ** The analyzer on any platform *)

(** The lines of [text] include line number [n]. *)
Definition holds_line (text : str) (n : Z) : bool :=
  (1 <=? n)%Z && (n <=? Z.of_nat (List.length (split_nl text)))%Z.

Section PlatformFacts.

Variable readFile : str -> option str.
Variable path_join : list str -> str.
Variable path_extname : str -> str.
Variable toLowerCase : str -> str.
Variable numberToString : number -> str.
Variable glob : list str -> str -> outcome (list str).
Variable ignores : str -> str -> bool.

Local Abbreviation frame_report' :=
  (frame_report path_extname toLowerCase numberToString).
Local Abbreviation try_candidate' :=
  (try_candidate readFile path_extname toLowerCase numberToString).
Local Abbreviation try_paths' :=
  (try_paths readFile path_extname toLowerCase numberToString).
Local Abbreviation analyze_frame' :=
  (analyzeFileForStackFrame readFile path_join path_extname toLowerCase
     numberToString).
Local Abbreviation code_context' :=
  (code_context readFile path_join path_extname toLowerCase numberToString).

(** The report on a frame whose line [n] lies in the file at [p]. *)
Definition report_on (frame : StackTraceFrame) (n : Z) (p : str) : str :=
  match readFile p with
  | Some text =>
      match frame_report' frame (split_nl text) (n - 1) with
      | Ok a => a
      | _ => []
      end
  | None => []
  end.

(** A candidate the analysis can report on: readable, and holding the
    line. *)
Definition usable (n : Z) (p : str) : bool :=
  match readFile p with
  | Some text => holds_line text n
  | None => false
  end.

Lemma frame_report_ok frame lines t :
  (0 <= t < Z.of_nat (List.length lines))%Z ->
  exists a, frame_report' frame lines t = Ok a.
Proof.
  intros Ht. unfold frame_report, findContainingFunction.
  replace (t <? 0)%Z with false by (symmetry; apply Z.ltb_ge; lia).
  assert (Hi : Z.to_nat t < List.length lines) by lia.
  destruct (scan_back_spec lines Hi) as [(j & x & _ & _ & _ & ->)|[_ ->]];
    cbn [bind].
  - destruct x as [[|c s]|]; eexists; reflexivity.
  - eexists. reflexivity.
Qed.

Lemma frame_report_not_empty frame lines t a :
  frame_report' frame lines t = Ok a -> a <> [].
Proof.
  unfold frame_report.
  destruct (findContainingFunction lines t) as [x| |]; cbn [bind];
    try discriminate.
  destruct x as [[|c s]|]; intros H; inversion H; discriminate.
Qed.

Lemma try_candidate_unreadable frame p :
  readFile p = None -> try_candidate' frame p = Throw IOError.
Proof. intros E. unfold try_candidate. rewrite E. reflexivity. Qed.

Lemma try_candidate_in_range frame n p text :
  line frame = Some (Fin n) ->
  readFile p = Some text ->
  (Z.of_nat (List.length (split_nl text)) <= MAX_ARRAY_LENGTH)%Z ->
  holds_line text n = true ->
  try_candidate' frame p = Ok (Some (report_on frame n p)) /\
  report_on frame n p <> [].
Proof.
  intros Hl E Hb Hh. unfold holds_line in Hh.
  apply andb_true_iff in Hh. destruct Hh as [H1 H2].
  apply Z.leb_le in H1, H2.
  destruct (@index_in_range n (Z.of_nat (List.length (split_nl text))))
    as [Ep Eg]; [lia|lia|].
  unfold try_candidate, report_on, target_index. rewrite E, Hl, Eg, Ep.
  destruct (@frame_report_ok frame (split_nl text) (n - 1)) as [a Ea]; [lia|].
  rewrite Ea. cbn [bind]. split; [reflexivity|].
  apply (@frame_report_not_empty frame (split_nl text) (n - 1) a Ea).
Qed.

Lemma try_candidate_out_of_range frame n p text :
  line frame = Some (Fin n) ->
  readFile p = Some text ->
  (Z.of_nat (List.length (split_nl text)) <= MAX_ARRAY_LENGTH)%Z ->
  holds_line text n = false ->
  try_candidate' frame p = Ok None.
Proof.
  intros Hl E Hb Hh. unfold holds_line in Hh.
  apply andb_false_iff in Hh.
  assert (Ho : (n < 1 \/ Z.of_nat (List.length (split_nl text)) < n)%Z).
  { destruct Hh as [H|H]; [left; apply Z.leb_gt in H | right; apply Z.leb_gt in H];
      lia. }
  unfold try_candidate, target_index. rewrite E, Hl.
  rewrite (@index_out_of_range n (Z.of_nat (List.length (split_nl text))));
    [reflexivity|lia|exact Ho].
Qed.

(** Every readable candidate is an array of lines. *)
Definition lines_bounded (paths : list str) : Prop :=
  forall p text,
    In p paths -> readFile p = Some text ->
    (Z.of_nat (List.length (split_nl text)) <= MAX_ARRAY_LENGTH)%Z.

Lemma try_paths_skip frame n p paths :
  line frame = Some (Fin n) ->
  lines_bounded (p :: paths) ->
  usable n p = false ->
  try_paths' frame (p :: paths) = try_paths' frame paths.
Proof.
  intros Hl Hb Hu. cbn [try_paths]. unfold usable in Hu.
  destruct (readFile p) as [text|] eqn:E.
  - rewrite (@try_candidate_out_of_range frame n p text Hl E); auto.
    apply (Hb p text); [left; reflexivity|exact E].
  - rewrite try_candidate_unreadable by exact E. reflexivity.
Qed.

Lemma try_paths_take frame n p paths :
  line frame = Some (Fin n) ->
  lines_bounded (p :: paths) ->
  usable n p = true ->
  try_paths' frame (p :: paths) = report_on frame n p.
Proof.
  intros Hl Hb Hu. cbn [try_paths]. unfold usable in Hu.
  destruct (readFile p) as [text|] eqn:E; [|discriminate].
  destruct (@try_candidate_in_range frame n p text Hl E) as [-> _]; auto.
  apply (Hb p text); [left; reflexivity|exact E].
Qed.

(** The loop over the candidates reports on the first usable one. *)
Lemma try_paths_find frame n paths :
  line frame = Some (Fin n) ->
  lines_bounded paths ->
  try_paths' frame paths
  = match find (usable n) paths with
    | Some p => report_on frame n p
    | None => file_not_found frame
    end.
Proof.
  intros Hl. induction paths as [|p paths IH]; intros Hb; [reflexivity|].
  cbn [find]. destruct (usable n p) eqn:Hu.
  - apply try_paths_take; assumption.
  - rewrite (@try_paths_skip frame n p paths Hl Hb Hu). apply IH.
    intros q text Hq. apply Hb. right. exact Hq.
Qed.

Lemma try_paths_not_empty frame paths : try_paths' frame paths <> [].
Proof.
  induction paths as [|p paths IH]; cbn [try_paths].
  - unfold file_not_found. discriminate.
  - destruct (try_candidate' frame p) as [[a|]| |] eqn:E; auto.
    unfold try_candidate in E.
    destruct (readFile p); [|discriminate].
    destruct (_ && _); [|discriminate].
    destruct (target_index frame); try discriminate.
    destruct (frame_report' frame (split_nl s) z) as [b| |] eqn:Eb;
      cbn [bind] in E; try discriminate.
    inversion E; subst. apply (@frame_report_not_empty _ _ _ _ Eb).
Qed.

Lemma analyze_frame_not_empty frame root : analyze_frame' frame root <> [].
Proof. unfold analyzeFileForStackFrame. apply try_paths_not_empty. Qed.

(** Each of the frames analysed contributes its own report, followed by
    a newline, whatever the other frames are. *)
Lemma code_context_each root frames :
  code_context' root frames
  = flat_map (fun f => analyze_frame' f root ++ [NL]) frames.
Proof.
  induction frames as [|f frames IH]; [reflexivity|].
  cbn [code_context flat_map].
  pose proof (analyze_frame_not_empty f root) as Hne.
  destruct (analyze_frame' f root) as [|c s]; [congruence|].
  rewrite IH, <- app_assoc. reflexivity.
Qed.

(** [analyzeFile] returns: the record of a readable file, [null]
    otherwise. *)
Lemma analyzeFile_ok filePath :
  exists r,
    analyzeFile readFile filePath = Ok r /\
    match readFile filePath with
    | Some text =>
        exists a, r = Some a /\ path a = filePath /\ fileContent a = text /\
                  lineCount a = List.length (split_nl text)
    | None => r = None
    end.
Proof.
  unfold analyzeFile. destruct (readFile filePath) as [text|].
  - destruct (extractFunctions_ok text) as [fns ->].
    destruct (extractImports_ok text) as [imps ->]. cbn [bind].
    eexists. split; [reflexivity|]. eexists. repeat split.
  - exists None. auto.
Qed.

Definition readable (p : str) : bool :=
  match readFile p with
  | Some _ => true
  | None => false
  end.

Lemma analyze_files_ok root files :
  forall acc,
  exists analyses,
    analyze_files readFile path_join root acc files = Ok (acc ++ analyses) /\
    List.map path analyses
    = List.filter readable (List.map (fun f => path_join [root; f]) files) /\
    Forall (fun a => readFile (path a) = Some (fileContent a) /\
                     lineCount a = List.length (split_nl (fileContent a)))
           analyses.
Proof.
  induction files as [|f files IH]; intros acc.
  - exists []. rewrite app_nil_r. repeat split. constructor.
  - cbn [analyze_files List.map List.filter].
    destruct (analyzeFile_ok (path_join [root; f])) as (r & -> & Hr).
    unfold readable at 1.
    destruct (readFile (path_join [root; f])) as [text|] eqn:E.
    + destruct Hr as (a & -> & Hp & Hc & Hn).
      destruct (IH (acc ++ [a])) as (analyses & -> & Hm & Hf).
      exists (a :: analyses). rewrite <- app_assoc. split; [reflexivity|].
      split.
      * cbn [List.map]. rewrite Hp, Hm. reflexivity.
      * constructor; [|exact Hf]. rewrite Hp, Hc, E. auto.
    + subst r. destruct (IH acc) as (analyses & -> & Hm & Hf).
      exists analyses. auto.
Qed.

End PlatformFacts.

(** ** Sample trees *)

Module Tree.

(** [proj/a.rb] has one line, [proj/src/a.rb] has ten. *)
Definition shadowed : list (str * str) :=
  [(lit "proj/a.rb", lit "only line");
   (lit "proj/src/a.rb", Sample.numbered_lines 10)].

(** [proj/a.rb] has two lines and no other candidate exists. *)
Definition short : list (str * str) :=
  [(lit "proj/a.rb", lit "one" ++ [NL] ++ lit "two")].

(** A file that ends with a newline. *)
Definition newline_ended : list (str * str) :=
  [(lit "proj/b.rb", lit "first" ++ [NL] ++ lit "second" ++ [NL])].

Definition frame_a (n : Z) : StackTraceFrame :=
  {| filename := lit "a.rb"; function := Some (lit "run");
     line := Some (Fin n); column := None |}.

Definition frame_b (n : Z) : StackTraceFrame :=
  {| filename := lit "b.rb"; function := Some (lit "run");
     line := Some (Fin n); column := None |}.

(** Scenario C of the specification: the enumeration lists 120 files,
    first the 30 files [vendor/g1.rb] ... [vendor/g30.rb], then the 90
    files [f1.rb] ... [f90.rb]; all of them can be read, and the ignore
    file excludes what lies under [vendor/]. *)
Definition numbered (dir : string) (count : nat) : list str :=
  List.map (fun k => lit dir ++ Sample.decimal (Fin (Z.of_nat k)) ++ lit ".rb")
           (seq 1 count).

Definition listing : list str :=
  numbered "vendor/g" 30 ++ numbered "f" 90.

Definition big : list (str * str) :=
  (lit "proj/.gitignore", lit "vendor/") ::
  List.map (fun p => (p, lit "def m" ++ [NL] ++ lit "end"))
           (numbered "proj/vendor/g" 30 ++ numbered "proj/f" 90).

End Tree.

(** ** Resolution of a frame *)

Lemma lines_bounded_assoc files paths :
  Forall (fun kv => (Z.of_nat (List.length (split_nl (snd kv)))
                     <= MAX_ARRAY_LENGTH)%Z) files ->
  lines_bounded (Sample.read_from files) paths.
Proof.
  intros F p text _. unfold Sample.read_from.
  induction F as [|[k v] files Hkv F IH]; simpl; [discriminate|].
  destruct (str_eqb p k); [|exact IH].
  intros E. inversion E; subst. exact Hkv.
Qed.

(** C2 (amended).  The candidates are [root/name], [root/src/name] and
    [root/app/name], tried in that order, and the analysis reports on
    the first of them that can be read and whose file holds the frame's
    line.  When there is none, the result is the "File not found" text
    and nothing is thrown; in both cases the frames that follow are
    analysed as they would be on their own. *)
Theorem resolution_order
    (readFile : str -> option str) (path_join : list str -> str)
    (path_extname toLowerCase : str -> str) (numberToString : number -> str)
    (frame : StackTraceFrame) (root : str) (n : Z) :
  line frame = Some (Fin n) ->
  lines_bounded readFile (possiblePaths path_join frame root) ->
  possiblePaths path_join frame root
  = [path_join [root; filename frame];
     path_join [root; lit "src"; filename frame];
     path_join [root; lit "app"; filename frame]] /\
  analyzeFileForStackFrame readFile path_join path_extname toLowerCase
    numberToString frame root
  = match find (usable readFile n) (possiblePaths path_join frame root) with
    | Some p =>
        report_on readFile path_extname toLowerCase numberToString frame n p
    | None => file_not_found frame
    end /\
  (find (usable readFile n) (possiblePaths path_join frame root) = None <->
   forall p, In p (possiblePaths path_join frame root) ->
     readFile p = None \/
     exists text, readFile p = Some text /\ holds_line text n = false) /\
  forall others,
    code_context readFile path_join path_extname toLowerCase numberToString
      root (frame :: others)
    = analyzeFileForStackFrame readFile path_join path_extname toLowerCase
        numberToString frame root ++ [NL] ++
      code_context readFile path_join path_extname toLowerCase numberToString
        root others.
Proof.
  intros Hl Hb. split; [reflexivity|]. split; [|split].
  - unfold analyzeFileForStackFrame. apply try_paths_find; assumption.
  - split.
    + intros Hf p Hin. pose proof (find_none _ _ Hf p Hin) as Hu.
      unfold usable in Hu. destruct (readFile p) as [text|]; [right|left]; eauto.
    + intros Hall.
      destruct (find (usable readFile n) (possiblePaths path_join frame root))
        as [p|] eqn:E; [|reflexivity].
      apply find_some in E. destruct E as [Hin Hu]. unfold usable in Hu.
      destruct (Hall p Hin) as [Hr|(text & Hr & Hh)]; rewrite Hr in Hu;
        congruence.
  - intros others. rewrite !code_context_each. cbn [flat_map].
    rewrite <- app_assoc. reflexivity.
Qed.

Lemma resolution_order_witness :
  find (usable (Sample.read_from Tree.shadowed) 5)
       (possiblePaths Sample.join_with_slash (Tree.frame_a 5) (lit "proj"))
  = Some (lit "proj/src/a.rb") /\
  Sample.analyze_frame Tree.shadowed (Tree.frame_a 5) (lit "proj")
  = report_on (Sample.read_from Tree.shadowed) Sample.extname
      Sample.ascii_lower Sample.decimal (Tree.frame_a 5) 5
      (lit "proj/src/a.rb").
Proof.
  split; [vm_compute; reflexivity|].
  pose proof (@resolution_order (Sample.read_from Tree.shadowed)
                Sample.join_with_slash Sample.extname Sample.ascii_lower
                Sample.decimal (Tree.frame_a 5) (lit "proj") 5) as H.
  destruct H as (_ & H & _).
  - reflexivity.
  - apply lines_bounded_assoc. repeat constructor; vm_compute; discriminate.
  - unfold Sample.analyze_frame. rewrite H.
    replace (find (usable (Sample.read_from Tree.shadowed) 5)
               (possiblePaths Sample.join_with_slash (Tree.frame_a 5) (lit "proj")))
      with (Some (lit "proj/src/a.rb")) by (vm_compute; reflexivity).
    reflexivity.
Defined.

(** C2, as stated, fails: [proj/a.rb] exists and is readable, yet a frame
    for line 5 of [a.rb] is reported from [proj/src/a.rb], because the
    first candidate has a single line. *)
Lemma first_readable_candidate_passed_over :
  Sample.read_from Tree.shadowed (lit "proj/a.rb") = Some (lit "only line") /\
  Sample.analyze_frame Tree.shadowed (Tree.frame_a 5) (lit "proj")
  = lit "### " ++ PAGE ++ lit " `a.rb` (Line 5)" ++ [NL; NL] ++
    lit "```ruby" ++ [NL] ++
    lit "  2: line 2" ++ [NL] ++
    lit "  3: line 3" ++ [NL] ++
    lit "  4: line 4" ++ [NL] ++
    ARROW ++ lit " 5: line 5" ++ [NL] ++
    lit "  6: line 6" ++ [NL] ++
    lit "  7: line 7" ++ [NL] ++
    lit "  8: line 8" ++ [NL] ++
    lit "```" ++ [NL].
Proof. split; vm_compute; reflexivity. Qed.

(** C9.  A candidate that exists and can be read is passed over when
    the frame's line number lies outside [1 .. lineCount] of its file,
    and the candidates after it are tried; so the candidate the analysis
    reports on always holds the frame's line, and when [root/name]
    exists without holding the line while [root/src/name] holds it, the
    report is on [root/src/name]. *)
Theorem out_of_range_candidate_skipped
    (readFile : str -> option str) (path_join : list str -> str)
    (path_extname toLowerCase : str -> str) (numberToString : number -> str)
    (frame : StackTraceFrame) (root : str) (n : Z) :
  line frame = Some (Fin n) ->
  lines_bounded readFile (possiblePaths path_join frame root) ->
  (forall passed p later text,
     possiblePaths path_join frame root = passed ++ p :: later ->
     Forall (fun q => usable readFile n q = false) passed ->
     readFile p = Some text ->
     (n < 1 \/ Z.of_nat (List.length (split_nl text)) < n)%Z ->
     analyzeFileForStackFrame readFile path_join path_extname toLowerCase
       numberToString frame root
     = try_paths readFile path_extname toLowerCase numberToString frame later) /\
  (forall p,
     find (usable readFile n) (possiblePaths path_join frame root) = Some p ->
     exists text,
       readFile p = Some text /\
       (1 <= n <= Z.of_nat (List.length (split_nl text)))%Z /\
       analyzeFileForStackFrame readFile path_join path_extname toLowerCase
         numberToString frame root
       = report_on readFile path_extname toLowerCase numberToString frame n p /\
       frame_report path_extname toLowerCase numberToString frame
         (split_nl text) (n - 1)
       = Ok (report_on readFile path_extname toLowerCase numberToString
               frame n p)) /\
  (forall text,
     readFile (path_join [root; filename frame]) = Some text ->
     holds_line text n = false ->
     usable readFile n (path_join [root; lit "src"; filename frame]) = true ->
     analyzeFileForStackFrame readFile path_join path_extname toLowerCase
       numberToString frame root
     = report_on readFile path_extname toLowerCase numberToString frame n
         (path_join [root; lit "src"; filename frame])).
Proof.
  intros Hl Hb.
  assert (Hfind := @try_paths_find readFile path_extname toLowerCase
                     numberToString frame n
                     (possiblePaths path_join frame root) Hl Hb).
  split; [|split].
  - intros passed p later text Ep Hpassed Er Hout.
    unfold analyzeFileForStackFrame. rewrite Ep in Hb |- *. clear Hfind Ep.
    induction Hpassed as [|q passed Hq F IH]; cbn [app].
    + apply (@try_paths_skip readFile path_extname toLowerCase numberToString
               frame n p later Hl Hb).
      unfold usable, holds_line. rewrite Er.
      destruct Hout as [H|H].
      * replace (1 <=? n)%Z with false by (symmetry; apply Z.leb_gt; lia).
        reflexivity.
      * replace (n <=? Z.of_nat (List.length (split_nl text)))%Z with false
          by (symmetry; apply Z.leb_gt; lia).
        apply andb_false_r.
    + rewrite (@try_paths_skip readFile path_extname toLowerCase numberToString
                 frame n q (passed ++ p :: later) Hl Hb Hq).
      apply IH. intros x t Hx. apply Hb. right. exact Hx.
  - intros p Ef. unfold analyzeFileForStackFrame. rewrite Hfind, Ef.
    apply find_some in Ef. destruct Ef as [_ Hu]. unfold usable in Hu.
    destruct (readFile p) as [text|] eqn:Er; [|discriminate].
    exists text. split; [reflexivity|].
    unfold holds_line in Hu. apply andb_true_iff in Hu.
    destruct Hu as [H1 H2]. apply Z.leb_le in H1, H2.
    split; [lia|]. split; [reflexivity|].
    unfold report_on. rewrite Er.
    destruct (@frame_report_ok path_extname toLowerCase numberToString
                frame (split_nl text) (n - 1)) as [a ->]; [lia|reflexivity].
  - intros text Er Hh Hu. unfold analyzeFileForStackFrame. rewrite Hfind.
    cbn [possiblePaths find]. unfold usable at 1. rewrite Er, Hh, Hu.
    reflexivity.
Qed.

Lemma out_of_range_candidate_skipped_witness :
  Sample.read_from Tree.shadowed (lit "proj/a.rb") = Some (lit "only line") /\
  Sample.analyze_frame Tree.shadowed (Tree.frame_a 5) (lit "proj")
  = report_on (Sample.read_from Tree.shadowed) Sample.extname
      Sample.ascii_lower Sample.decimal (Tree.frame_a 5) 5
      (lit "proj/src/a.rb").
Proof.
  split; [vm_compute; reflexivity|].
  pose proof (@out_of_range_candidate_skipped (Sample.read_from Tree.shadowed)
                Sample.join_with_slash Sample.extname Sample.ascii_lower
                Sample.decimal (Tree.frame_a 5) (lit "proj") 5) as H.
  destruct H as (_ & _ & H).
  - reflexivity.
  - apply lines_bounded_assoc. repeat constructor; vm_compute; discriminate.
  - apply (H (lit "only line")); vm_compute; reflexivity.
Defined.

(** ** Out-of-range lines *)

(** C1 (amended).  When the frame's line number lies outside
    [1 .. lineCount] of every candidate that can be read, the analysis
    of that frame is the "File not found" text: there is no separate
    outcome for a line out of range.  That outcome concerns this frame
    only: the frames before and after it contribute what they
    contribute on their own. *)
Theorem out_of_range_reported_as_not_found
    (readFile : str -> option str) (path_join : list str -> str)
    (path_extname toLowerCase : str -> str) (numberToString : number -> str)
    (frame : StackTraceFrame) (root : str) (n : Z) :
  line frame = Some (Fin n) ->
  lines_bounded readFile (possiblePaths path_join frame root) ->
  (forall p text,
     In p (possiblePaths path_join frame root) ->
     readFile p = Some text ->
     (n < 1 \/ Z.of_nat (List.length (split_nl text)) < n)%Z) ->
  analyzeFileForStackFrame readFile path_join path_extname toLowerCase
    numberToString frame root
  = file_not_found frame /\
  forall earlier later,
    code_context readFile path_join path_extname toLowerCase numberToString
      root (earlier ++ frame :: later)
    = code_context readFile path_join path_extname toLowerCase numberToString
        root earlier ++
      (file_not_found frame ++ [NL]) ++
      code_context readFile path_join path_extname toLowerCase numberToString
        root later.
Proof.
  intros Hl Hb Hout.
  assert (E : analyzeFileForStackFrame readFile path_join path_extname
                toLowerCase numberToString frame root = file_not_found frame).
  { unfold analyzeFileForStackFrame.
    rewrite (@try_paths_find readFile path_extname toLowerCase numberToString
               frame n _ Hl Hb).
    destruct (find (usable readFile n) (possiblePaths path_join frame root))
      as [p|] eqn:Ef; [|reflexivity].
    apply find_some in Ef. destruct Ef as [Hin Hu]. unfold usable in Hu.
    destruct (readFile p) as [text|] eqn:Er; [|discriminate].
    specialize (Hout p text Hin Er). unfold holds_line in Hu.
    apply andb_true_iff in Hu. destruct Hu as [H1 H2].
    apply Z.leb_le in H1, H2. lia. }
  split; [exact E|]. intros earlier later.
  rewrite !code_context_each, flat_map_app. cbn [flat_map]. rewrite E.
  reflexivity.
Qed.

Lemma out_of_range_reported_as_not_found_witness :
  Sample.analyze_frame Tree.short (Tree.frame_a 5) (lit "proj")
  = file_not_found (Tree.frame_a 5).
Proof.
  pose proof (@out_of_range_reported_as_not_found
                (Sample.read_from Tree.short)
                Sample.join_with_slash Sample.extname Sample.ascii_lower
                Sample.decimal (Tree.frame_a 5) (lit "proj") 5) as H.
  destruct H as (H & _).
  - reflexivity.
  - apply lines_bounded_assoc. repeat constructor; vm_compute; discriminate.
  - intros p text Hin Hr. right.
    vm_compute in Hin. destruct Hin as [<-|[<-|[<-|[]]]];
      vm_compute in Hr; inversion Hr; subst; vm_compute; reflexivity.
  - exact H.
Defined.

(** C1, as stated, fails: [proj/a.rb] is found and has two lines, and a
    frame for its line 5 is reported with the very text used for a file
    that does not exist; nothing in it speaks of context. *)
Lemma out_of_range_line_reads_file_not_found :
  Sample.read_from Tree.short (lit "proj/a.rb")
  = Some (lit "one" ++ [NL] ++ lit "two") /\
  Sample.analyze_frame Tree.short (Tree.frame_a 5) (lit "proj")
  = QUESTION_MARK ++ lit " **File not found:** `a.rb` - May be from external library or different path structure." ++ [NL] /\
  Sample.analyze_frame Tree.short (Tree.frame_a 5) (lit "proj")
  = Sample.analyze_frame [] (Tree.frame_a 5) (lit "proj") /\
  includes (Sample.ascii_lower
              (Sample.analyze_frame Tree.short (Tree.frame_a 5) (lit "proj")))
           (lit "context") = false.
Proof. repeat split; vm_compute; reflexivity. Qed.

(** ** Line counts *)

Lemma loop_range_In a b i :
  (a <= i < b)%Z -> In i (loop_range a b).
Proof.
  intros Hi. unfold loop_range. apply in_map_iff.
  exists (Z.to_nat (i - a)). split; [lia|]. apply in_seq. lia.
Qed.

Lemma target_line_in_window lines t :
  (0 <= t < Z.of_nat (List.length lines))%Z ->
  In {| lineNumber := t + 1; content := js_nth lines t; context := target |}
     (getContextLines lines t 3).
Proof.
  intros Ht. unfold getContextLines. apply in_map_iff. exists t. split.
  - rewrite Z.ltb_irrefl, Z.eqb_refl. reflexivity.
  - apply loop_range_In. lia.
Qed.

(** C10.  The line count of an analysed file is the number of newline
    characters of its text plus one.  Hence the empty text has one
    line, and a text that ends with a newline has one line more than
    the text before that newline: a last, empty line.  The number of
    that empty line is in range for a frame: the candidate is taken,
    and the window marks the empty line as the target. *)
Theorem line_count_is_newlines_plus_one
    (readFile : str -> option str)
    (path_extname toLowerCase : str -> str) (numberToString : number -> str)
    (filePath text : str) :
  readFile filePath = Some text ->
  (exists a,
     analyzeFile readFile filePath = Ok (Some a) /\
     fileContent a = text /\
     lineCount a = count_nl text + 1) /\
  (text = [] ->
   exists a, analyzeFile readFile filePath = Ok (Some a) /\ lineCount a = 1) /\
  (forall body,
     text = body ++ [NL] ->
     let n := List.length (split_nl text) in
     split_nl text = split_nl body ++ [[]] /\
     n = List.length (split_nl body) + 1 /\
     forall frame,
       line frame = Some (Fin (Z.of_nat n)) ->
       (Z.of_nat n <= MAX_ARRAY_LENGTH)%Z ->
       try_candidate readFile path_extname toLowerCase numberToString
         frame filePath
       = Ok (Some (report_on readFile path_extname toLowerCase numberToString
                     frame (Z.of_nat n) filePath)) /\
       In {| lineNumber := Z.of_nat n; content := Some []; context := target |}
          (getContextLines (split_nl text) (Z.of_nat n - 1) 3)).
Proof.
  intros Er.
  destruct (analyzeFile_ok readFile filePath) as (r & Ea & Hr).
  rewrite Er in Hr. destruct Hr as (a & -> & Hp & Hc & Hn).
  split; [|split].
  - exists a. rewrite Hn, split_nl_length. auto.
  - intros ->. exists a. rewrite Hn. auto.
  - intros body -> n.
    assert (Es : split_nl (body ++ [NL]) = split_nl body ++ [[]])
      by apply split_nl_app_nl.
    assert (En : n = List.length (split_nl body) + 1).
    { unfold n. rewrite Es, length_app. reflexivity. }
    split; [exact Es|]. split; [exact En|].
    intros frame Hl Hb. split.
    + apply (@try_candidate_in_range readFile path_extname toLowerCase
               numberToString frame (Z.of_nat n) filePath (body ++ [NL]));
        auto.
      unfold holds_line. fold n. apply andb_true_iff.
      split; apply Z.leb_le; lia.
    + pose proof (@target_line_in_window (split_nl (body ++ [NL]))
                    (Z.of_nat n - 1)) as Hin.
      replace (Z.of_nat n - 1 + 1)%Z with (Z.of_nat n) in Hin by lia.
      replace (js_nth (split_nl (body ++ [NL])) (Z.of_nat n - 1))
        with (Some (@nil N)) in Hin; [apply Hin; fold n; lia|].
      unfold js_nth.
      replace (Z.of_nat n - 1 <? 0)%Z with false
        by (symmetry; apply Z.ltb_ge; lia).
      rewrite Es.
      replace (Z.to_nat (Z.of_nat n - 1)) with (List.length (split_nl body))
        by lia.
      rewrite nth_error_app2, Nat.sub_diag by lia. reflexivity.
Qed.

Lemma line_count_is_newlines_plus_one_witness :
  (exists a,
     Sample.analyze_file Tree.newline_ended (lit "proj/b.rb") = Ok (Some a) /\
     lineCount a = 3) /\
  Sample.analyze_frame Tree.newline_ended (Tree.frame_b 3) (lit "proj")
  = lit "### " ++ PAGE ++ lit " `b.rb` (Line 3)" ++ [NL; NL] ++
    lit "```ruby" ++ [NL] ++
    lit "  1: first" ++ [NL] ++
    lit "  2: second" ++ [NL] ++
    ARROW ++ lit " 3: " ++ [NL] ++
    lit "```" ++ [NL].
Proof.
  split; [|vm_compute; reflexivity].
  pose proof (@line_count_is_newlines_plus_one
                (Sample.read_from Tree.newline_ended) Sample.extname
                Sample.ascii_lower Sample.decimal (lit "proj/b.rb")
                (lit "first" ++ [NL] ++ lit "second" ++ [NL])) as H.
  destruct H as ((a & Ha & _ & Hn) & _).
  - vm_compute. reflexivity.
  - exists a. split; [exact Ha|]. rewrite Hn. vm_compute. reflexivity.
Defined.

(** ** Discovery *)

Lemma firstn_incl {A} n (l : list A) x : In x (firstn n l) -> In x l.
Proof.
  intros H. rewrite <- (firstn_skipn n l). apply in_or_app. left. exact H.
Qed.

(** C8.  When the enumeration returns, the scan returns at most 50
    analyses: those of the readable files among the first 50 files, in
    the order of the enumeration, that are left after the rules of the
    root's ignore file have been applied.  So every analysis is of a
    file that is not ignored, and when the ignore file cannot be read
    nothing is excluded and nothing is thrown. *)
Theorem discovery_scan_capped
    (readFile : str -> option str) (path_join : list str -> str)
    (glob : list str -> str -> outcome (list str))
    (ignores : str -> str -> bool)
    (self : Analyzer) (root : str) (files : list str) :
  glob globPatterns root = Ok files ->
  let kept :=
    match readFile (path_join [root; lit ".gitignore"]) with
    | Some rules => List.filter (fun f => negb (ignores rules f)) files
    | None => files
    end in
  filterIgnoredFiles ignores (loadGitignore readFile path_join self root) files
  = kept /\
  exists analyses,
    analyzeCodebase readFile path_join glob ignores self root
    = (Ok analyses, loadGitignore readFile path_join self root) /\
    List.length analyses <= 50 /\
    List.map path analyses
    = List.filter (readable readFile)
        (List.map (fun f => path_join [root; f]) (firstn 50 kept)) /\
    forall a, In a analyses ->
      exists f,
        In f (firstn 50 kept) /\ In f files /\ path a = path_join [root; f] /\
        forall rules,
          readFile (path_join [root; lit ".gitignore"]) = Some rules ->
          ignores rules f = false.
Proof.
  intros Hg kept.
  assert (Hk : filterIgnoredFiles ignores
                 (loadGitignore readFile path_join self root) files = kept).
  { unfold filterIgnoredFiles, loadGitignore, kept.
    destruct (readFile (path_join [root; lit ".gitignore"])); reflexivity. }
  split; [exact Hk|].
  destruct (@analyze_files_ok readFile path_join root (firstn MAX_FILES kept) [])
    as (analyses & Ea & Hm & _).
  exists analyses. unfold analyzeCodebase. rewrite Hg. cbn [bind].
  rewrite Hk, Ea. split; [reflexivity|]. split; [|split].
  - rewrite <- (length_map path analyses), Hm.
    etransitivity; [apply filter_length_le|].
    rewrite length_map. apply firstn_le_length.
  - exact Hm.
  - intros a Ha. apply (in_map path) in Ha. rewrite Hm in Ha.
    apply filter_In in Ha. destruct Ha as [Ha _].
    apply in_map_iff in Ha. destruct Ha as (f & Ef & Hf).
    exists f. split; [exact Hf|].
    apply firstn_incl in Hf. unfold kept in Hf.
    destruct (readFile (path_join [root; lit ".gitignore"])) as [rules|].
    + apply filter_In in Hf. destruct Hf as [Hf Hi].
      split; [exact Hf|]. split; [auto|].
      intros rules' E. inversion E; subst.
      apply negb_true_iff in Hi. exact Hi.
    + split; [exact Hf|]. split; [auto|]. intros rules' E. discriminate E.
Qed.

Lemma discovery_scan_capped_witness :
  exists analyses,
    fst (Sample.analyze_codebase Tree.big Tree.listing
           {| gitignorePatterns := None |} (lit "proj")) = Ok analyses /\
    List.length analyses <= 50 /\
    List.map path analyses = firstn 50 (Tree.numbered "proj/f" 90).
Proof.
  pose proof (@discovery_scan_capped (Sample.read_from Tree.big)
                Sample.join_with_slash (Sample.glob_listing Tree.listing)
                Sample.ignores_prefix {| gitignorePatterns := None |}
                (lit "proj") Tree.listing) as H.
  destruct H as (_ & analyses & Ea & Hlen & Hm & _).
  - reflexivity.
  - exists analyses. unfold Sample.analyze_codebase. rewrite Ea.
    split; [reflexivity|]. split; [exact Hlen|].
    rewrite Hm. vm_compute. reflexivity.
Defined.

(** * Further properties of the analyzer *)

(** ** Names and imports of a text *)

Lemma opt_str_eqb_eq a b : opt_str_eqb a b = true <-> a = b.
Proof.
  destruct a as [x|], b as [y|]; simpl; try (split; congruence).
  rewrite str_eqb_eq. split; congruence.
Qed.

Lemma seen_In x seen : existsb (opt_str_eqb x) seen = true <-> In x seen.
Proof.
  rewrite existsb_exists. split.
  - intros (y & Hy & E). apply opt_str_eqb_eq in E. subst. exact Hy.
  - intros H. exists x. split; [exact H|]. apply opt_str_eqb_eq. reflexivity.
Qed.

Lemma seen_ext x seen seen' :
  (forall y, In y seen <-> In y seen') ->
  existsb (opt_str_eqb x) seen = existsb (opt_str_eqb x) seen'.
Proof.
  intros H. apply eq_true_iff_eq. rewrite !seen_In. apply H.
Qed.

Lemma dedup_In seen xs :
  forall x, In x (dedup seen xs) <-> In x xs /\ ~ In x seen.
Proof.
  revert seen. induction xs as [|a xs IH]; intros seen x; simpl.
  - tauto.
  - destruct (existsb (opt_str_eqb a) seen) eqn:E.
    + apply seen_In in E. rewrite IH. split.
      * tauto.
      * intros [[->|H] Hn]; [contradiction|tauto].
    + assert (Hn : ~ In a seen) by (rewrite <- seen_In; congruence).
      simpl. rewrite IH. simpl. split.
      * intros [->|[H1 H2]]; tauto.
      * intros [[->|H] Hs]; [left; reflexivity|].
        destruct (opt_str_eqb a x) eqn:Eax.
        -- apply opt_str_eqb_eq in Eax. left. exact Eax.
        -- right. split; [exact H|]. intros [Ea|Hx]; [|tauto].
           subst. rewrite (proj2 (opt_str_eqb_eq x x) eq_refl) in Eax.
           discriminate.
Qed.

Lemma dedup_NoDup xs : forall seen, NoDup (dedup seen xs).
Proof.
  induction xs as [|a xs IH]; intros seen; simpl.
  - constructor.
  - destruct (existsb (opt_str_eqb a) seen); [apply IH|].
    constructor; [|apply IH].
    rewrite dedup_In. simpl. tauto.
Qed.

Lemma dedup_ext xs :
  forall seen seen',
    (forall y, In y seen <-> In y seen') -> dedup seen xs = dedup seen' xs.
Proof.
  induction xs as [|a xs IH]; intros seen seen' H; simpl; [reflexivity|].
  rewrite (@seen_ext a _ _ H).
  destruct (existsb (opt_str_eqb a) seen'); [apply IH; exact H|].
  f_equal. apply IH. intros y. simpl. rewrite H. tauto.
Qed.

Lemma dedup_app xs ys :
  forall seen, dedup seen (xs ++ ys) = dedup seen xs ++ dedup (xs ++ seen) ys.
Proof.
  induction xs as [|a xs IH]; intros seen; simpl; [reflexivity|].
  destruct (existsb (opt_str_eqb a) seen) eqn:E.
  - rewrite IH. f_equal. apply dedup_ext. intros y.
    apply seen_In in E. simpl. rewrite !in_app_iff.
    split; [tauto|]. intros [->|H]; tauto.
  - rewrite IH. simpl. do 2 f_equal. apply dedup_ext. intros y.
    simpl. rewrite !in_app_iff. simpl. tauto.
Qed.

Lemma dedup_filter ys :
  forall s1 s2,
    dedup (s1 ++ s2) ys
    = List.filter (fun y => negb (existsb (opt_str_eqb y) s1)) (dedup s2 ys).
Proof.
  induction ys as [|y ys IH]; intros s1 s2; simpl; [reflexivity|].
  rewrite existsb_app.
  destruct (existsb (opt_str_eqb y) s2) eqn:E2.
  - rewrite orb_true_r. apply IH.
  - rewrite orb_false_r. simpl.
    destruct (existsb (opt_str_eqb y) s1) eqn:E1; simpl.
    + rewrite <- IH. apply dedup_ext. intros z.
      apply seen_In in E1. rewrite !in_app_iff. simpl.
      split; [tauto|]. intros [H|[->|H]]; tauto.
    + f_equal. rewrite <- IH. apply dedup_ext. intros z.
      simpl. rewrite !in_app_iff. simpl. tauto.
Qed.

(** The members of a list that [fa] does not hold. *)
Definition not_among (fa xs : list (option str)) : list (option str) :=
  List.filter (fun x => negb (existsb (opt_str_eqb x) fa)) xs.

Lemma dedup_two xs ys :
  dedup [] (xs ++ ys) = dedup [] xs ++ not_among (dedup [] xs) (dedup [] ys).
Proof.
  rewrite dedup_app. f_equal.
  rewrite (@dedup_filter ys xs []). unfold not_among.
  apply filter_ext. intros y. f_equal. apply seen_ext.
  intros z. rewrite dedup_In. simpl. tauto.
Qed.

Lemma split_nl_app a b : split_nl (a ++ NL :: b) = split_nl a ++ split_nl b.
Proof.
  induction a as [|x a IH]; cbn [app split_nl].
  - rewrite N.eqb_refl. reflexivity.
  - destruct (N.eqb x NL); rewrite IH; [reflexivity|].
    pose proof (split_nl_not_nil a).
    destruct (split_nl a); [congruence|]. reflexivity.
Qed.

Lemma extract_lines_app ps l1 l2 f2 :
  extract_lines ps l2 = Ok f2 ->
  forall f1,
    extract_lines ps l1 = Ok f1 ->
    extract_lines ps (l1 ++ l2) = Ok (f1 ++ f2).
Proof.
  intros H2. induction l1 as [|l l1 IH]; intros f1 H1; simpl in *.
  - inversion H1; subst. exact H2.
  - destruct (extract_line ps (trim l)) as [found| |]; simpl in *;
      try discriminate.
    destruct (extract_lines ps l1) as [more| |]; simpl in *; try discriminate.
    inversion H1; subst. rewrite (IH _ eq_refl). simpl.
    rewrite app_assoc. reflexivity.
Qed.

(** What the first group of a pattern holds in every match, read off
    every result of the [exec] loop. *)
Lemma exec_all_group (P : str -> Prop) r :
  (forall q w c',
     matches r q w [] c' ->
     exists name,
       str_at (Some w :: List.map (cap_get c') (groups_of r)) 1 = Some name /\
       P name) ->
  forall fuel p s found,
    exec_all fuel r p s = Ok found ->
    Forall (fun x => exists name, x = Some name /\ P name) found.
Proof.
  intros Hr.
  induction fuel as [|f IH]; intros p s found H; cbn [exec_all] in H;
    (destruct (search r p s) as [[start res]|] eqn:E;
     [|inversion H; constructor]);
    (destruct (Nat.eqb (pos (fst res)) (pos start)); [discriminate|]).
  - discriminate.
  - destruct (exec_all f r (pos (fst res)) (rest (fst res))) as [more| |] eqn:Em;
      simpl in H; try discriminate.
    inversion H; subst; clear H.
    pose proof (search_sound _ _ _ E) as (pre & s0 & Es & -> & R).
    pose proof (rmatch_sound _ _ _ _ R) as (w & s' & c' & E1 & M & K).
    unfold accept in K. inversion K; subst res; clear K.
    constructor; [|exact (IH _ _ _ Em)].
    destruct (Hr _ _ _ M) as (name & Hn & HP).
    exists name. split; [|exact HP].
    unfold match_array. cbn [fst snd pos rest] in *. subst s0.
    rewrite consumed_app. exact Hn.
Qed.

Lemma extract_line_group (P : str -> Prop) ps :
  Forall (fun r => forall q w c',
            matches r q w [] c' ->
            exists name,
              str_at (Some w :: List.map (cap_get c') (groups_of r)) 1
              = Some name /\ P name) ps ->
  forall l found,
    extract_line ps l = Ok found ->
    Forall (fun x => exists name, x = Some name /\ P name) found.
Proof.
  induction 1 as [|r ps Hr F IH]; intros l found H; simpl in H.
  - inversion H. constructor.
  - destruct (exec_all (List.length l) r 0 l) as [f1| |] eqn:E1;
      simpl in H; try discriminate.
    destruct (extract_line ps l) as [f2| |] eqn:E2; simpl in H;
      try discriminate.
    inversion H; subst. apply Forall_app. split.
    + exact (@exec_all_group P r Hr _ _ _ _ E1).
    + exact (IH _ _ E2).
Qed.

Lemma extract_lines_group (P : str -> Prop) ps :
  Forall (fun r => forall q w c',
            matches r q w [] c' ->
            exists name,
              str_at (Some w :: List.map (cap_get c') (groups_of r)) 1
              = Some name /\ P name) ps ->
  forall ls found,
    extract_lines ps ls = Ok found ->
    Forall (fun x => exists name, x = Some name /\ P name) found.
Proof.
  intros F. induction ls as [|l ls IH]; intros found H; simpl in H.
  - inversion H. constructor.
  - destruct (extract_line ps (trim l)) as [f1| |] eqn:E1;
      simpl in H; try discriminate.
    destruct (extract_lines ps ls) as [f2| |] eqn:E2; simpl in H;
      try discriminate.
    inversion H; subst. apply Forall_app. split.
    + exact (@extract_line_group P ps F _ _ E1).
    + exact (IH _ eq_refl).
Qed.

(** An identifier: word characters, possibly followed by one [!] or
    [?] (a Ruby method name). *)
Definition is_identifier (name : str) : Prop :=
  exists w sfx,
    name = w ++ sfx /\ w <> [] /\ Forall (fun x => is_word x = true) w /\
    (sfx = [] \/ sfx = lit "!" \/ sfx = lit "?").

Lemma identifier_plain w :
  w <> [] -> Forall (fun x => atom_mem Word x = true) w -> is_identifier w.
Proof.
  intros Hne F. exists w, []. rewrite app_nil_r. auto.
Qed.

Lemma identifier_bare w :
  w <> [] -> Forall (fun x => atom_mem Word x = true) w ->
  is_identifier (w ++ []).
Proof. rewrite app_nil_r. apply identifier_plain. Qed.

Lemma identifier_marked w x :
  w <> [] -> Forall (fun x => atom_mem Word x = true) w ->
  atom_mem (Bracket false [CChar 33; CChar 63]) x = true ->
  is_identifier (w ++ [x]).
Proof.
  intros Hne F Hx. exists w, [x]. split; [reflexivity|].
  split; [exact Hne|]. split; [exact F|]. right.
  simpl in Hx. rewrite orb_false_r in Hx.
  apply orb_true_iff in Hx. destruct Hx as [Hx|Hx]; apply N.eqb_eq in Hx;
    subst; auto.
Qed.

Ltac group_of P :=
  let q := fresh "q" in
  let w := fresh "w" in
  let c' := fresh "c'" in
  let M := fresh "M" in
  intros q w c' M;
  expose P M; inv_matches_all;
  (eexists; split; [reflexivity|]).

Ltac identifier_found :=
  first [ apply identifier_plain; assumption
        | apply identifier_bare; assumption
        | apply identifier_marked; assumption ].

Lemma extract_pattern_identifier :
  Forall (fun r => forall q w c',
            matches r q w [] c' ->
            exists name,
              str_at (Some w :: List.map (cap_get c') (groups_of r)) 1
              = Some name /\ is_identifier name)
         DeclPatterns.extract_patterns.
Proof.
  unfold DeclPatterns.extract_patterns.
  repeat apply Forall_cons; try apply Forall_nil.
  - group_of DeclPatterns.ruby_def; identifier_found.
  - group_of DeclPatterns.ruby_lambda; identifier_found.
  - group_of DeclPatterns.ruby_stabby; identifier_found.
  - group_of DeclPatterns.js_function; identifier_found.
  - group_of DeclPatterns.js_property; identifier_found.
  - group_of DeclPatterns.js_const_arrow; identifier_found.
  - group_of DeclPatterns.python_def; identifier_found.
  - group_of DeclPatterns.java_method; identifier_found.
Qed.

Ltac constant_found :=
  match goal with
  | M : matches ImportPatterns.const_name _ _ _ _ |- _ =>
      exact (matches_not_empty M eq_refl)
  end.

Lemma import_pattern_named :
  Forall (fun r => forall q w c',
            matches r q w [] c' ->
            exists name,
              str_at (Some w :: List.map (cap_get c') (groups_of r)) 1
              = Some name /\ name <> [])
         ImportPatterns.patterns.
Proof.
  unfold ImportPatterns.patterns.
  repeat apply Forall_cons; try apply Forall_nil.
  - group_of ImportPatterns.ruby_require; assumption.
  - group_of ImportPatterns.ruby_require_relative; assumption.
  - group_of ImportPatterns.ruby_load; assumption.
  - group_of ImportPatterns.ruby_include; constant_found.
  - group_of ImportPatterns.ruby_extend; constant_found.
  - group_of ImportPatterns.ruby_gem; assumption.
  - group_of ImportPatterns.js_import_from; assumption.
  - group_of ImportPatterns.js_import; assumption.
  - group_of ImportPatterns.js_require; assumption.
  - group_of ImportPatterns.python_from; assumption.
  - group_of ImportPatterns.java_import; assumption.
Qed.

(** X1.  [extractFunctions] returns on every text: each name it lists is an
    identifier (word characters, possibly followed by one [!] or [?]),
    never [undefined] and never empty, and no name is listed twice. *)
Theorem extracted_functions_are_identifiers (content : str) :
  exists fns,
    extractFunctions content = Ok fns /\
    NoDup fns /\
    Forall (fun x => exists name, x = Some name /\ is_identifier name) fns.
Proof.
  unfold extractFunctions.
  destruct (@extract_lines_ok DeclPatterns.extract_patterns (split_nl content))
    as [found E]; [repeat constructor|].
  rewrite E. cbn [bind]. eexists. split; [reflexivity|].
  split; [apply dedup_NoDup|].
  pose proof (@extract_lines_group _ _ extract_pattern_identifier _ _ E) as F.
  rewrite Forall_forall in *. intros x Hx. apply F.
  apply dedup_In in Hx. tauto.
Qed.

(** X2.  [extractImports] returns on every text: each entry is a defined,
    non-empty string, and no entry is listed twice. *)
Theorem extracted_imports_are_distinct (content : str) :
  exists imps,
    extractImports content = Ok imps /\
    NoDup imps /\
    Forall (fun x => exists name, x = Some name /\ name <> []) imps.
Proof.
  unfold extractImports.
  destruct (@extract_lines_ok ImportPatterns.patterns (split_nl content))
    as [found E]; [repeat constructor|].
  rewrite E. cbn [bind]. eexists. split; [reflexivity|].
  split; [apply dedup_NoDup|].
  pose proof (@extract_lines_group _ _ import_pattern_named _ _ E) as F.
  rewrite Forall_forall in *. intros x Hx. apply F.
  apply dedup_In in Hx. tauto.
Qed.

Lemma extraction_splits ps a b :
  Forall (fun r => nullable r = false) ps ->
  exists fa fb,
    (found <- extract_lines ps (split_nl a) ;; Ok (dedup [] found)) = Ok fa /\
    (found <- extract_lines ps (split_nl b) ;; Ok (dedup [] found)) = Ok fb /\
    (found <- extract_lines ps (split_nl (a ++ [NL] ++ b)) ;;
     Ok (dedup [] found)) = Ok (fa ++ not_among fa fb).
Proof.
  intros F.
  destruct (@extract_lines_ok ps (split_nl a) F) as [xa Ea].
  destruct (@extract_lines_ok ps (split_nl b) F) as [xb Eb].
  exists (dedup [] xa), (dedup [] xb).
  rewrite Ea, Eb. cbn [bind]. split; [reflexivity|]. split; [reflexivity|].
  cbn [app]. rewrite split_nl_app.
  rewrite (@extract_lines_app ps _ _ _ Eb _ Ea). cbn [bind].
  rewrite dedup_two. reflexivity.
Qed.

(** X3.  Extraction works line by line.  The names of a text made of two
    parts joined by a newline are the names of the first part, followed
    by those names of the second part that the first part does not
    have; the same holds for the imports.  So a declaration or an import
    statement is found only when it stands on one line. *)
Theorem extraction_is_line_by_line (a b : str) :
  (exists fa fb,
     extractFunctions a = Ok fa /\ extractFunctions b = Ok fb /\
     extractFunctions (a ++ [NL] ++ b) = Ok (fa ++ not_among fa fb)) /\
  (exists ia ib,
     extractImports a = Ok ia /\ extractImports b = Ok ib /\
     extractImports (a ++ [NL] ++ b) = Ok (ia ++ not_among ia ib)).
Proof.
  split.
  - apply (@extraction_splits DeclPatterns.extract_patterns a b).
    repeat constructor.
  - apply (@extraction_splits ImportPatterns.patterns a b).
    repeat constructor.
Qed.

(** ** The record of a file *)

(** X4.  [analyzeFile] returns on every path and never throws.  It returns
    [null] exactly when the file cannot be read.  The record of a
    readable file holds the path asked for, the text read, the number
    of its lines, and what the two extractors return on that text. *)
Theorem file_record_null_iff_unreadable
    (readFile : str -> option str) (filePath : str) :
  exists r,
    analyzeFile readFile filePath = Ok r /\
    (r = None <-> readFile filePath = None) /\
    (forall a,
       r = Some a ->
       path a = filePath /\
       readFile filePath = Some (fileContent a) /\
       lineCount a = List.length (split_nl (fileContent a)) /\
       extractFunctions (fileContent a) = Ok (functions a) /\
       extractImports (fileContent a) = Ok (imports a)).
Proof.
  unfold analyzeFile. destruct (readFile filePath) as [text|].
  - destruct (extractFunctions_ok text) as [fns Ef].
    destruct (extractImports_ok text) as [imps Ei].
    rewrite Ef, Ei. cbn [bind]. eexists. split; [reflexivity|]. split.
    + split; discriminate.
    + intros a Ha. inversion Ha; subst; clear Ha. cbn. auto.
  - exists None. split; [reflexivity|]. split; [tauto|]. discriminate.
Qed.

(** ** The window, for any target and radius *)

Lemma loop_range_bounds a b i : In i (loop_range a b) -> (a <= i < b)%Z.
Proof.
  unfold loop_range. rewrite in_map_iff. intros (k & <- & Hk).
  apply in_seq in Hk. lia.
Qed.

(** X5.  Whatever the target index and the radius are (a target before the
    first or after the last line, a negative radius), every entry of
    the window is a line of the file: its number lies between 1 and the
    line count and within the radius of the target, and its content is
    that line's text, never [undefined].  The window has at most
    [2r+1] entries, and it is empty exactly when no line of the file
    lies within the radius. *)
Theorem window_holds_only_lines_of_the_file (lines : list str) (t r : Z) :
  let window := getContextLines lines t r in
  Forall (fun cl =>
            (1 <= lineNumber cl <= Z.of_nat (List.length lines))%Z /\
            (Z.abs (lineNumber cl - 1 - t) <= r)%Z /\
            exists text,
              content cl = Some text /\
              nth_error lines (Z.to_nat (lineNumber cl - 1)) = Some text)
         window /\
  (Z.of_nat (List.length window) <= Z.max 0 (2 * r + 1))%Z /\
  (window = [] <->
   (Z.min (Z.of_nat (List.length lines)) (t + r + 1) <= Z.max 0 (t - r))%Z).
Proof.
  intros window. unfold window, getContextLines. split; [|split].
  - apply Forall_forall. intros cl Hcl. apply in_map_iff in Hcl.
    destruct Hcl as (i & <- & Hi). apply loop_range_bounds in Hi.
    cbn [lineNumber content]. split; [lia|]. split; [lia|].
    replace (i + 1 - 1)%Z with i by lia.
    unfold js_nth.
    replace (i <? 0)%Z with false by (symmetry; apply Z.ltb_ge; lia).
    destruct (nth_error lines (Z.to_nat i)) as [text|] eqn:E.
    + exists text. auto.
    + apply nth_error_None in E. lia.
  - rewrite length_map, loop_range_length. lia.
  - split.
    + intros E. apply (f_equal (@List.length ContextLine)) in E.
      rewrite length_map, loop_range_length in E. simpl in E. lia.
    + intros H. apply length_zero_iff_nil.
      rewrite length_map, loop_range_length. lia.
Qed.

(** ** The containing function, at and beyond the ends of the file *)

Lemma scan_back_app above below :
  forall i,
    i < List.length above ->
    scan_back (above ++ below) i = scan_back above i.
Proof.
  induction i as [|i IH]; intros Hi; cbn [scan_back];
    rewrite nth_error_app1 by lia;
    (destruct (nth_error above _) as [l|]; [|reflexivity]);
    (destruct (declared_name (trim l)); [reflexivity|]).
  - reflexivity.
  - apply IH. lia.
Qed.

(** X6.  The scan looks at the target line and the lines above it only:
    the lines after the target never change its result. *)
Theorem containing_function_ignores_later_lines
    (above below : list str) (t : Z) :
  (t < Z.of_nat (List.length above))%Z ->
  findContainingFunction (above ++ below) t = findContainingFunction above t.
Proof.
  intros Ht. unfold findContainingFunction.
  destruct (t <? 0)%Z eqn:E; [reflexivity|].
  apply Z.ltb_ge in E. apply scan_back_app. lia.
Qed.

Lemma containing_function_ignores_later_lines_witness :
  findContainingFunction
    ([lit "def load"; lit "  read"] ++ [lit "def store"; lit "  write"]) 1
  = Ok (Some (lit "load")).
Proof.
  rewrite (@containing_function_ignores_later_lines
             [lit "def load"; lit "  read"]
             [lit "def store"; lit "  write"] 1).
  - vm_compute. reflexivity.
  - vm_compute. reflexivity.
Defined.

(** X7.  The scan throws exactly when the target index is at or beyond the
    end of the lines, where [lines[i].trim()] reads an undefined line;
    for every other index, a negative one included, it returns. *)
Theorem containing_function_throws_beyond_the_end (lines : list str) (t : Z) :
  (findContainingFunction lines t = Throw TypeError <->
   (Z.of_nat (List.length lines) <= t)%Z) /\
  ((exists name, findContainingFunction lines t = Ok name) <->
   (t < Z.of_nat (List.length lines))%Z).
Proof.
  unfold findContainingFunction.
  destruct (t <? 0)%Z eqn:E.
  - apply Z.ltb_lt in E. split.
    + split; [discriminate|lia].
    + split; [lia|]. intros _. eexists. reflexivity.
  - apply Z.ltb_ge in E.
    destruct (Z_lt_le_dec t (Z.of_nat (List.length lines))) as [Hin|Hout].
    + assert (Hi : Z.to_nat t < List.length lines) by lia.
      destruct (scan_back_spec lines Hi) as [(j & x & _ & _ & _ & ->)|[_ ->]];
        (split; [split; [discriminate|lia]|]);
        (split; [lia|]); intros _; eexists; reflexivity.
    + assert (Hn : nth_error lines (Z.to_nat t) = None)
        by (apply nth_error_None; lia).
      assert (Hs : scan_back lines (Z.to_nat t) = Throw TypeError).
      { destruct (Z.to_nat t); cbn [scan_back]; rewrite Hn; reflexivity. }
      rewrite Hs. split.
      * split; [lia|reflexivity].
      * split; [intros [name Hname]; discriminate Hname|lia].
Qed.

(** ** The parser, line by line *)

Lemma frames_of_line_at_most_one l : List.length (frames_of_line l) <= 1.
Proof.
  destruct (first_match l patterns) as [[p m]|] eqn:E.
  - destruct (frames_of_line_some l E) as (f & -> & _). simpl. lia.
  - rewrite (frames_of_line_none l E). simpl. lia.
Qed.

Lemma frames_at_most_lines ls :
  List.length (flat_map frames_of_line ls) <= List.length ls.
Proof.
  induction ls as [|l ls IH]; simpl; [lia|].
  rewrite length_app. pose proof (frames_of_line_at_most_one l). lia.
Qed.

(** X8.  The frames of a text made of two parts joined by a newline are the
    frames of the first part followed by the frames of the second: a
    frame is recognized on one line, whatever the lines around it are.
    A text never yields more frames than it has lines. *)
Theorem parse_is_line_by_line (a b : str) :
  exists fa fb,
    parseStackTrace a = Ok fa /\ parseStackTrace b = Ok fb /\
    parseStackTrace (a ++ [NL] ++ b) = Ok (fa ++ fb) /\
    List.length fa <= count_nl a + 1.
Proof.
  exists (flat_map frames_of_line (split_nl a)),
         (flat_map frames_of_line (split_nl b)).
  rewrite !parseStackTrace_ok. cbn [app]. rewrite split_nl_app, flat_map_app.
  repeat split.
  rewrite <- split_nl_length. apply frames_at_most_lines.
Qed.

(** ** The report on a trace *)

(** X9.  The report on a trace with at least one recognized line lists
    every frame, but gives the code context of the first five frames
    only: one block for each of them, in their order, each followed by
    a newline, and no block is ever skipped. *)
Theorem trace_report_covers_five_frames
    (readFile : str -> option str) (path_join : list str -> str)
    (path_extname toLowerCase : str -> str) (numberToString : number -> str)
    (stackTrace codebasePath : str) :
  exists frames,
    parseStackTrace stackTrace = Ok frames /\
    analyzeStackTrace readFile path_join path_extname toLowerCase
      numberToString stackTrace codebasePath
    = Ok (match frames with
          | [] => could_not_parse
          | _ =>
              lit "## " ++ MAGNIFIER ++ lit " Stack Trace Analysis" ++
              [NL; NL] ++ lit "**Parsed Stack Trace:**" ++ [NL] ++
              list_frames numberToString 0 frames ++
              [NL] ++ lit "**Code Context:**" ++ [NL; NL] ++
              flat_map
                (fun frame =>
                   analyzeFileForStackFrame readFile path_join path_extname
                     toLowerCase numberToString frame codebasePath ++ [NL])
                (firstn 5 frames)
          end) /\
    List.length (firstn 5 frames) = Nat.min 5 (List.length frames).
Proof.
  exists (flat_map frames_of_line (split_nl stackTrace)).
  split; [apply parseStackTrace_ok|]. split; [|apply length_firstn].
  unfold analyzeStackTrace. rewrite parseStackTrace_ok. cbn [bind].
  destruct (flat_map frames_of_line (split_nl stackTrace)) as [|f fs];
    [reflexivity|].
  rewrite code_context_each. reflexivity.
Qed.

(** ** Frames without a usable line number *)

(** X11.  A frame whose line number is missing, is not a finite number, or
    is zero or negative is reported as "File not found", whatever the
    files of the codebase are: no candidate can hold such a line. *)
Theorem frame_without_a_positive_line_is_not_found
    (readFile : str -> option str) (path_join : list str -> str)
    (path_extname toLowerCase : str -> str) (numberToString : number -> str)
    (frame : StackTraceFrame) (codebasePath : str) :
  match line frame with
  | Some (Fin n) => (- 2 ^ 53 < n <= 0)%Z
  | _ => True
  end ->
  analyzeFileForStackFrame readFile path_join path_extname toLowerCase
    numberToString frame codebasePath
  = file_not_found frame.
Proof.
  intros Hline.
  assert (Hc : forall p,
             try_candidate readFile path_extname toLowerCase numberToString
               frame p = Throw IOError \/
             try_candidate readFile path_extname toLowerCase numberToString
               frame p = Ok None).
  { intros p. unfold try_candidate.
    destruct (readFile p) as [text|]; [right|left; reflexivity].
    unfold target_index.
    destruct (line frame) as [[n| | |]|]; cbn [num_pred num_ge0 num_lt andb];
      try reflexivity.
    unfold round_num.
    replace (n - 1 <? 0)%Z with true by (symmetry; apply Z.ltb_lt; lia).
    rewrite round53_exact by lia. cbn [num_ge0].
    replace (0 <=? - - (n - 1))%Z with false
      by (symmetry; apply Z.leb_gt; lia).
    reflexivity. }
  unfold analyzeFileForStackFrame.
  induction (possiblePaths path_join frame codebasePath) as [|p ps IH];
    [reflexivity|].
  cbn [try_paths]. destruct (Hc p) as [-> | ->]; exact IH.
Qed.

Lemma frame_without_a_positive_line_is_not_found_witness :
  Sample.analyze_frame Tree.shadowed
    {| filename := lit "a.rb"; function := Some (lit "run");
       line := Some PosInf; column := None |}
    (lit "proj")
  = file_not_found
      {| filename := lit "a.rb"; function := Some (lit "run");
         line := Some PosInf; column := None |}.
Proof.
  unfold Sample.analyze_frame.
  apply (@frame_without_a_positive_line_is_not_found
           (Sample.read_from Tree.shadowed) Sample.join_with_slash
           Sample.extname Sample.ascii_lower Sample.decimal
           {| filename := lit "a.rb"; function := Some (lit "run");
              line := Some PosInf; column := None |}
           (lit "proj")).
  exact I.
Defined.


(** ** Failures of the discovery scan *)

(** X12.  [analyzeCodebase] fails only when the enumeration fails: an
    exception of [glob] is passed on to the caller, and when [glob]
    returns, the scan returns the records of the files it could read,
    one for each of them, whatever the other files are: a file that
    cannot be read is skipped and never ends the scan. *)
Theorem codebase_scan_fails_only_with_the_enumeration
    (readFile : str -> option str) (path_join : list str -> str)
    (glob : list str -> str -> outcome (list str))
    (ignores : str -> str -> bool)
    (self : Analyzer) (codebasePath : str) :
  let result :=
    fst (analyzeCodebase readFile path_join glob ignores self codebasePath) in
  match glob globPatterns codebasePath with
  | Ok files =>
      exists analyses,
        result = Ok analyses /\
        Forall (fun a => readFile (path a) = Some (fileContent a)) analyses /\
        List.length analyses <= List.length files
  | Throw e => result = Throw e
  | Diverge => result = Diverge
  end.
Proof.
  cbn zeta. unfold analyzeCodebase. cbn [fst].
  destruct (glob globPatterns codebasePath) as [files|e|]; cbn [bind];
    [|reflexivity|reflexivity].
  set (listed := firstn MAX_FILES
                   (filterIgnoredFiles ignores
                      (loadGitignore readFile path_join self codebasePath)
                      files)).
  destruct (analyze_files_ok readFile path_join codebasePath listed [])
    as (analyses & E & Hm & Hf).
  exists analyses. split; [exact E|]. split.
  - eapply Forall_impl; [|exact Hf]. intros a [H _]. exact H.
  - apply (f_equal (@List.length str)) in Hm. rewrite length_map in Hm.
    rewrite Hm.
    etransitivity; [apply filter_length_le|]. rewrite length_map.
    unfold listed. rewrite length_firstn.
    etransitivity; [apply Nat.le_min_r|].
    unfold filterIgnoredFiles.
    destruct (gitignorePatterns _); [apply filter_length_le|apply le_n].
Qed.

(** * SentryService: from an event to a trace text *)

(** [parts.join(sep)] *)
Fixpoint join (sep : str) (parts : list str) : str :=
  match parts with
  | [] => []
  | [p] => p
  | p :: ps => p ++ sep ++ join sep ps
  end.

(** Whether a number counts as true in a condition: [0] and [NaN] do
    not. *)
Definition truthy (n : number) : bool :=
  match n with
  | Fin 0 | NaN => false
  | _ => true
  end.

Module SentryService.

(** The fields of an event that [extractStackTrace] and
    [extractRelevantFiles] read, typed as the interface [SentryEvent]
    declares them; [exception] holds the [values] array, [stacktrace]
    the [frames] array, when they are there. *)
Record SentryFrame := {
  filename : str;
  function : str;
  lineno : number;
  colno : option number;
  in_app : bool
}.

Record SentryException := {
  type : str;
  value : str;
  stacktrace : option (list SentryFrame)
}.

Record SentryEvent := {
  exception : option (list SentryException)
}.

Section Rendering.

Variable numberToString : number -> str.

(** [frame.function || '<anonymous>'] *)
Definition function_or_anonymous (frame : SentryFrame) : str :=
  match function frame with
  | [] => lit "<anonymous>"
  | c :: s => c :: s
  end.

(** The text of [colno] after the line number, when [colno] counts as
    true. *)
Definition column_suffix (frame : SentryFrame) : str :=
  match colno frame with
  | Some c => if truthy c then lit ":" ++ numberToString c else []
  | None => []
  end.

(** The body of [frames.map(frame => ...)]. *)
Definition stack_line (frame : SentryFrame) : str :=
  let location :=
    filename frame ++ lit ":" ++ numberToString (lineno frame) ++
    column_suffix frame in
  lit "  at " ++ function_or_anonymous frame ++ lit " (" ++ location ++ lit ")".

(** The result, [None] for [null], and the event after the call:
    [frames.reverse()] reverses the array of the event in place. *)
Definition extractStackTrace (event : SentryEvent)
  : option str * SentryEvent :=
  match exception event with
  | None | Some [] => (None, event)
  | Some (exc :: others) =>
      match stacktrace exc with
      | None | Some [] => (None, event)
      | Some (f :: fs) =>
          let frames := rev (f :: fs) in
          let stackLines := List.map stack_line frames in
          (Some (type exc ++ lit ": " ++ value exc ++ [NL] ++
                 join [NL] stackLines),
           {| exception :=
                Some ({| type := type exc; value := value exc;
                         stacktrace := Some frames |} :: others) |})
      end
  end.

End Rendering.

(** The normalization of a file name: one leading [/] is dropped, then
    one leading [./]. *)
Definition normalize (name : str) : str :=
  let name := if starts_with (lit "/") name then skipn 1 name else name in
  if starts_with (lit "./") name then skipn 2 name else name.

(** [files.add(x)] on a set kept in insertion order. *)
Definition set_add (files : list str) (x : str) : list str :=
  if existsb (str_eqb x) files then files else files ++ [x].

(** [frame.in_app && frame.filename] *)
Definition relevant (frame : SentryFrame) : bool :=
  in_app frame && match filename frame with [] => false | _ => true end.

(** [for (const frame of exception.stacktrace.frames)] *)
Fixpoint add_frames (files : list str) (frames : list SentryFrame)
  : list str :=
  match frames with
  | [] => files
  | frame :: frames' =>
      add_frames
        (if relevant frame then set_add files (normalize (filename frame))
         else files)
        frames'
  end.

(** [for (const exception of event.exception.values)] *)
Fixpoint add_exceptions (files : list str) (values : list SentryException)
  : list str :=
  match values with
  | [] => files
  | exc :: values' =>
      add_exceptions
        (match stacktrace exc with
         | Some (f :: fs) => add_frames files (f :: fs)
         | _ => files
         end)
        values'
  end.

(** [Array.from(files)] *)
Definition extractRelevantFiles (event : SentryEvent) : list str :=
  match exception event with
  | Some (exc :: others) => add_exceptions [] (exc :: others)
  | _ => []
  end.

End SentryService.

(** ** Runs of the matcher, one construct at a time *)

Lemma run_seq r1 r2 st c k :
  rmatch (Seq r1 r2) st c k = rmatch r1 st c (fun st1 c1 => rmatch r2 st1 c1 k).
Proof. reflexivity. Qed.

Lemma run_group i r st c k :
  rmatch (Group i r) st c k
  = rmatch r st c (fun st1 c1 => k st1 ((i, consumed st st1) :: c1)).
Proof. reflexivity. Qed.

Lemma run_chr x p s c k :
  rmatch (Chr x) (MState p (x :: s)) c k = k (MState (S p) s) c.
Proof. simpl. unfold step. simpl. rewrite N.eqb_refl. reflexivity. Qed.

Lemma fail_chr x y p s c k :
  x <> y -> rmatch (Chr x) (MState p (y :: s)) c k = None.
Proof.
  intros H. simpl. unfold step. simpl.
  destruct (N.eqb_spec x y); [contradiction|reflexivity].
Qed.

Lemma fail_plus g a y p s c k :
  atom_mem a y = false -> rmatch (Plus g (Cls a)) (MState p (y :: s)) c k = None.
Proof. intros H. simpl. unfold step. simpl. rewrite H. reflexivity. Qed.

Lemma greedy_run_exact f k c res :
  forall w s' p,
    Forall (fun x => f x = true) w ->
    not_starting_with f s' ->
    k (MState (p + List.length w) s') c = Some res ->
    greedy_run f k p (w ++ s') c = Some res.
Proof.
  intros w s' p F Hs H. apply greedy_run_app_some; [exact F|].
  destruct s' as [|y t]; simpl in *; [exact H|]. rewrite Hs. exact H.
Qed.

(** A greedy [a+] in front of a text that starts with a run [x :: w]
    of the class, and goes on with something else: the whole run is
    taken when the continuation accepts that. *)
Lemma run_plus_greedy a k c res x w s' p :
  atom_mem a x = true ->
  Forall (fun y => atom_mem a y = true) w ->
  not_starting_with (atom_mem a) s' ->
  k (MState (p + List.length (x :: w)) s') c = Some res ->
  rmatch (Plus true (Cls a)) (MState p (x :: w ++ s')) c k = Some res.
Proof.
  intros Hx F Hs H. rewrite plus_cls_greedy by exact Hx.
  apply greedy_run_exact; [exact F|exact Hs|].
  cbn [List.length] in H. rewrite <- Nat.add_succ_comm in H. exact H.
Qed.

(** The splits a lazy [a*?] offers to its continuation: shortest first. *)
Fixpoint lazy_run (f : N -> bool) (k : cont) (p : nat) (s : str)
    (c : captures) : option mresult :=
  orelse (k (MState p s) c)
         match s with
         | x :: xs => if f x then lazy_run f k (S p) xs c else None
         | [] => None
         end.

Lemma repeat_cls_lazy a k c :
  forall s p fuel,
    List.length s <= fuel ->
    repeat_loop (rmatch (Cls a)) false fuel (MState p s) c k
    = lazy_run (atom_mem a) k p s c.
Proof.
  induction s as [|x xs IH]; intros p fuel Hf.
  - destruct fuel; simpl; destruct (k (MState p []) c); reflexivity.
  - destruct fuel as [|f]; simpl in Hf; [lia|].
    simpl. unfold step. simpl.
    destruct (atom_mem a x); [|reflexivity].
    unfold progress. simpl.
    replace (Nat.ltb p (S p)) with true
      by (symmetry; apply Nat.ltb_lt; lia).
    rewrite IH by lia. reflexivity.
Qed.

Lemma plus_cls_lazy a k c x xs p :
  atom_mem a x = true ->
  rmatch (Plus false (Cls a)) (MState p (x :: xs)) c k
  = lazy_run (atom_mem a) k (S p) xs c.
Proof.
  intros Hx. simpl. unfold step. simpl. rewrite Hx.
  apply repeat_cls_lazy. simpl. lia.
Qed.

Lemma lazy_run_exact f (g : N -> bool) k c res :
  (forall q y t, g y = false -> k (MState q (y :: t)) c = None) ->
  forall w s' p,
    Forall (fun x => f x = true /\ g x = false) w ->
    k (MState (p + List.length w) s') c = Some res ->
    lazy_run f k p (w ++ s') c = Some res.
Proof.
  intros Hk. induction w as [|x w IH]; intros s' p F H.
  - simpl in H. rewrite Nat.add_0_r in H.
    destruct s'; simpl; rewrite H; reflexivity.
  - inversion F as [|? ? [Hf Hg] F']; subst.
    cbn [app lazy_run]. rewrite (Hk p x (w ++ s') Hg), Hf. cbn [orelse].
    apply IH; [exact F'|].
    cbn [List.length] in H. rewrite <- Nat.add_succ_comm in H. exact H.
Qed.

(** A lazy [a+?] in front of a text that starts with [x :: w]: when the
    continuation refuses every text that starts with a character of
    [w] (one that [g] refuses) and accepts what follows [w], the match
    is [x :: w]. *)
Lemma run_plus_lazy a (g : N -> bool) k c res x w s' p :
  atom_mem a x = true ->
  (forall q y t, g y = false -> k (MState q (y :: t)) c = None) ->
  Forall (fun y => atom_mem a y = true /\ g y = false) w ->
  k (MState (p + List.length (x :: w)) s') c = Some res ->
  rmatch (Plus false (Cls a)) (MState p (x :: w ++ s')) c k = Some res.
Proof.
  intros Hx Hk F H. rewrite plus_cls_lazy by exact Hx.
  apply (@lazy_run_exact (atom_mem a) g k c res Hk); [exact F|].
  cbn [List.length] in H. rewrite <- Nat.add_succ_comm in H. exact H.
Qed.

Lemma search_skip r p x s :
  rmatch r (MState p (x :: s)) [] accept = None ->
  search r p (x :: s) = search r (S p) s.
Proof. intros H. cbn [search]. rewrite H. reflexivity. Qed.

(** *** What a match needs *)

Lemma str_match_needs r (x : N) l :
  (forall p w c c', matches r p w c c' -> In x w) ->
  ~ In x l -> str_match l r = None.
Proof.
  intros Hr Hn. destruct (str_match l r) as [m|] eqn:E; [|reflexivity].
  exfalso. apply str_match_inv in E.
  destruct E as (pre & w & post & c' & -> & M & _).
  apply Hn. rewrite !in_app_iff. right. left. exact (Hr _ _ _ _ M).
Qed.

Lemma starts_with_app p v : starts_with p (p ++ v) = true.
Proof.
  induction p as [|x p IH]; simpl; [reflexivity|].
  rewrite N.eqb_refl. exact IH.
Qed.

Lemma includes_middle u p v : includes (u ++ p ++ v) p = true.
Proof.
  induction u as [|x u IH].
  - cbn [app]. destruct (p ++ v) eqn:E; cbn [includes];
      rewrite <- E, starts_with_app; reflexivity.
  - cbn [app includes]. rewrite IH. apply orb_true_r.
Qed.

Lemma str_match_needs_text r (t : str) l :
  (forall p w c c', matches r p w c c' -> exists a b, w = a ++ t ++ b) ->
  includes l t = false -> str_match l r = None.
Proof.
  intros Hr Hn. destruct (str_match l r) as [m|] eqn:E; [|reflexivity].
  exfalso. apply str_match_inv in E.
  destruct E as (pre & w & post & c' & -> & M & _).
  destruct (Hr _ _ _ _ M) as (a & b & ->).
  replace (pre ++ (a ++ t ++ b) ++ post) with ((pre ++ a) ++ t ++ (b ++ post))
    in Hn by (rewrite <- !app_assoc; reflexivity).
  rewrite includes_middle in Hn. discriminate.
Qed.

Ltac found_in_match :=
  rewrite ?in_app_iff; simpl; tauto.

Lemma ruby_from_needs_backtick p w c c' :
  matches ruby_from p w c c' -> In 96%N w.
Proof. intros M. expose ruby_from M. inv_matches. found_in_match. Qed.

Lemma ruby_in_needs_backtick p w c c' :
  matches ruby_in p w c c' -> In 96%N w.
Proof. intros M. expose ruby_in M. inv_matches. found_in_match. Qed.

Lemma ruby_bare_needs_extension p w c c' :
  matches ruby_bare p w c c' -> exists a b, w = a ++ lit ".rb:" ++ b.
Proof.
  intros M. expose ruby_bare M. inv_matches.
  match goal with
  | |- exists a b, (?u ++ _) ++ _ ++ ?v = _ => exists u, v
  end.
  rewrite <- app_assoc. reflexivity.
Qed.

Lemma consumed_cons p x w s' :
  consumed (MState p (x :: w ++ s')) (MState (p + List.length (x :: w)) s')
  = x :: w.
Proof. apply (consumed_app p (x :: w) s'). Qed.

Lemma consumed_prefix p q w s' :
  q = p + List.length w ->
  consumed (MState p (w ++ s')) (MState q s') = w.
Proof. intros ->. apply consumed_app. Qed.

Lemma space_not_terminator x :
  is_space x = false -> is_line_terminator x = false.
Proof.
  unfold is_space, is_line_terminator. intros H.
  repeat (apply orb_false_iff in H; destruct H as [H ?]).
  apply andb_false_iff in H.
  repeat (apply orb_false_iff; split); try assumption.
  - apply N.eqb_neq. intros ->. destruct H; discriminate.
  - apply N.eqb_neq. intros ->. destruct H; discriminate.
Qed.

(** ** The event after [extractStackTrace] *)

Lemma extractStackTrace_some
    (numberToString : number -> str) (event : SentryService.SentryEvent)
    exc others frames :
  SentryService.exception event = Some (exc :: others) ->
  SentryService.stacktrace exc = Some frames ->
  frames <> [] ->
  SentryService.extractStackTrace numberToString event
  = (Some (SentryService.type exc ++ lit ": " ++ SentryService.value exc ++
           [NL] ++
           join [NL] (List.map (SentryService.stack_line numberToString)
                               (rev frames))),
     {| SentryService.exception :=
          Some ({| SentryService.type := SentryService.type exc;
                   SentryService.value := SentryService.value exc;
                   SentryService.stacktrace := Some (rev frames) |}
                :: others) |}).
Proof.
  intros Ev Es Hne. unfold SentryService.extractStackTrace.
  rewrite Ev, Es. destruct frames as [|f fs]; [congruence|]. reflexivity.
Qed.

(** An event with frames to render: its first exception has some. *)
Definition has_frames (event : SentryService.SentryEvent) : Prop :=
  exists exc others frames,
    SentryService.exception event = Some (exc :: others) /\
    SentryService.stacktrace exc = Some frames /\ frames <> [].

Lemma extractStackTrace_none
    (numberToString : number -> str) (event : SentryService.SentryEvent) :
  ~ has_frames event ->
  SentryService.extractStackTrace numberToString event = (None, event).
Proof.
  intros Hn. unfold SentryService.extractStackTrace.
  destruct (SentryService.exception event) as [[|exc others]|] eqn:Ev;
    try reflexivity.
  destruct (SentryService.stacktrace exc) as [[|f fs]|] eqn:Es;
    try reflexivity.
  exfalso. apply Hn. exists exc, others, (f :: fs).
  split; [exact Ev|]. split; [exact Es|discriminate].
Qed.

Lemma has_frames_dec event : has_frames event \/ ~ has_frames event.
Proof.
  unfold has_frames.
  destruct (SentryService.exception event) as [[|exc others]|] eqn:Ev.
  - right. intros (e & o & fr & E & _). discriminate E.
  - destruct (SentryService.stacktrace exc) as [[|f fs]|] eqn:Es.
    + right. intros (e & o & fr & E & E2 & Hne). inversion E; subst.
      congruence.
    + left. exists exc, others, (f :: fs).
      split; [reflexivity|]. split; [exact Es|discriminate].
    + right. intros (e & o & fr & E & E2 & Hne). inversion E; subst.
      congruence.
  - right. intros (e & o & fr & E & _). discriminate E.
Qed.

(** X13.  [extractStackTrace] reverses the frames inside the event it is
    given.  For an event whose first exception has frames, the text
    lists them last frame first, and the event holds them in that
    order afterwards; a second call on the same event lists them in
    their first order and leaves the event as it was at the start.  An
    event without such frames gives [null] and is left alone. *)
Theorem stack_trace_extraction_reverses_the_event
    (numberToString : number -> str) (event : SentryService.SentryEvent) :
  let first := SentryService.extractStackTrace numberToString event in
  let second := SentryService.extractStackTrace numberToString (snd first) in
  snd second = event /\
  (fst first = None <-> ~ has_frames event) /\
  (fst first = None -> snd first = event) /\
  (forall exc others frames,
     SentryService.exception event = Some (exc :: others) ->
     SentryService.stacktrace exc = Some frames ->
     frames <> [] ->
     let header :=
       SentryService.type exc ++ lit ": " ++ SentryService.value exc ++ [NL] in
     fst first
     = Some (header ++
             join [NL] (List.map (SentryService.stack_line numberToString)
                                 (rev frames))) /\
     fst second
     = Some (header ++
             join [NL] (List.map (SentryService.stack_line numberToString)
                                 frames)) /\
     SentryService.exception (snd first)
     = Some ({| SentryService.type := SentryService.type exc;
                SentryService.value := SentryService.value exc;
                SentryService.stacktrace := Some (rev frames) |} :: others)).
Proof.
  cbn zeta. destruct (has_frames_dec event) as [Hf|Hn].
  - destruct Hf as (exc & others & frames & Ev & Es & Hne).
    assert (Hr : rev frames <> []).
    { intros E. apply (f_equal (@List.length _)) in E.
      rewrite length_rev in E. destruct frames; [congruence|discriminate E]. }
    rewrite (extractStackTrace_some numberToString event Ev Es Hne).
    cbn [fst snd].
    set (exc1 := {| SentryService.type := SentryService.type exc;
                    SentryService.value := SentryService.value exc;
                    SentryService.stacktrace := Some (rev frames) |}).
    rewrite (@extractStackTrace_some numberToString
               {| SentryService.exception := Some (exc1 :: others) |}
               exc1 others (rev frames) eq_refl eq_refl Hr).
    unfold exc1.
    cbn [fst snd SentryService.type SentryService.value].
    rewrite rev_involutive.
    split; [|split; [|split]].
    + destruct event as [ev]. cbn in Ev. subst ev.
      destruct exc as [ty va st]. cbn in Es. subst st. reflexivity.
    + split; [discriminate|]. intros Hn. exfalso. apply Hn.
      exists exc, others, frames. auto.
    + discriminate.
    + intros exc' others' frames' Ev' Es' _.
      rewrite Ev in Ev'. inversion Ev'; subst exc' others'.
      rewrite Es in Es'. inversion Es'; subst frames'.
      cbn [SentryService.exception].
      repeat split; repeat rewrite <- app_assoc; reflexivity.
  - rewrite (extractStackTrace_none numberToString Hn). cbn [fst snd].
    rewrite (extractStackTrace_none numberToString Hn). cbn [fst snd].
    split; [reflexivity|]. split; [tauto|]. split; [reflexivity|].
    intros exc others frames Ev Es Hne. exfalso. apply Hn.
    exists exc, others, frames. auto.
Qed.

(** ** The relevant files of an event *)

Lemma set_add_In files x y :
  In y (SentryService.set_add files x) <-> In y files \/ y = x.
Proof.
  unfold SentryService.set_add.
  destruct (existsb (str_eqb x) files) eqn:E.
  - apply existsb_exists in E. destruct E as (z & Hz & E).
    apply str_eqb_eq in E. subst z. split; [tauto|].
    intros [H| ->]; assumption.
  - rewrite in_app_iff. simpl. split; intros [H|H]; auto.
    + destruct H as [H|[]]. auto.
Qed.

Lemma set_add_NoDup files x :
  NoDup files -> NoDup (SentryService.set_add files x).
Proof.
  intros H. unfold SentryService.set_add.
  destruct (existsb (str_eqb x) files) eqn:E; [exact H|].
  apply NoDup_app; [exact H|repeat constructor; simpl; tauto|].
  intros y Hy [Exy|[]]. subst y.
  assert (Ht : existsb (str_eqb x) files = true).
  { apply existsb_exists. exists x. split; [exact Hy|].
    apply str_eqb_eq. reflexivity. }
  congruence.
Qed.

(** The name a frame contributes. *)
Definition contributes (frame : SentryService.SentryFrame) (name : str)
  : Prop :=
  SentryService.in_app frame = true /\
  SentryService.filename frame <> [] /\
  name = SentryService.normalize (SentryService.filename frame).

Lemma relevant_contributes frame :
  SentryService.relevant frame = true <->
  SentryService.in_app frame = true /\ SentryService.filename frame <> [].
Proof.
  unfold SentryService.relevant. rewrite andb_true_iff.
  destruct (SentryService.filename frame); split; intros [H1 H2];
    split; congruence.
Qed.

Lemma add_frames_spec frames :
  forall files,
    NoDup files ->
    NoDup (SentryService.add_frames files frames) /\
    forall name,
      In name (SentryService.add_frames files frames) <->
      In name files \/
      exists frame, In frame frames /\ contributes frame name.
Proof.
  induction frames as [|frame frames IH]; intros files Hn;
    cbn [SentryService.add_frames].
  - split; [exact Hn|]. intros name. split; [tauto|].
    intros [H|(frame & [] & _)]. exact H.
  - destruct (SentryService.relevant frame) eqn:Er.
    + destruct (IH _ (@set_add_NoDup files
                        (SentryService.normalize (SentryService.filename frame))
                        Hn)) as [H1 H2].
      split; [exact H1|]. intros name. rewrite H2, set_add_In.
      apply relevant_contributes in Er. split.
      * intros [[H| ->]|(fr & Hin & Hc)].
        -- left. exact H.
        -- right. exists frame. split; [left; reflexivity|].
           unfold contributes. tauto.
        -- right. exists fr. split; [right; exact Hin|exact Hc].
      * intros [H|(fr & [<-|Hin] & Hc)].
        -- left. left. exact H.
        -- left. right. destruct Hc as (_ & _ & ->). reflexivity.
        -- right. exists fr. auto.
    + destruct (IH _ Hn) as [H1 H2].
      split; [exact H1|]. intros name. rewrite H2. split.
      * intros [H|(fr & Hin & Hc)]; [left; exact H|].
        right. exists fr. split; [right; exact Hin|exact Hc].
      * intros [H|(fr & [<-|Hin] & Hc)].
        -- left. exact H.
        -- exfalso. destruct Hc as (Ha & Hf & _).
           assert (SentryService.relevant frame = true)
             by (apply relevant_contributes; auto).
           congruence.
        -- right. exists fr. auto.
Qed.

Lemma add_exceptions_spec values :
  forall files,
    NoDup files ->
    NoDup (SentryService.add_exceptions files values) /\
    forall name,
      In name (SentryService.add_exceptions files values) <->
      In name files \/
      exists exc frames frame,
        In exc values /\ SentryService.stacktrace exc = Some frames /\
        In frame frames /\ contributes frame name.
Proof.
  induction values as [|exc values IH]; intros files Hn;
    cbn [SentryService.add_exceptions].
  - split; [exact Hn|]. intros name. split; [tauto|].
    intros [H|(exc & frames & frame & [] & _)]. exact H.
  - assert (Hs : exists files',
               match SentryService.stacktrace exc with
               | Some (f :: fs) => SentryService.add_frames files (f :: fs)
               | _ => files
               end = files' /\ NoDup files' /\
               forall name,
                 In name files' <->
                 In name files \/
                 exists frames frame,
                   SentryService.stacktrace exc = Some frames /\
                   In frame frames /\ contributes frame name).
    { destruct (SentryService.stacktrace exc) as [[|f fs]|].
      - exists files. split; [reflexivity|]. split; [exact Hn|].
        intros name. split; [tauto|].
        intros [H|(frames & frame & E & Hin & _)]; [exact H|].
        inversion E; subst. destruct Hin.
      - destruct (add_frames_spec (f :: fs) Hn) as [H1 H2].
        eexists. split; [reflexivity|]. split; [exact H1|].
        intros name. rewrite H2. split.
        + intros [H|(frame & Hin & Hc)]; [left; exact H|].
          right. exists (f :: fs), frame. auto.
        + intros [H|(frames & frame & E & Hin & Hc)]; [left; exact H|].
          inversion E; subst. right. exists frame. auto.
      - exists files. split; [reflexivity|]. split; [exact Hn|].
        intros name. split; [tauto|].
        intros [H|(frames & frame & E & _)]; [exact H|discriminate E]. }
    destruct Hs as (files' & -> & Hn' & Hin').
    destruct (IH _ Hn') as [H1 H2]. split; [exact H1|].
    intros name. rewrite H2, Hin'. split.
    + intros [[H|(frames & frame & E & Hin & Hc)]|(e & frames & frame & He & E & Hin & Hc)].
      * left. exact H.
      * right. exists exc, frames, frame. split; [left; reflexivity|auto].
      * right. exists e, frames, frame. split; [right; exact He|auto].
    + intros [H|(e & frames & frame & [<-|He] & E & Hin & Hc)].
      * left. left. exact H.
      * left. right. exists frames, frame. auto.
      * right. exists e, frames, frame. auto.
Qed.

Lemma relevant_files_spec event :
  NoDup (SentryService.extractRelevantFiles event) /\
  forall name,
    In name (SentryService.extractRelevantFiles event) <->
    exists values exc frames frame,
      SentryService.exception event = Some values /\ In exc values /\
      SentryService.stacktrace exc = Some frames /\ In frame frames /\
      contributes frame name.
Proof.
  unfold SentryService.extractRelevantFiles.
  destruct (SentryService.exception event) as [[|exc others]|].
  - split; [constructor|]. intros name. split; [intros []|].
    intros (values & e & frames & frame & E & Hin & _).
    inversion E; subst. destruct Hin.
  - destruct (@add_exceptions_spec (exc :: others) [] (NoDup_nil _))
      as [H1 H2].
    split; [exact H1|]. intros name. rewrite H2. split.
    + intros [[]|(e & frames & frame & He & E & Hin & Hc)].
      exists (exc :: others), e, frames, frame. auto.
    + intros (values & e & frames & frame & Ev & He & E & Hin & Hc).
      inversion Ev; subst. right. exists e, frames, frame. auto.
  - split; [constructor|]. intros name. split; [intros []|].
    intros (values & e & frames & frame & E & _). discriminate E.
Qed.

(** X14.  [extractRelevantFiles] lists no name twice, and it lists exactly
    the normalized file names of the frames, of any exception of the
    event, that are marked [in_app] and have a non-empty file name. *)
Theorem relevant_files_are_the_in_app_files
    (event : SentryService.SentryEvent) :
  NoDup (SentryService.extractRelevantFiles event) /\
  forall name,
    In name (SentryService.extractRelevantFiles event) <->
    exists values exc frames frame,
      SentryService.exception event = Some values /\ In exc values /\
      SentryService.stacktrace exc = Some frames /\ In frame frames /\
      SentryService.in_app frame = true /\
      SentryService.filename frame <> [] /\
      name = SentryService.normalize (SentryService.filename frame).
Proof. exact (relevant_files_spec event). Qed.

(** X15.  The reversal that [extractStackTrace] leaves in the event does not
    change which files are relevant: the same names are listed before
    and after the call (their order may differ). *)
Theorem relevant_files_survive_the_reversal
    (numberToString : number -> str) (event : SentryService.SentryEvent)
    (name : str) :
  In name (SentryService.extractRelevantFiles
             (snd (SentryService.extractStackTrace numberToString event)))
  <-> In name (SentryService.extractRelevantFiles event).
Proof.
  rewrite !(proj2 (relevant_files_spec _)).
  destruct event as [[[|[ty va [[|f fs]|]] others]|]];
    unfold SentryService.extractStackTrace;
    cbn [SentryService.exception SentryService.stacktrace snd
         SentryService.type SentryService.value]; try tauto.
  set (e1 := {| SentryService.type := ty; SentryService.value := va;
                SentryService.stacktrace := Some (f :: fs) |}).
  set (e2 := {| SentryService.type := ty; SentryService.value := va;
                SentryService.stacktrace := Some (rev (f :: fs)) |}).
  split.
  - intros (values & e & frames & frame & Ev & He & E & Hin & Hc).
    inversion Ev; subst values; clear Ev. destruct He as [<-|He].
    + cbn in E. inversion E; subst frames; clear E.
      exists (e1 :: others), e1, (f :: fs), frame.
      split; [reflexivity|]. split; [left; reflexivity|].
      split; [reflexivity|]. split; [apply in_rev; exact Hin|exact Hc].
    + exists (e1 :: others), e, frames, frame.
      split; [reflexivity|]. split; [right; exact He|auto].
  - intros (values & e & frames & frame & Ev & He & E & Hin & Hc).
    inversion Ev; subst values; clear Ev. destruct He as [<-|He].
    + cbn in E. inversion E; subst frames; clear E.
      exists (e2 :: others), e2, (rev (f :: fs)), frame.
      split; [reflexivity|]. split; [left; reflexivity|].
      split; [reflexivity|]. split; [apply -> in_rev; exact Hin|exact Hc].
    + exists (e2 :: others), e, frames, frame.
      split; [reflexivity|]. split; [right; exact He|auto].
Qed.

(** ** From the event to the parser *)

(** The frames of all the lines of a text. *)
Definition frames_in (text : str) : list StackTraceFrame :=
  flat_map frames_of_line (split_nl text).

Lemma split_nl_join ls :
  ls <> [] -> split_nl (join [NL] ls) = flat_map split_nl ls.
Proof.
  induction ls as [|p ls IH]; intros Hne; [congruence|].
  destruct ls as [|q ls].
  - simpl. rewrite app_nil_r. reflexivity.
  - change (join [NL] (p :: q :: ls)) with (p ++ NL :: join [NL] (q :: ls)).
    rewrite split_nl_app, IH by discriminate. reflexivity.
Qed.

Lemma flat_map_lines (ls : list str) :
  flat_map frames_of_line (flat_map split_nl ls) = flat_map frames_in ls.
Proof.
  induction ls as [|l ls IH]; simpl; [reflexivity|].
  rewrite flat_map_app, IH. reflexivity.
Qed.

Lemma flat_map_of_map {A B C} (f : B -> list C) (g : A -> B) l :
  flat_map f (List.map g l) = flat_map (fun x => f (g x)) l.
Proof.
  induction l as [|x l IH]; simpl; [reflexivity|]. rewrite IH. reflexivity.
Qed.

(** X16.  The text that [extractStackTrace] builds is read by
    [parseStackTrace] one frame at a time: the result is what the
    header line yields, followed by what the line of each frame yields
    on its own, last frame of the event first. *)
Theorem extracted_trace_parses_frame_by_frame
    (numberToString : number -> str) (event : SentryService.SentryEvent)
    (exc : SentryService.SentryException)
    (others : list SentryService.SentryException)
    (frames : list SentryService.SentryFrame) :
  SentryService.exception event = Some (exc :: others) ->
  SentryService.stacktrace exc = Some frames ->
  frames <> [] ->
  exists text,
    fst (SentryService.extractStackTrace numberToString event) = Some text /\
    parseStackTrace text
    = Ok (frames_in (SentryService.type exc ++ lit ": " ++
                     SentryService.value exc) ++
          flat_map
            (fun frame =>
               frames_in (SentryService.stack_line numberToString frame))
            (rev frames)).
Proof.
  intros Ev Es Hne.
  rewrite (extractStackTrace_some numberToString event Ev Es Hne).
  cbn [fst]. eexists. split; [reflexivity|].
  rewrite parseStackTrace_ok.
  replace (SentryService.type exc ++ lit ": " ++ SentryService.value exc ++
           [NL] ++
           join [NL] (List.map (SentryService.stack_line numberToString)
                               (rev frames)))
    with ((SentryService.type exc ++ lit ": " ++ SentryService.value exc) ++
          NL :: join [NL] (List.map (SentryService.stack_line numberToString)
                                    (rev frames)))
    by (rewrite <- !app_assoc; reflexivity).
  rewrite split_nl_app, flat_map_app. f_equal.
  rewrite split_nl_join.
  - rewrite flat_map_lines, flat_map_of_map. reflexivity.
  - intros E. apply (f_equal (@List.length _)) in E.
    rewrite length_map, length_rev in E. destruct frames; [congruence|].
    discriminate E.
Qed.

(** ** One line of the extracted trace, read back *)

Ltac normal_pattern P :=
  let r := eval vm_compute in P in change P with r.

Ltac run_on :=
  repeat (first [rewrite run_seq | rewrite run_group | rewrite run_chr];
          cbv beta).

Lemma run_plus_greedy_one a k c res x s' p :
  atom_mem a x = true ->
  not_starting_with (atom_mem a) s' ->
  k (MState (S p) s') c = Some res ->
  rmatch (Plus true (Cls a)) (MState p (x :: s')) c k = Some res.
Proof.
  intros Hx Hs H.
  apply (@run_plus_greedy a k c res x [] s' p Hx (Forall_nil _) Hs).
  cbn [List.length]. rewrite Nat.add_1_r. exact H.
Qed.

Lemma any_of_no_space fn :
  Forall (fun y => is_space y = false) fn ->
  Forall (fun y => atom_mem Any y = true /\ is_space y = false) fn.
Proof.
  apply Forall_impl. intros y Hy. split; [|exact Hy].
  simpl. rewrite (space_not_terminator y Hy). reflexivity.
Qed.

Lemma any_of_no_colon file :
  Forall (fun y => is_line_terminator y = false /\ y <> 58%N) file ->
  Forall (fun y => atom_mem Any y = true /\ N.eqb 58 y = false) file.
Proof.
  apply Forall_impl. intros y [Hy Hc]. split.
  - simpl. rewrite Hy. reflexivity.
  - apply N.eqb_neq. congruence.
Qed.

Lemma js_at_run p f0 fn g0 file l0 L c0 C :
  is_space f0 = false ->
  Forall (fun y => is_space y = false) fn ->
  is_line_terminator g0 = false ->
  Forall (fun y => is_line_terminator y = false /\ y <> 58%N) file ->
  all_digits (l0 :: L) -> all_digits (c0 :: C) ->
  exists st,
    rmatch js_at
      (MState p (97 :: 116 :: 32 :: f0 :: fn ++ 32 :: 40 :: g0 :: file ++
                 58 :: l0 :: L ++ 58 :: c0 :: C ++ [41])%N)
      [] accept
    = Some (st, [(4, c0 :: C); (3, l0 :: L); (2, g0 :: file); (1, f0 :: fn)]).
Proof.
  intros Hf0 Hfn Hg0 Hfile HL HC.
  inversion HL as [|? ? Hl0 HL']; subst.
  inversion HC as [|? ? Hc0 HC']; subst.
  eexists. normal_pattern js_at. run_on.
  apply run_plus_greedy_one; [reflexivity|exact Hf0|]. run_on.
  apply (@run_plus_lazy Any is_space).
  { simpl. rewrite (space_not_terminator f0 Hf0). reflexivity. }
  { intros q y t Hy. run_on. apply fail_plus. exact Hy. }
  { apply any_of_no_space. exact Hfn. }
  rewrite consumed_cons. run_on.
  apply run_plus_greedy_one; [reflexivity|reflexivity|]. run_on.
  apply (@run_plus_lazy Any (N.eqb 58)).
  { simpl. rewrite Hg0. reflexivity. }
  { intros q y t Hy. run_on. apply fail_chr. apply N.eqb_neq. exact Hy. }
  { apply any_of_no_colon. exact Hfile. }
  rewrite consumed_cons. run_on.
  apply run_plus_greedy; [exact Hl0|exact HL'|reflexivity|].
  rewrite consumed_cons. run_on.
  apply run_plus_greedy; [exact Hc0|exact HC'|reflexivity|].
  rewrite consumed_cons. run_on.
  unfold accept. reflexivity.
Qed.

Lemma digit_is_not c x : is_digit c = false -> all_digits x -> ~ In c x.
Proof.
  intros Hc F Hin. unfold all_digits in F. rewrite Forall_forall in F.
  apply F in Hin. congruence.
Qed.

Lemma absent_cons (x y : N) l : x <> y -> ~ In x l -> ~ In x (y :: l).
Proof. intros H1 H2 [E|H]; [congruence|contradiction]. Qed.

Lemma absent_app (x : N) a b : ~ In x a -> ~ In x b -> ~ In x (a ++ b).
Proof. intros H1 H2 H. apply in_app_iff in H. tauto. Qed.

Ltac absent :=
  repeat first
    [ assumption
    | apply absent_cons; [discriminate|]
    | apply absent_app; [assumption|]
    | apply in_nil ].

(** The line of a frame with a column, when line and column are
    written as runs of digits: the recognizer of the form
    [at f (path:line:col)] reads it. *)
Lemma column_line_read_back
    (numberToString : number -> str) (frame : SentryService.SentryFrame)
    (col : number) :
  let name := SentryService.function_or_anonymous frame in
  let file := SentryService.filename frame in
  let lineText := numberToString (SentryService.lineno frame) in
  let colText := numberToString col in
  Forall (fun y => is_space y = false) name -> ~ In 96%N name ->
  file <> [] ->
  Forall (fun y => is_line_terminator y = false /\ y <> 58%N) file ->
  ~ In 96%N file ->
  lineText <> [] -> all_digits lineText ->
  SentryService.colno frame = Some col -> truthy col = true ->
  colText <> [] -> all_digits colText ->
  includes (SentryService.stack_line numberToString frame) (lit ".rb:") = false ->
  frames_of_line (SentryService.stack_line numberToString frame)
  = [{| filename := last_segment file;
        function := Some name;
        line := Some (round53 (digits_value 10 lineText));
        column := Some (round53 (digits_value 10 colText)) |}].
Proof.
  intros name file lineText colText Hname Hbn Hfile Ffile Hbf HL FL Hcol Htr
    HC FC Hrb.
  assert (Eline :
    SentryService.stack_line numberToString frame
    = (32 :: 32 :: 97 :: 116 :: 32 :: name ++ 32 :: 40 :: file ++
       58 :: lineText ++ 58 :: colText ++ [41])%N).
  { unfold SentryService.stack_line, SentryService.column_suffix.
    rewrite Hcol, Htr. fold name. fold file. fold lineText. fold colText.
    cbn [lit list_ascii_of_string List.map]. cbn [app].
    repeat (rewrite <- app_assoc; cbn [app]). reflexivity. }
  rewrite Eline in *. clear Eline.
  assert (Hnb : ~ In 96%N (32 :: 32 :: 97 :: 116 :: 32 :: name ++ 32 :: 40 ::
                           file ++ 58 :: lineText ++ 58 :: colText ++ [41])%N).
  { pose proof (@digit_is_not 96%N lineText eq_refl FL).
    pose proof (@digit_is_not 96%N colText eq_refl FC).
    absent. }
  assert (Hn0 : name <> []).
  { unfold name, SentryService.function_or_anonymous.
    destruct (SentryService.function frame); discriminate. }
  destruct name as [|f0 fn] eqn:En; [congruence|].
  destruct file as [|g0 file'] eqn:Ef; [congruence|].
  destruct lineText as [|l0 L] eqn:El; [congruence|].
  destruct colText as [|c0 C] eqn:Ec; [congruence|].
  inversion Hname as [|? ? Hf0 Hfn]; subst.
  inversion Ffile as [|? ? [Hg0 _] Ffile']; subst.
  destruct (@js_at_run 2 f0 fn g0 file' l0 L c0 C Hf0 Hfn Hg0 Ffile' FL FC)
    as [st Hrun].
  unfold frames_of_line, parse_line. cbn [patterns first_match].
  rewrite (@str_match_needs ruby_from 96%N _ ruby_from_needs_backtick Hnb).
  rewrite (@str_match_needs ruby_in 96%N _ ruby_in_needs_backtick Hnb).
  rewrite (@str_match_needs_text ruby_bare (lit ".rb:") _
             ruby_bare_needs_extension Hrb).
  unfold str_match.
  rewrite search_skip by reflexivity.
  rewrite search_skip by reflexivity.
  cbn [app] in Hrun. cbn [app].
  rewrite (search_hit _ _ _ Hrun).
  unfold frame_of_match. eval_includes. unfold match_array.
  change (groups_of js_at) with [1; 2; 3; 4].
  cbn [snd List.map cap_get Nat.eqb List.length Nat.leb
       str_at num_at nth nth_error option_map bind].
  rewrite basename_last_segment
    by (eapply Forall_impl; [|exact Ffile]; intros y Hy; exact (proj1 Hy)).
  rewrite !parseInt_digits by (assumption || discriminate).
  reflexivity.
Qed.

Lemma consumed_rb x stem s' :
  consumed (MState 0 (x :: stem ++ 46 :: 114 :: 98 :: s')%N)
           (MState (S (S (S (1 + List.length stem)))) s')
  = (x :: stem) ++ lit ".rb".
Proof.
  replace (x :: stem ++ 46 :: 114 :: 98 :: s')%N
    with (((x :: stem) ++ lit ".rb") ++ s')
    by (rewrite <- app_assoc; reflexivity).
  apply consumed_prefix. rewrite length_app. simpl. lia.
Qed.

Lemma ruby_bare_run_before x stem d0 ds post :
  no_line_terminator (x :: stem) ->
  all_digits (d0 :: ds) ->
  ~ In 46%N post -> not_starting_with is_digit post ->
  exists st,
    rmatch ruby_bare
      (MState 0 (x :: stem ++ 46 :: 114 :: 98 :: 58 :: d0 :: ds ++ post)%N)
      [] accept
    = Some (st, [(2, d0 :: ds); (1, (x :: stem) ++ lit ".rb")]).
Proof.
  intros Fs Fd Hdot Hpost.
  inversion Fs as [|? ? Hx Fs']; subst.
  inversion Fd as [|? ? Hd0 Fd']; subst.
  eexists. normal_pattern ruby_bare. run_on.
  rewrite plus_cls_greedy by (simpl; rewrite Hx; reflexivity).
  apply greedy_run_app_some; [apply any_no_line_terminator; exact Fs'|].
  rewrite (@greedy_run_here (atom_mem Any) _ [] 46%N).
  - run_on. rewrite consumed_rb.
    apply run_plus_greedy; [exact Hd0|exact Fd'|exact Hpost|].
    rewrite consumed_cons. unfold accept. reflexivity.
  - intros p s Hne. run_on. destruct s as [|y t]; [reflexivity|].
    apply fail_chr. intros <-. apply (Hne t). reflexivity.
  - pose proof (@digit_is_not 46%N (d0 :: ds) eq_refl Fd) as Hd.
    apply absent_cons; [discriminate|]. apply absent_cons; [discriminate|].
    apply absent_cons; [discriminate|].
    change (d0 :: ds ++ post) with ((d0 :: ds) ++ post).
    apply absent_app; assumption.
Qed.

Lemma after_last_sep_app u v t :
  after_last_sep v = Some t -> after_last_sep (u ++ v) = Some t.
Proof.
  intros H. induction u as [|x u IH]; [exact H|].
  cbn [app after_last_sep]. rewrite IH. reflexivity.
Qed.

Lemma after_last_sep_found v :
  existsb is_sep v = true -> exists t, after_last_sep v = Some t.
Proof.
  induction v as [|x v IH]; simpl; [discriminate|].
  intros H. destruct (after_last_sep v) as [t|].
  - eexists. reflexivity.
  - destruct (is_sep x); [eexists; reflexivity|]. simpl in H.
    destruct (IH H) as [t Ht]. discriminate Ht.
Qed.

Lemma after_last_sep_none v :
  existsb is_sep v = false -> after_last_sep v = None.
Proof.
  induction v as [|x v IH]; simpl; [reflexivity|].
  intros H. apply orb_false_iff in H. destruct H as [Hx Hv].
  rewrite (IH Hv), Hx. reflexivity.
Qed.

Lemma last_segment_app_sep u v :
  existsb is_sep v = true -> last_segment (u ++ v) = last_segment v.
Proof.
  intros H. destruct (after_last_sep_found v H) as [t Ht].
  unfold last_segment. rewrite (after_last_sep_app u v Ht), Ht. reflexivity.
Qed.

Lemma last_segment_whole v :
  existsb is_sep v = false -> last_segment v = v.
Proof.
  intros H. unfold last_segment. rewrite (after_last_sep_none v H).
  reflexivity.
Qed.

(** The text that a frame of the event puts after its line number: the
    column when it counts as true, then the closing parenthesis. *)
Lemma column_suffix_shape (numberToString : number -> str) frame :
  (forall col,
     SentryService.colno frame = Some col -> truthy col = true ->
     all_digits (numberToString col)) ->
  let post := SentryService.column_suffix numberToString frame ++ lit ")" in
  ~ In 46%N post /\ ~ In 96%N post /\ not_starting_with is_digit post.
Proof.
  intros Hcol post. unfold post, SentryService.column_suffix.
  destruct (SentryService.colno frame) as [col|].
  - destruct (truthy col) eqn:Et.
    + specialize (Hcol col eq_refl Et).
      pose proof (@digit_is_not 46%N _ eq_refl Hcol).
      pose proof (@digit_is_not 96%N _ eq_refl Hcol).
      split; [|split]; [| |reflexivity];
        (apply absent_cons; [discriminate|]); apply absent_app;
        try assumption; simpl; intros [E|[]]; discriminate E.
    + split; [|split]; [| |reflexivity]; simpl; intros [E|[]]; discriminate E.
  - split; [|split]; [| |reflexivity]; simpl; intros [E|[]]; discriminate E.
Qed.

(** The line of a frame whose file name ends with [.rb], when the line
    number is written as a run of digits: the bare Ruby recognizer
    reads it. *)
Lemma ruby_line_read_back
    (numberToString : number -> str) (frame : SentryService.SentryFrame)
    (stem : str) :
  let name := SentryService.function_or_anonymous frame in
  let file := SentryService.filename frame in
  let lineText := numberToString (SentryService.lineno frame) in
  let path := lit "  at " ++ name ++ lit " (" ++ file in
  file = stem ++ lit ".rb" ->
  no_line_terminator name -> ~ In 96%N name ->
  no_line_terminator stem -> ~ In 96%N stem ->
  lineText <> [] -> all_digits lineText ->
  (forall col,
     SentryService.colno frame = Some col -> truthy col = true ->
     all_digits (numberToString col)) ->
  frames_of_line (SentryService.stack_line numberToString frame)
  = [{| filename := last_segment path;
        function := Some (lit "<unknown>");
        line := Some (round53 (digits_value 10 lineText));
        column := None |}] /\
  (existsb is_sep file = true -> last_segment path = last_segment file) /\
  (existsb is_sep file = false -> existsb is_sep name = false ->
   last_segment path = path).
Proof.
  intros name file lineText path Efile Fname Hbn Fstem Hbs HL FL Hcol.
  split; [|split].
  - pose proof (column_suffix_shape numberToString frame Hcol) as Hpost.
    cbn zeta in Hpost. destruct Hpost as (Hdot & Hbt & Hnd).
    set (post := SentryService.column_suffix numberToString frame ++ lit ")")
      in *.
    assert (Eline :
      SentryService.stack_line numberToString frame
      = (32 :: 32 :: 97 :: 116 :: 32 :: name ++ 32 :: 40 :: stem)%N ++
        (46 :: 114 :: 98 :: 58 :: lineText ++ post)%N).
    { unfold SentryService.stack_line. fold name. fold file. fold lineText.
      rewrite Efile. unfold post.
      cbn [lit list_ascii_of_string List.map]. cbn [app].
      repeat (rewrite <- app_assoc; cbn [app]). reflexivity. }
    rewrite Eline. clear Eline.
    assert (Epath :
      path = (32 :: 32 :: 97 :: 116 :: 32 :: name ++ 32 :: 40 :: stem)%N ++
             lit ".rb").
    { unfold path. rewrite Efile.
      cbn [lit list_ascii_of_string List.map]. cbn [app].
      repeat (rewrite <- app_assoc; cbn [app]). reflexivity. }
    rewrite Epath. clear Epath.
    set (stem' := (32 :: 97 :: 116 :: 32 :: name ++ 32 :: 40 :: stem)%N).
    change ((32 :: 32 :: 97 :: 116 :: 32 :: name ++ 32 :: 40 :: stem)%N)
      with (32%N :: stem').
    assert (Fpre : no_line_terminator (32%N :: stem')).
    { unfold stem'. repeat (apply Forall_cons; [reflexivity|]).
      apply no_line_terminator_app; [exact Fname|].
      repeat (apply Forall_cons; [reflexivity|]). exact Fstem. }
    assert (Hbp : ~ In 96%N (32%N :: stem')).
    { unfold stem'. absent. }
    destruct lineText as [|d0 ds] eqn:El; [congruence|].
    assert (Hnb : ~ In 96%N
                    ((32%N :: stem') ++
                     (46 :: 114 :: 98 :: 58 :: (d0 :: ds) ++ post)%N)).
    { pose proof (@digit_is_not 96%N (d0 :: ds) eq_refl FL).
      apply absent_app; [exact Hbp|]. absent. }
    destruct (@ruby_bare_run_before 32%N stem' d0 ds post Fpre FL Hdot Hnd)
      as [st Hrun].
    unfold frames_of_line, parse_line. cbn [patterns first_match].
    rewrite (@str_match_needs ruby_from 96%N _ ruby_from_needs_backtick Hnb).
    rewrite (@str_match_needs ruby_in 96%N _ ruby_in_needs_backtick Hnb).
    unfold str_match. cbn [app] in Hrun. cbn [app].
    rewrite (search_hit _ _ _ Hrun).
    unfold frame_of_match. eval_includes. unfold match_array.
    change (groups_of ruby_bare) with [1; 2].
    cbn [snd List.map cap_get Nat.eqb List.length Nat.leb
         str_at num_at nth nth_error option_map bind].
    rewrite basename_last_segment
      by (apply (@no_line_terminator_app (32%N :: stem') (lit ".rb"));
          [exact Fpre|repeat constructor]).
    rewrite parseInt_digits by (assumption || discriminate).
    reflexivity.
  - intros Hsep. unfold path.
    rewrite !app_assoc. apply last_segment_app_sep. exact Hsep.
  - intros Hf Hn. apply last_segment_whole. unfold path.
    rewrite !existsb_app, Hf, Hn. reflexivity.
Qed.

Lemma str_match_needs_count r (x : N) (n : nat) l :
  (forall p w c c', matches r p w c c' -> n <= count_occ N.eq_dec w x) ->
  count_occ N.eq_dec l x < n -> str_match l r = None.
Proof.
  intros Hr Hn. destruct (str_match l r) as [m|] eqn:E; [|reflexivity].
  exfalso. apply str_match_inv in E.
  destruct E as (pre & w & post & c' & -> & M & _).
  rewrite !count_occ_app in Hn. pose proof (Hr _ _ _ _ M). lia.
Qed.

Lemma js_at_needs_two_colons p w c c' :
  matches js_at p w c c' -> 2 <= count_occ N.eq_dec w 58%N.
Proof.
  intros M. expose js_at M. inv_matches.
  rewrite !count_occ_app.
  change (count_occ N.eq_dec [58%N] 58%N) with 1. lia.
Qed.

Lemma python_file_needs_quote p w c c' :
  matches python_file p w c c' -> In DQUOTE w.
Proof. intros M. expose python_file M. inv_matches. found_in_match. Qed.

Lemma count_absent (x : N) l : ~ In x l -> count_occ N.eq_dec l x = 0.
Proof. apply count_occ_not_In. Qed.

Lemma any_of_no_paren fn :
  Forall (fun y => is_line_terminator y = false /\ y <> 40%N) fn ->
  Forall (fun y => atom_mem Any y = true /\ N.eqb 40 y = false) (fn ++ [32%N]).
Proof.
  intros F. apply Forall_app. split.
  - eapply Forall_impl; [|exact F]. intros y [Hy Hc]. split.
    + simpl. rewrite Hy. reflexivity.
    + apply N.eqb_neq. congruence.
  - repeat constructor.
Qed.

Lemma java_at_run p f0 fn g0 file l0 L :
  is_space f0 = false ->
  Forall (fun y => is_line_terminator y = false /\ y <> 40%N) fn ->
  is_line_terminator g0 = false ->
  Forall (fun y => is_line_terminator y = false /\ y <> 58%N) file ->
  all_digits (l0 :: L) ->
  exists st,
    rmatch java_at
      (MState p (97 :: 116 :: 32 :: f0 :: (fn ++ [32]) ++ 40 :: g0 :: file ++
                 58 :: l0 :: L ++ [41])%N)
      [] accept
    = Some (st, [(3, l0 :: L); (2, g0 :: file); (1, f0 :: fn ++ [32%N])]).
Proof.
  intros Hf0 Hfn Hg0 Hfile HL.
  inversion HL as [|? ? Hl0 HL']; subst.
  eexists. normal_pattern java_at. run_on.
  apply run_plus_greedy_one; [reflexivity|exact Hf0|]. run_on.
  apply (@run_plus_lazy Any (N.eqb 40)).
  { simpl. rewrite (space_not_terminator f0 Hf0). reflexivity. }
  { intros q y t Hy. run_on. apply fail_chr. apply N.eqb_neq. exact Hy. }
  { apply any_of_no_paren. exact Hfn. }
  rewrite consumed_cons. run_on.
  apply (@run_plus_lazy Any (N.eqb 58)).
  { simpl. rewrite Hg0. reflexivity. }
  { intros q y t Hy. run_on. apply fail_chr. apply N.eqb_neq. exact Hy. }
  { apply any_of_no_colon. exact Hfile. }
  rewrite consumed_cons. run_on.
  apply run_plus_greedy; [exact Hl0|exact HL'|reflexivity|].
  rewrite consumed_cons. run_on.
  unfold accept. reflexivity.
Qed.

(** The line of a frame without a column, when the line number is
    written as a run of digits: the recognizer of the form
    [at f(path:line)] reads it. *)
Lemma plain_line_read_back
    (numberToString : number -> str) (frame : SentryService.SentryFrame) :
  let name := SentryService.function_or_anonymous frame in
  let file := SentryService.filename frame in
  let lineText := numberToString (SentryService.lineno frame) in
  Forall (fun y => is_space y = false /\ y <> 40%N) name ->
  ~ In 58%N name -> ~ In 96%N name -> ~ In DQUOTE name ->
  file <> [] ->
  Forall (fun y => is_line_terminator y = false /\ y <> 58%N) file ->
  ~ In 96%N file -> ~ In DQUOTE file ->
  lineText <> [] -> all_digits lineText ->
  (forall col, SentryService.colno frame = Some col -> truthy col = false) ->
  includes (SentryService.stack_line numberToString frame) (lit ".rb:") = false ->
  frames_of_line (SentryService.stack_line numberToString frame)
  = [{| filename := last_segment file;
        function := Some (name ++ lit " ");
        line := Some (round53 (digits_value 10 lineText));
        column := None |}].
Proof.
  intros name file lineText Hname Hcn Hbn Hqn Hfile Ffile Hbf Hqf HL FL Hcol Hrb.
  assert (Eline :
    SentryService.stack_line numberToString frame
    = (32 :: 32 :: 97 :: 116 :: 32 :: name ++ 32 :: 40 :: file ++
       58 :: lineText ++ [41])%N).
  { unfold SentryService.stack_line, SentryService.column_suffix.
    destruct (SentryService.colno frame) as [col|] eqn:Ec;
      [rewrite (Hcol col eq_refl)|];
      fold name; fold file; fold lineText;
      cbn [lit list_ascii_of_string List.map]; cbn [app];
      repeat (rewrite <- app_assoc; cbn [app]); reflexivity. }
  rewrite Eline in *. clear Eline.
  assert (Hcf : ~ In 58%N file).
  { intros Hin. rewrite Forall_forall in Ffile.
    destruct (Ffile _ Hin) as [_ H]. congruence. }
  pose proof (@digit_is_not 96%N lineText eq_refl FL) as Hb1.
  pose proof (@digit_is_not DQUOTE lineText eq_refl FL) as Hq1.
  pose proof (@digit_is_not 58%N lineText eq_refl FL) as Hc1.
  assert (Hnb : ~ In 96%N (32 :: 32 :: 97 :: 116 :: 32 :: name ++ 32 :: 40 ::
                           file ++ 58 :: lineText ++ [41])%N) by absent.
  assert (Hnq : ~ In DQUOTE (32 :: 32 :: 97 :: 116 :: 32 :: name ++ 32 :: 40 ::
                             file ++ 58 :: lineText ++ [41])%N) by absent.
  assert (Hcount : count_occ N.eq_dec
                     (32 :: 32 :: 97 :: 116 :: 32 :: name ++ 32 :: 40 ::
                      file ++ 58 :: lineText ++ [41])%N 58%N < 2).
  { change (32 :: 32 :: 97 :: 116 :: 32 :: name ++ 32 :: 40 ::
            file ++ 58 :: lineText ++ [41])%N
      with (lit "  at " ++ name ++ lit " (" ++ file ++ lit ":" ++
            lineText ++ lit ")").
    rewrite !count_occ_app.
    rewrite (@count_absent _ _ Hcn), (@count_absent _ _ Hcf),
      (@count_absent _ _ Hc1).
    vm_compute. lia. }
  assert (Hn0 : name <> []).
  { unfold name, SentryService.function_or_anonymous.
    destruct (SentryService.function frame); discriminate. }
  destruct name as [|f0 fn] eqn:En; [congruence|].
  destruct file as [|g0 file'] eqn:Ef; [congruence|].
  destruct lineText as [|l0 L] eqn:El; [congruence|].
  inversion Hname as [|? ? [Hf0 _] Hfn]; subst.
  inversion Ffile as [|? ? [Hg0 _] Ffile']; subst.
  assert (Hfn' : Forall (fun y => is_line_terminator y = false /\ y <> 40%N) fn).
  { eapply Forall_impl; [|exact Hfn]. intros y [Hy Hp].
    split; [apply space_not_terminator; exact Hy|exact Hp]. }
  destruct (@java_at_run 2 f0 fn g0 file' l0 L Hf0 Hfn' Hg0 Ffile' FL)
    as [st Hrun].
  unfold frames_of_line, parse_line. cbn [patterns first_match].
  rewrite (@str_match_needs ruby_from 96%N _ ruby_from_needs_backtick Hnb).
  rewrite (@str_match_needs ruby_in 96%N _ ruby_in_needs_backtick Hnb).
  rewrite (@str_match_needs_text ruby_bare (lit ".rb:") _
             ruby_bare_needs_extension Hrb).
  rewrite (@str_match_needs_count js_at 58%N 2 _ js_at_needs_two_colons Hcount).
  rewrite (@str_match_needs python_file DQUOTE _ python_file_needs_quote Hnq).
  unfold str_match. cbn [app].
  rewrite search_skip by reflexivity.
  rewrite search_skip by reflexivity.
  rewrite <- app_assoc in Hrun. cbn [app] in Hrun.
  rewrite (search_hit _ _ _ Hrun).
  unfold frame_of_match. eval_includes. unfold match_array.
  change (groups_of java_at) with [1; 2; 3].
  cbn [snd List.map cap_get Nat.eqb List.length Nat.leb
       str_at num_at nth nth_error option_map bind].
  rewrite basename_last_segment
    by (eapply Forall_impl; [|exact Ffile]; intros y Hy; exact (proj1 Hy)).
  rewrite !parseInt_digits by (assumption || discriminate).
  reflexivity.
Qed.


(** ** Numbers of a frame, as written and as read *)

(** The decimal text of a non-negative integer: what the conversion of
    a number to a string gives for an integer below [10^21]. *)
Fixpoint decimal_fuel (fuel : nat) (n : Z) : str :=
  match fuel with
  | O => []
  | S f =>
      (if (n <? 10)%Z then [] else decimal_fuel f (n / 10)) ++
      [Z.to_N (48 + n mod 10)]
  end.

Definition decimal_digits (n : Z) : str :=
  decimal_fuel (S (Z.to_nat (Z.log2 n))) n.

Lemma digits_value_snoc ds c :
  digits_value 10 (ds ++ [c]) = (digits_value 10 ds * 10 + digit_val c)%Z.
Proof. unfold digits_value. rewrite fold_left_app. reflexivity. Qed.

Lemma decimal_digit r :
  (0 <= r < 10)%Z ->
  is_digit (Z.to_N (48 + r)) = true /\ digit_val (Z.to_N (48 + r)) = r.
Proof.
  intros Hr.
  assert (Hd : is_digit (Z.to_N (48 + r)) = true).
  { unfold is_digit. rewrite andb_true_iff, !N.leb_le. lia. }
  split; [exact Hd|]. unfold digit_val. rewrite Hd. lia.
Qed.

Lemma decimal_fuel_digits fuel :
  forall n, (0 <= n)%Z -> all_digits (decimal_fuel fuel n).
Proof.
  induction fuel as [|f IH]; intros n Hn; cbn [decimal_fuel].
  - constructor.
  - apply Forall_app. split.
    + destruct (n <? 10)%Z; [constructor|].
      apply IH. apply Z.div_pos; lia.
    + constructor; [|constructor].
      apply decimal_digit. apply Z.mod_pos_bound. lia.
Qed.

Lemma decimal_fuel_value fuel :
  forall n,
    (0 <= n < 2 ^ Z.of_nat fuel)%Z ->
    digits_value 10 (decimal_fuel fuel n) = n.
Proof.
  induction fuel as [|f IH]; intros n Hn.
  - simpl in Hn. cbn [decimal_fuel]. unfold digits_value. simpl. lia.
  - cbn [decimal_fuel]. rewrite digits_value_snoc.
    assert (Hm : (0 <= n mod 10 < 10)%Z) by (apply Z.mod_pos_bound; lia).
    rewrite (proj2 (decimal_digit Hm)).
    destruct (n <? 10)%Z eqn:E.
    + apply Z.ltb_lt in E. rewrite Z.mod_small by lia.
      unfold digits_value. simpl. lia.
    + apply Z.ltb_ge in E. rewrite IH.
      * pose proof (Z.div_mod n 10). lia.
      * split; [apply Z.div_pos; lia|].
        apply Z.div_lt_upper_bound; [lia|].
        rewrite Nat2Z.inj_succ, Z.pow_succ_r in Hn by lia. lia.
Qed.

(** The decimal text of an integer from [0] to [2^53] is a non-empty
    run of digits, and [parseInt] reads the integer back from it. *)
Lemma decimal_digits_read_back n :
  (0 <= n <= 2 ^ 53)%Z ->
  decimal_digits n <> [] /\ all_digits (decimal_digits n) /\
  round53 (digits_value 10 (decimal_digits n)) = Fin n.
Proof.
  intros Hn. unfold decimal_digits. split; [|split].
  - cbn [decimal_fuel]. intros E. apply app_eq_nil in E.
    destruct E as [_ E]. discriminate E.
  - apply decimal_fuel_digits. lia.
  - rewrite decimal_fuel_value; [apply round53_exact; exact Hn|].
    split; [lia|].
    rewrite Nat2Z.inj_succ, Z2Nat.id by apply Z.log2_nonneg.
    destruct (Z.eq_dec n 0) as [->|Hz]; [reflexivity|].
    apply Z.log2_spec. lia.
Qed.

Lemma truthy_positive c : (0 < c)%Z -> truthy (Fin c) = true.
Proof. intros Hc. destruct c; [lia|reflexivity|reflexivity]. Qed.

Lemma after_last_sep_tail u v :
  existsb is_sep v = false ->
  after_last_sep (u ++ v) = option_map (fun t => t ++ v) (after_last_sep u).
Proof.
  intros Hv. induction u as [|x u IH].
  - simpl. apply after_last_sep_none. exact Hv.
  - cbn [app after_last_sep]. rewrite IH.
    destruct (after_last_sep u) as [t|]; cbn [option_map]; [reflexivity|].
    destruct (is_sep x); reflexivity.
Qed.

Lemma last_segment_app_tail u v :
  existsb is_sep u = true -> existsb is_sep v = false ->
  last_segment (u ++ v) = last_segment u ++ v.
Proof.
  intros Hu Hv. unfold last_segment. rewrite (after_last_sep_tail u v Hv).
  destruct (after_last_sep_found u Hu) as [t ->]. reflexivity.
Qed.

(** X17.  A frame of the event is read back from its line of the text as
    it went in, function (or [<anonymous>]), line and column, the file
    name being the last segment of the frame's, under these
    conditions: the line number is an integer from [0] to [2^53] and
    the column an integer from [1] to [2^53], both written in decimal
    by the platform; the function name holds no white space and no
    backtick; the file name is not empty and holds no colon, line
    break or backtick; the line built for the frame does not contain
    [.rb:]. *)
Theorem sentry_frame_with_column_is_read_back
    (numberToString : number -> str) (frame : SentryService.SentryFrame)
    (n c : Z) :
  let name := SentryService.function_or_anonymous frame in
  let file := SentryService.filename frame in
  SentryService.lineno frame = Fin n -> (0 <= n <= 2 ^ 53)%Z ->
  numberToString (Fin n) = decimal_digits n ->
  SentryService.colno frame = Some (Fin c) -> (0 < c <= 2 ^ 53)%Z ->
  numberToString (Fin c) = decimal_digits c ->
  Forall (fun y => is_space y = false) name -> ~ In 96%N name ->
  file <> [] ->
  Forall (fun y => is_line_terminator y = false /\ y <> 58%N) file ->
  ~ In 96%N file ->
  includes (SentryService.stack_line numberToString frame) (lit ".rb:") = false ->
  frames_of_line (SentryService.stack_line numberToString frame)
  = [{| filename := last_segment file;
        function := Some name;
        line := Some (SentryService.lineno frame);
        column := SentryService.colno frame |}].
Proof.
  intros name file El Hn Hln Ec Hc Hlc Hname Hbn Hfile Ffile Hbf Hrb.
  destruct (decimal_digits_read_back Hn) as (HL & FL & VL).
  assert (Hc' : (0 <= c <= 2 ^ 53)%Z) by lia.
  destruct (decimal_digits_read_back Hc') as (HC & FC & VC).
  pose proof (@column_line_read_back numberToString frame (Fin c)) as H.
  cbn zeta in H. rewrite El, Hln, Hlc in H.
  rewrite H; try assumption.
  - rewrite VL, VC, El, Ec. reflexivity.
  - apply truthy_positive. lia.
Qed.

(** X18.  A frame of the event whose file name ends with [.rb] loses its
    function name on the way through the text: the parser reads its
    line with the bare Ruby recognizer, so the function is [<unknown>]
    and there is no column, whatever the event held; the line is the
    frame's.  The file name is the last segment of the line up to
    [.rb].  When the frame's file name holds a separator, that is the
    last segment of the frame's file name.  When it holds none, the
    beginning of the line gets into the name: from the last separator
    of the function name on when that holds one, and all of it, [  at],
    function name and parenthesis, when that holds none.  The
    conditions: the line number is an integer from [0] to [2^53]
    written in decimal by the platform; the column is absent, counts
    as false, or is an integer from [1] to [2^53] written in decimal;
    function name and file name hold no line break and no backtick. *)
Theorem sentry_ruby_frame_loses_its_function
    (numberToString : number -> str) (frame : SentryService.SentryFrame)
    (stem : str) (n : Z) :
  let name := SentryService.function_or_anonymous frame in
  let file := SentryService.filename frame in
  let path := lit "  at " ++ name ++ lit " (" ++ file in
  file = stem ++ lit ".rb" ->
  SentryService.lineno frame = Fin n -> (0 <= n <= 2 ^ 53)%Z ->
  numberToString (Fin n) = decimal_digits n ->
  (forall col,
     SentryService.colno frame = Some col ->
     truthy col = false \/
     exists c, col = Fin c /\ (0 < c <= 2 ^ 53)%Z /\
               numberToString col = decimal_digits c) ->
  no_line_terminator name -> ~ In 96%N name ->
  no_line_terminator stem -> ~ In 96%N stem ->
  frames_of_line (SentryService.stack_line numberToString frame)
  = [{| filename := last_segment path;
        function := Some (lit "<unknown>");
        line := Some (SentryService.lineno frame);
        column := None |}] /\
  (existsb is_sep file = true -> last_segment path = last_segment file) /\
  (existsb is_sep file = false -> existsb is_sep name = true ->
   last_segment path = last_segment name ++ lit " (" ++ file) /\
  (existsb is_sep file = false -> existsb is_sep name = false ->
   last_segment path = path).
Proof.
  intros name file path Efile El Hn Hln Hcol Fname Hbn Fstem Hbs.
  destruct (decimal_digits_read_back Hn) as (HL & FL & VL).
  pose proof (@ruby_line_read_back numberToString frame stem) as H.
  cbn zeta in H. rewrite El, Hln in H.
  destruct H as (H1 & H2 & H3); try assumption.
  - intros col Ec Ht. destruct (Hcol col Ec) as [Hf|(c & -> & Hc & ->)].
    + congruence.
    + assert (Hc' : (0 <= c <= 2 ^ 53)%Z) by lia.
      apply (decimal_digits_read_back Hc').
  - split; [|split; [|split]].
    + rewrite H1, VL, El. reflexivity.
    + exact H2.
    + intros Hf Hname. unfold path.
      rewrite app_assoc.
      rewrite last_segment_app_tail.
      * rewrite (@last_segment_app_sep (lit "  at ") name Hname).
        reflexivity.
      * rewrite existsb_app, Hname. apply orb_true_r.
      * rewrite existsb_app, Hf. reflexivity.
    + exact H3.
Qed.

(** X19.  A frame of the event without a column is read back by the
    recognizer of the form [at f(path:line)], whose first group runs up
    to the parenthesis: the function name comes back with the space
    that precedes the parenthesis at its end.  The file name is the
    last segment of the frame's, the line is the frame's, and there is
    no column.  The conditions: the column is absent or counts as
    false ([0] or [NaN]); the line number is an integer from [0] to
    [2^53] written in decimal by the platform; the function name holds
    no white space, colon, opening parenthesis, double quote or
    backtick; the file name is not empty and holds no colon, line
    break, double quote or backtick; the line built for the frame does
    not contain [.rb:]. *)
Theorem sentry_frame_without_column_gains_a_space
    (numberToString : number -> str) (frame : SentryService.SentryFrame)
    (n : Z) :
  let name := SentryService.function_or_anonymous frame in
  let file := SentryService.filename frame in
  SentryService.lineno frame = Fin n -> (0 <= n <= 2 ^ 53)%Z ->
  numberToString (Fin n) = decimal_digits n ->
  (forall col, SentryService.colno frame = Some col -> truthy col = false) ->
  Forall (fun y => is_space y = false /\ y <> 40%N) name ->
  ~ In 58%N name -> ~ In 96%N name -> ~ In DQUOTE name ->
  file <> [] ->
  Forall (fun y => is_line_terminator y = false /\ y <> 58%N) file ->
  ~ In 96%N file -> ~ In DQUOTE file ->
  includes (SentryService.stack_line numberToString frame) (lit ".rb:") = false ->
  frames_of_line (SentryService.stack_line numberToString frame)
  = [{| filename := last_segment file;
        function := Some (name ++ lit " ");
        line := Some (SentryService.lineno frame);
        column := None |}].
Proof.
  intros name file El Hn Hln Hcol Hname Hcn Hbn Hqn Hfile Ffile Hbf Hqf Hrb.
  destruct (decimal_digits_read_back Hn) as (HL & FL & VL).
  pose proof (@plain_line_read_back numberToString frame) as H.
  cbn zeta in H. rewrite El, Hln in H.
  rewrite H; try assumption.
  rewrite VL, El. reflexivity.
Qed.
(** ** A sample event *)

Module Events.

Definition handler : SentryService.SentryFrame :=
  {| SentryService.filename := lit "src/api/handler.js";
     SentryService.function := lit "handle";
     SentryService.lineno := Fin 12;
     SentryService.colno := Some (Fin 7);
     SentryService.in_app := true |}.

Definition worker : SentryService.SentryFrame :=
  {| SentryService.filename := lit "src/jobs/worker.py";
     SentryService.function := lit "run";
     SentryService.lineno := Fin 30;
     SentryService.colno := None;
     SentryService.in_app := true |}.

Definition model : SentryService.SentryFrame :=
  {| SentryService.filename := lit "app/models/user.rb";
     SentryService.function := lit "full_name";
     SentryService.lineno := Fin 42;
     SentryService.colno := None;
     SentryService.in_app := true |}.

Definition failure : SentryService.SentryException :=
  {| SentryService.type := lit "TypeError";
     SentryService.value := lit "x is not a function";
     SentryService.stacktrace := Some [model; worker; handler] |}.

Definition event : SentryService.SentryEvent :=
  {| SentryService.exception := Some [failure] |}.

End Events.

Ltac literal_absent :=
  vm_compute;
  let H := fresh "H" in
  intros H; repeat (destruct H as [H|H]; [discriminate H|]); exact H.

Ltac literal_all :=
  repeat (apply Forall_cons;
          [first [reflexivity | split; [reflexivity|discriminate]]|]);
  apply Forall_nil.

Lemma extracted_trace_parses_frame_by_frame_witness :
  exists text,
    fst (SentryService.extractStackTrace Sample.decimal Events.event)
    = Some text /\
    parseStackTrace text
    = Ok [{| filename := lit "handler.js"; function := Some (lit "handle");
             line := Some (Fin 12); column := Some (Fin 7) |};
          {| filename := lit "worker.py"; function := Some (lit "run ");
             line := Some (Fin 30); column := None |};
          {| filename := lit "user.rb"; function := Some (lit "<unknown>");
             line := Some (Fin 42); column := None |}].
Proof.
  destruct (@extracted_trace_parses_frame_by_frame Sample.decimal
              Events.event Events.failure []
              [Events.model; Events.worker; Events.handler])
    as (text & H1 & H2).
  - reflexivity.
  - reflexivity.
  - discriminate.
  - exists text. split; [exact H1|]. rewrite H2. vm_compute. reflexivity.
Defined.

Lemma sentry_frame_with_column_is_read_back_witness :
  frames_of_line (SentryService.stack_line Sample.decimal Events.handler)
  = [{| filename := lit "handler.js"; function := Some (lit "handle");
        line := Some (Fin 12); column := Some (Fin 7) |}].
Proof.
  pose proof (@sentry_frame_with_column_is_read_back Sample.decimal
                Events.handler 12 7) as H.
  cbn zeta in H. rewrite H.
  - vm_compute. reflexivity.
  - reflexivity.
  - lia.
  - vm_compute. reflexivity.
  - reflexivity.
  - lia.
  - vm_compute. reflexivity.
  - vm_compute. literal_all.
  - literal_absent.
  - discriminate.
  - vm_compute. literal_all.
  - literal_absent.
  - vm_compute. reflexivity.
Defined.

Lemma sentry_ruby_frame_loses_its_function_witness :
  frames_of_line (SentryService.stack_line Sample.decimal Events.model)
  = [{| filename := lit "user.rb"; function := Some (lit "<unknown>");
        line := Some (Fin 42); column := None |}].
Proof.
  pose proof (@sentry_ruby_frame_loses_its_function Sample.decimal
                Events.model (lit "app/models/user") 42) as H.
  cbn zeta in H. destruct H as [H _].
  - reflexivity.
  - reflexivity.
  - lia.
  - vm_compute. reflexivity.
  - intros col Hc. discriminate Hc.
  - vm_compute. literal_all.
  - literal_absent.
  - vm_compute. literal_all.
  - literal_absent.
  - rewrite H. vm_compute. reflexivity.
Defined.

Lemma sentry_frame_without_column_gains_a_space_witness :
  frames_of_line (SentryService.stack_line Sample.decimal Events.worker)
  = [{| filename := lit "worker.py"; function := Some (lit "run ");
        line := Some (Fin 30); column := None |}].
Proof.
  pose proof (@sentry_frame_without_column_gains_a_space Sample.decimal
                Events.worker 30) as H.
  cbn zeta in H. rewrite H.
  - vm_compute. reflexivity.
  - reflexivity.
  - lia.
  - vm_compute. reflexivity.
  - intros col Hc. discriminate Hc.
  - vm_compute. literal_all.
  - literal_absent.
  - literal_absent.
  - literal_absent.
  - discriminate.
  - vm_compute. literal_all.
  - literal_absent.
  - literal_absent.
  - vm_compute. reflexivity.
Defined.

(** * IssueInvestigator: the analysis of the relevant files *)

Module IssueInvestigator.

Section Files.

Variable readFile : str -> option str.
Variable numberToString : number -> str.

(** [xs.join(', ')]; an [undefined] entry is rendered as the empty
    text. *)
Definition join_names (xs : list (option str)) : str :=
  join (lit ", ")
       (List.map (fun x => match x with Some s => s | None => [] end) xs).

(** The line written when [xs.length > 0]: the first [limit] entries,
    and three dots when there are more. *)
Definition list_line (label : str) (limit : nat) (xs : list (option str))
  : str :=
  match xs with
  | [] => []
  | _ =>
      label ++ join_names (firstn limit xs) ++
      (if Nat.ltb limit (List.length xs) then lit "..." else []) ++ [NL]
  end.

(** What the body of [if (fileAnalysis)] appends. *)
Definition file_section (file : str) (a : FileAnalysis) : str :=
  lit "### " ++ PAGE ++ lit " `" ++ file ++ lit "`" ++ [NL; NL] ++
  lit "- **Lines:** " ++ numberToString (Fin (Z.of_nat (lineCount a))) ++
  [NL] ++
  list_line (lit "- **Functions:** ") 10 (functions a) ++
  list_line (lit "- **Key Imports:** ") 5 (imports a) ++
  [NL].

(** What the [catch] appends. *)
Definition file_missing (file : str) : str :=
  lit "### " ++ QUESTION_MARK ++ lit " `" ++ file ++ lit "`" ++ [NL; NL] ++
  lit "*File not found in codebase - may be from external library*" ++
  [NL; NL].

(** [for (const file of files.slice(0, 5))], with [analysis] so far. *)
Fixpoint relevant_sections (codebasePath analysis : str) (files : list str)
  : outcome str :=
  match files with
  | [] => Ok analysis
  | file :: files' =>
      match analyzeFile readFile (codebasePath ++ lit "/" ++ file) with
      | Ok (Some a) =>
          relevant_sections codebasePath (analysis ++ file_section file a)
            files'
      | Ok None => relevant_sections codebasePath analysis files'
      | Throw _ =>
          relevant_sections codebasePath (analysis ++ file_missing file)
            files'
      | Diverge => Diverge
      end
  end.

Definition no_relevant_files : str :=
  lit "*No relevant files found in the current codebase.*" ++ [NL].

Definition analyzeRelevantFiles (files : list str) (codebasePath : str)
  : outcome str :=
  analysis <- relevant_sections codebasePath [] (firstn 5 files) ;;
  Ok (match analysis with
      | [] => no_relevant_files
      | _ => analysis
      end).

End Files.

End IssueInvestigator.

Section RelevantFiles.

Variable readFile : str -> option str.
Variable numberToString : number -> str.
Variable codebasePath : str.

(** The section of one file: that of its record when it can be read,
    nothing otherwise. *)
Definition section_of (file : str) : str :=
  match analyzeFile readFile (codebasePath ++ lit "/" ++ file) with
  | Ok (Some a) => IssueInvestigator.file_section numberToString file a
  | _ => []
  end.

Lemma relevant_sections_ok files :
  forall analysis,
    IssueInvestigator.relevant_sections readFile numberToString codebasePath
      analysis files
    = Ok (analysis ++ flat_map section_of files).
Proof.
  induction files as [|file files IH]; intros analysis;
    cbn [IssueInvestigator.relevant_sections flat_map].
  - rewrite app_nil_r. reflexivity.
  - unfold section_of at 1.
    destruct (analyzeFile_ok readFile (codebasePath ++ lit "/" ++ file))
      as (r & -> & _).
    destruct r as [a|]; rewrite IH.
    + rewrite app_assoc. reflexivity.
    + reflexivity.
Qed.

Lemma section_of_empty file :
  section_of file = [] <-> readFile (codebasePath ++ lit "/" ++ file) = None.
Proof.
  unfold section_of.
  destruct (analyzeFile_ok readFile (codebasePath ++ lit "/" ++ file))
    as (r & -> & Hr).
  destruct (readFile (codebasePath ++ lit "/" ++ file)) as [text|].
  - destruct Hr as (a & -> & _). split; discriminate.
  - subst r. tauto.
Qed.

End RelevantFiles.

(** X20.  [analyzeRelevantFiles] returns on every list of files and never
    writes its "File not found in codebase" section, because
    [analyzeFile] never throws.  Its text is made of the sections of
    those of the first five files that can be read, in their order; a
    file that cannot be read adds nothing, and files after the fifth
    are not looked at.  The text is the "No relevant files found" line
    exactly when none of the first five files can be read. *)
Theorem relevant_files_report_skips_unreadable_files
    (readFile : str -> option str) (numberToString : number -> str)
    (files : list str) (codebasePath : str) :
  let sections :=
    flat_map (section_of readFile numberToString codebasePath)
             (firstn 5 files) in
  IssueInvestigator.analyzeRelevantFiles readFile numberToString files
    codebasePath
  = Ok (match sections with
        | [] => IssueInvestigator.no_relevant_files
        | _ => sections
        end) /\
  (sections = [] <->
   Forall (fun file => readFile (codebasePath ++ lit "/" ++ file) = None)
          (firstn 5 files)) /\
  (forall file text,
     In file (firstn 5 files) ->
     readFile (codebasePath ++ lit "/" ++ file) = Some text ->
     exists a,
       section_of readFile numberToString codebasePath file
       = IssueInvestigator.file_section numberToString file a /\
       lineCount a = List.length (split_nl text) /\
       extractFunctions text = Ok (functions a) /\
       extractImports text = Ok (imports a)).
Proof.
  intros sections. split; [|split].
  - unfold IssueInvestigator.analyzeRelevantFiles.
    rewrite relevant_sections_ok. reflexivity.
  - unfold sections. induction (firstn 5 files) as [|file fs IH];
      cbn [flat_map].
    + split; [constructor|reflexivity].
    + split.
      * intros E. apply app_eq_nil in E. destruct E as [E1 E2].
        constructor; [apply section_of_empty in E1; exact E1|].
        apply IH. exact E2.
      * intros F. inversion F as [|? ? H1 H2]; subst.
        apply (section_of_empty readFile numberToString codebasePath) in H1.
        rewrite H1. apply IH. exact H2.
  - intros file text _ E. unfold section_of, analyzeFile. rewrite E.
    destruct (extractFunctions_ok text) as [fns Ef].
    destruct (extractImports_ok text) as [imps Ei].
    rewrite Ef, Ei. cbn [bind]. eexists. split; [reflexivity|].
    cbn [lineCount functions imports]. auto.
Qed.
